(** * doxylink: the C++ signature normaliser of [sphinxcontrib/doxylink/parsing.py]

    A shallow embedding of [parsing.py] and of the part of pyparsing that its
    grammar is built from, followed by the properties of [normalise],
    [normalise_templates] and the argument grammar.

    Conventions of the embedding:
    - a Python [str] is a [string]; a character is an [ascii], read as the
      code point 0..255;
    - a pyparsing [ParseResults] is a list of tokens plus the named results;
      a token is a string or a nested [ParseResults] (what [Group] builds);
    - a pyparsing expression is an [element]: a parser that is told whether
      it skips leading whitespace ([skipWhitespace], switched off below a
      [Combine] by [leaveWhitespace]);
    - a raised exception is a value of [outcome]. *)

From Stdlib Require Import String Ascii List Arith Lia Bool.
Import ListNotations.
Set Warnings "-register-all".
Local Open Scope list_scope.
Local Open Scope string_scope.

(** ** Python string operations *)

Module Py.

(** [c in chars] for a one-character string [c]. *)
Fixpoint in_chars (c : ascii) (chars : string) : bool :=
  match chars with
  | EmptyString => false
  | String d rest => if Ascii.eqb c d then true else in_chars c rest
  end.

(** [s.startswith(p)] *)
Fixpoint startswith (p s : string) : bool :=
  match p, s with
  | EmptyString, _ => true
  | String a p', String b s' => if Ascii.eqb a b then startswith p' s' else false
  | String _ _, EmptyString => false
  end.

(** [s.find(sub)]: the lowest index where [sub] starts, if any;
    [s.index(sub)] raises [ValueError] where this is [None]. *)
Fixpoint find (sub s : string) : option nat :=
  if startswith sub s then Some 0
  else match s with
       | EmptyString => None
       | String _ s' => option_map S (find sub s')
       end.

(** [s.rfind(sub)]: the highest index where [sub] starts, if any;
    [s.rindex(sub)] raises [ValueError] where this is [None]. *)
Fixpoint rfind (sub s : string) : option nat :=
  match s with
  | EmptyString => if startswith sub s then Some 0 else None
  | String _ s' =>
      match rfind sub s' with
      | Some i => Some (S i)
      | None => if startswith sub s then Some 0 else None
      end
  end.

(** [sub in s] *)
Definition contains (sub s : string) : bool :=
  match find sub s with Some _ => true | None => false end.

(** [s[:n]] and [s[n:]] for [0 <= n]. *)
Fixpoint slice_to (n : nat) (s : string) : string :=
  match n, s with
  | S k, String c s' => String c (slice_to k s')
  | _, _ => EmptyString
  end.

Fixpoint slice_from (n : nat) (s : string) : string :=
  match n, s with
  | S k, String _ s' => slice_from k s'
  | _, _ => s
  end.

(** [s.replace(old, new)] for a non-empty [old]: occurrences are replaced
    from the left and do not overlap.  [skip] counts the characters of
    the occurrence just replaced that are still to be dropped. *)
Fixpoint replace_from (old new : string) (skip : nat) (s : string) : string :=
  match s with
  | EmptyString => EmptyString
  | String c s' =>
      match skip with
      | S k => replace_from old new k s'
      | O =>
          if startswith old s
          then new ++ replace_from old new (String.length old - 1) s'
          else String c (replace_from old new 0 s')
      end
  end.

Definition replace (old new s : string) : string := replace_from old new 0 s.

(** [sep.join(l)] *)
Fixpoint join (sep : string) (l : list string) : string :=
  match l with
  | [] => EmptyString
  | [x] => x
  | x :: rest => x ++ sep ++ join sep rest
  end.

(** [str.isspace] on one code point below 256. *)
Definition isspace (c : ascii) : bool :=
  let n := nat_of_ascii c in
  (((9 <=? n) && (n <=? 13)) || ((28 <=? n) && (n <=? 32))
   || (n =? 133) || (n =? 160))%nat.

Fixpoint lstrip (s : string) : string :=
  match s with
  | String c s' => if isspace c then lstrip s' else s
  | EmptyString => EmptyString
  end.

Fixpoint rstrip (s : string) : string :=
  match s with
  | EmptyString => EmptyString
  | String c s' =>
      match rstrip s' with
      | EmptyString => if isspace c then EmptyString else String c EmptyString
      | r => String c r
      end
  end.

(** [s.strip()] *)
Definition strip (s : string) : string := rstrip (lstrip s).

(** [s.expandtabs()]: a tab becomes the spaces up to the next column
    that is a multiple of 8; a line feed or carriage return starts a new
    line. *)
Fixpoint expandtabs_from (column : nat) (s : string) : string :=
  match s with
  | EmptyString => EmptyString
  | String c s' =>
      if Ascii.eqb c "009" then
        let incr := 8 - Nat.modulo column 8 in
        String.concat "" (List.repeat " " incr) ++ expandtabs_from (column + incr) s'
      else if Ascii.eqb c "010" || Ascii.eqb c "013" then
        String c (expandtabs_from 0 s')
      else String c (expandtabs_from (S column) s')
  end.

Definition expandtabs (s : string) : string := expandtabs_from 0 s.

End Py.

(** ** The part of pyparsing that the grammar uses

    pyparsing is a library the program imports; this module records the
    behaviour of the classes and helpers that [parsing.py] builds its grammar
    from.  Parsing an expression at a location either raises
    [ParseException] ([None]) or yields the new location and the tokens. *)

Module Pyparsing.

(** A token of a [ParseResults]: a string, or a nested [ParseResults]
    with its own token list and named results. *)
Inductive tok : Type :=
| TStr (s : string)
| TRes (toklist : list tok) (tokdict : list (string * tok)).

Definition ParseResults : Type := list tok * list (string * tok).

Definition no_tokens : ParseResults := ([], []).

(** [a += b] on [ParseResults]. *)
Definition add (a b : ParseResults) : ParseResults :=
  ((fst a ++ fst b)%list, (snd a ++ snd b)%list).

(** [results.name]: the value stored last under [name]; pyparsing
    answers [''] for a name that is absent, here [None]. *)
Fixpoint lookup (name : string) (d : list (string * tok)) : option tok :=
  match d with
  | [] => None
  | (k, v) :: d' =>
      match lookup name d' with
      | Some v' => Some v'
      | None => if String.eqb k name then Some v else None
      end
  end.

(** The input string and the location in it: [rest] is [instring[loc:]],
    [prev] is [instring[loc-1]] when [loc > 0]. *)
Record pstate : Type := mkState { prev : option ascii; rest : string }.

Definition start (instring : string) : pstate := mkState None instring.

Definition parser : Type := pstate -> option (ParseResults * pstate).

(** An expression, given its [skipWhitespace] flag. *)
Definition element : Type := bool -> parser.

Definition alphas : string :=
  "ABCDEFGHIJKLMNOPQRSTUVWXYZabcdefghijklmnopqrstuvwxyz".
Definition nums : string := "0123456789".
Definition alphanums : string := alphas ++ nums.
Definition hexnums : string := "0123456789abcdefABCDEF".
(** [" \n\t\r"] *)
Definition DEFAULT_WHITE_CHARS : string :=
  String " " (String "010" (String "009" (String "013" EmptyString))).
Definition DEFAULT_KEYWORD_CHARS : string := alphanums ++ "_$".

(** [preParse]: move past the whitespace at the location. *)
Fixpoint skip_white (p : option ascii) (s : string) : pstate :=
  match s with
  | String c s' =>
      if Py.in_chars c DEFAULT_WHITE_CHARS then skip_white (Some c) s'
      else mkState p s
  | EmptyString => mkState p s
  end.

Definition preParse (skip : bool) (st : pstate) : pstate :=
  if skip then skip_white (prev st) (rest st) else st.

(** The input starts with [m] at the location: the state after it. *)
Fixpoint consume (m : string) (p : option ascii) (s : string) : option pstate :=
  match m with
  | EmptyString => Some (mkState p s)
  | String a m' =>
      match s with
      | String b s' => if Ascii.eqb a b then consume m' (Some b) s' else None
      | EmptyString => None
      end
  end.

(** The longest run of characters of [chars] at the location. *)
Fixpoint span (chars : string) (p : option ascii) (s : string) : string * pstate :=
  match s with
  | String c s' =>
      if Py.in_chars c chars
      then let (w, st) := span chars (Some c) s' in (String c w, st)
      else (EmptyString, mkState p s)
  | EmptyString => (EmptyString, mkState p s)
  end.

(** An expression that yields one string token. *)
Definition token (impl : pstate -> option (string * pstate)) : element :=
  fun skip st =>
    match impl (preParse skip st) with
    | Some (s, st') => Some (([TStr s], []), st')
    | None => None
    end.

(** [Literal(m)] *)
Definition Literal (m : string) : element :=
  token (fun st =>
    match consume m (prev st) (rest st) with
    | Some st' => Some (m, st')
    | None => None
    end).

Definition is_ident (c : option ascii) : bool :=
  match c with
  | Some c => Py.in_chars c DEFAULT_KEYWORD_CHARS
  | None => false
  end.

Definition peek (s : string) : option ascii :=
  match s with String c _ => Some c | EmptyString => None end.

(** [Keyword(m)]: [m], neither preceded nor followed by a keyword
    character. *)
Definition Keyword (m : string) : element :=
  token (fun st =>
    match consume m (prev st) (rest st) with
    | Some st' =>
        if is_ident (peek (rest st')) || is_ident (prev st) then None
        else Some (m, st')
    | None => None
    end).

(** [Word(chars)]: one or more characters of [chars]. *)
Definition Word (chars : string) : element :=
  token (fun st =>
    match span chars (prev st) (rest st) with
    | (EmptyString, _) => None
    | (w, st') => Some (w, st')
    end).

(** [CharsNotIn(chars, exact=1)] *)
Definition CharsNotIn1 (chars : string) : element :=
  token (fun st =>
    match rest st with
    | String c s' =>
        if Py.in_chars c chars then None
        else Some (String c EmptyString, mkState (Some c) s')
    | EmptyString => None
    end).

(** [a + b] ([And]) *)
Definition And (a b : element) : element :=
  fun skip st =>
    match a skip st with
    | Some (ra, st1) =>
        match b skip st1 with
        | Some (rb, st2) => Some (add ra rb, st2)
        | None => None
        end
    | None => None
    end.

(** [a | b | ...] ([MatchFirst]): the first alternative that matches. *)
Fixpoint MatchFirst (es : list element) : element :=
  fun skip st =>
    match es with
    | [] => None
    | e :: es' =>
        match e skip st with
        | Some r => Some r
        | None => MatchFirst es' skip st
        end
    end.

(** [a ^ b ^ ...] ([Or]): the alternative that matches the most input,
    the earliest one among equals.  The parse actions of this grammar
    neither fail nor move the location, so the trial run without actions
    and the run with them agree. *)
Fixpoint longest (es : list element) (skip : bool) (st : pstate)
         (best : option (ParseResults * pstate)) : option (ParseResults * pstate) :=
  match es with
  | [] => best
  | e :: es' =>
      let best' :=
        match e skip st, best with
        | Some (r, st1), Some (_, st0) =>
            if Nat.ltb (String.length (rest st1)) (String.length (rest st0))
            then Some (r, st1) else best
        | Some x, None => Some x
        | None, _ => best
        end in
      longest es' skip st best'
  end.

Definition Or (es : list element) : element :=
  fun skip st => longest es skip st None.

(** [Optional(e)] *)
Definition Optional (e : element) : element :=
  fun skip st =>
    match e skip st with
    | Some r => Some r
    | None => Some (no_tokens, preParse skip st)
    end.

(** [Optional(e, default=d)]: the token [d] where [e] does not match. *)
Definition Optional_default (e : element) (d : string) : element :=
  fun skip st =>
    match e skip st with
    | Some r => Some r
    | None => Some (([TStr d], []), preParse skip st)
    end.

(** The repetitions of [OneOrMore] and [ZeroOrMore] after the first
    match.  Every repeated expression of this grammar consumes input
    ([Props.grammar_loops_consume]), so [fuel], the number of characters
    left plus one, is never used up ([Props.repeat_fuel]). *)
Fixpoint repeat (p : parser) (fuel : nat) (st : pstate) : ParseResults * pstate :=
  match fuel with
  | O => (no_tokens, st)
  | S f =>
      match p st with
      | Some (r, st1) => let (rs, st2) := repeat p f st1 in (add r rs, st2)
      | None => (no_tokens, st)
      end
  end.

Definition OneOrMore (e : element) : element :=
  fun skip st =>
    match e skip st with
    | Some (r, st1) =>
        let (rs, st2) := repeat (e skip) (S (String.length (rest st1))) st1 in
        Some (add r rs, st2)
    | None => None
    end.

Definition ZeroOrMore (e : element) : element :=
  fun skip st =>
    match OneOrMore e skip st with
    | Some r => Some r
    | None => Some (no_tokens, preParse skip st)
    end.

(** [~e] ([NotAny]) *)
Definition NotAny (e : element) : element :=
  fun skip st =>
    match e skip st with
    | Some _ => None
    | None => Some (no_tokens, st)
    end.

(** [SkipTo(e)]: the text up to the first location where [e] matches
    (tried without skipping whitespace); [e] itself is not consumed. *)
Fixpoint skip_until (e : parser) (p : option ascii) (s : string)
  : option (string * pstate) :=
  match e (mkState p s) with
  | Some _ => Some (EmptyString, mkState p s)
  | None =>
      match s with
      | String c s' =>
          match skip_until e (Some c) s' with
          | Some (t, st) => Some (String c t, st)
          | None => None
          end
      | EmptyString => None
      end
  end.

Definition SkipTo (e : element) : element :=
  token (fun st => skip_until (e false) (prev st) (rest st)).

(** [Suppress(e)] *)
Definition Suppress (e : element) : element :=
  fun skip st =>
    match e skip st with
    | Some (_, st') => Some (no_tokens, st')
    | None => None
    end.

(** [Group(e)] *)
Definition Group (e : element) : element :=
  fun skip st =>
    match e skip st with
    | Some ((ts, d), st') => Some (([TRes ts d], []), st')
    | None => None
    end.

(** [ParseResults._asStringList]: the strings of the tokens, nested
    results flattened. *)
Fixpoint tok_strings (t : tok) : list string :=
  match t with
  | TStr s => [s]
  | TRes l _ => flat_map tok_strings l
  end.

Definition asStringList (ts : list tok) : list string := flat_map tok_strings ts.

(** [Combine(e)]: the tokens of [e] joined into one string; below it
    nothing skips whitespace ([leaveWhitespace]), the [Combine] itself
    does. *)
Definition Combine (e : element) : element :=
  fun skip st =>
    match e false (preParse skip st) with
    | Some ((ts, d), st') => Some (([TStr (Py.join "" (asStringList ts))], d), st')
    | None => None
    end.

(** [e.setParseAction(fn)] for an action that returns new tokens: they
    replace the tokens of [e], named results included. *)
Definition setParseAction (fn : ParseResults -> list tok) (e : element) : element :=
  fun skip st =>
    match e skip st with
    | Some (r, st') => Some ((fn r, []), st')
    | None => None
    end.

(** [e(name)] for an expression whose [saveAsList] is off: the name is
    bound to the first token, and to nothing when there are no tokens. *)
Definition setResultsName (name : string) (e : element) : element :=
  fun skip st =>
    match e skip st with
    | Some ((ts, d), st') =>
        match ts with
        | t :: _ => Some ((ts, (d ++ [(name, t)])%list), st')
        | [] => Some ((ts, d), st')
        end
    | None => None
    end.

(** [e(name)] for an expression whose [saveAsList] is on (an [And]): the
    name is bound to a [ParseResults] of all the tokens. *)
Definition setResultsName_list (name : string) (e : element) : element :=
  fun skip st =>
    match e skip st with
    | Some ((ts, d), st') =>
        match ts with
        | _ :: _ => Some ((ts, (d ++ [(name, TRes ts [])])%list), st')
        | [] => Some ((ts, d), st')
        end
    | None => None
    end.

(** [str(tok)] for the string tokens a parse action joins. *)
Definition tok_str (t : tok) : string :=
  match t with TStr s => s | TRes _ _ => EmptyString end.

(** The parse action [sep.join]. *)
Definition join_action (sep : string) (r : ParseResults) : list tok :=
  [TStr (Py.join sep (map tok_str (fst r)))].

(** [ungroup(e)]: the parse action [lambda t: t[0]]. *)
Definition ungroup (e : element) : element :=
  setParseAction (fun r => match fst r with t :: _ => [t] | [] => [] end) e.

(** [delimitedList(e)] is [e + ZeroOrMore(Suppress(",") + e)]. *)
Definition delimitedList (e : element) : element :=
  And e (ZeroOrMore (And (Suppress (Literal ",")) e)).

(** [oneOf("a b ...")] for symbols none of which starts another. *)
Definition oneOf (symbols : list string) : element :=
  MatchFirst (map Literal symbols).

(** The regular expression of [quotedString] for the quote [q]:
    [q(?:[^q\n\r\\]|(?:qq)|(?:\\(?:[^x]|x[0-9a-fA-F]+)))*]; every round
    of the star consumes input, so [fuel] (the characters left) suffices. *)
Fixpoint quoted_star (q : ascii) (fuel : nat) (p : option ascii) (s : string)
  : string * pstate :=
  match fuel with
  | O => (EmptyString, mkState p s)
  | S f =>
      match s with
      | EmptyString => (EmptyString, mkState p s)
      | String c s1 =>
          if Ascii.eqb c q then
            match s1 with
            | String c2 s2 =>
                if Ascii.eqb c2 q
                then let (w, st) := quoted_star q f (Some c2) s2 in
                     (String c (String c2 w), st)
                else (EmptyString, mkState p s)
            | EmptyString => (EmptyString, mkState p s)
            end
          else if Ascii.eqb c "\" then
            match s1 with
            | String c2 s2 =>
                if Ascii.eqb c2 "x" then
                  match span hexnums (Some c2) s2 with
                  | (EmptyString, _) => (EmptyString, mkState p s)
                  | (h, st1) =>
                      let (w, st) := quoted_star q f (prev st1) (rest st1) in
                      (String c (String c2 (h ++ w)), st)
                  end
                else let (w, st) := quoted_star q f (Some c2) s2 in
                     (String c (String c2 w), st)
            | EmptyString => (EmptyString, mkState p s)
            end
          else if Ascii.eqb c "010" || Ascii.eqb c "013" then
            (EmptyString, mkState p s)
          else let (w, st) := quoted_star q f (Some c) s1 in (String c w, st)
      end
  end.

Definition Regex_quoted (q : ascii) : element :=
  token (fun st =>
    match rest st with
    | String c s' =>
        if Ascii.eqb c q
        then let (w, st') := quoted_star q (String.length s') (Some c) s' in
             Some (String c w, st')
        else None
    | EmptyString => None
    end).

(** The double quote, code 34. *)
Definition dquote : ascii := "034"%char.

(** [quotedString] *)
Definition quotedString : element :=
  Combine (MatchFirst
    [ And (Regex_quoted dquote) (Literal (String dquote EmptyString));
      And (Regex_quoted "'") (Literal "'") ]).

(** The default [content] of [nestedExpr(opener, closer)] with
    [ignoreExpr = quotedString]. *)
Definition nested_content (opener closer : string) : element :=
  setParseAction
    (fun r => match fst r with
              | t :: _ => [TStr (Py.strip (tok_str t))]
              | [] => []
              end)
    (Combine (OneOrMore (And (NotAny quotedString)
                             (CharsNotIn1 (opener ++ closer ++ DEFAULT_WHITE_CHARS))))).

(** [first + others] as the expression held by a [Forward]:
    [leaveWhitespace] stops at a [Forward], so that below a [Combine] the
    [Forward] no longer skips whitespace, which shows at [first], while
    [others] still do. *)
Definition And_forward (first others : element) : element :=
  fun skip st =>
    match first skip st with
    | Some (ra, st1) =>
        match others true st1 with
        | Some (rb, st2) => Some (add ra rb, st2)
        | None => None
        end
    | None => None
    end.

(** [nestedExpr(opener, closer).setParseAction(fn)]: the [Forward]
    [ret <<= Group(Suppress(opener) + ZeroOrMore(ignoreExpr | ret | content)
    + Suppress(closer))] with [ignoreExpr = quotedString].
    [setParseAction] changes [ret] itself and the inner [ret] is that same
    object, so [fn] runs at every level of nesting.  A level of nesting
    consumes its opener, so [fuel], the characters left plus one, is never
    used up ([Props.nested_fuel]). *)
Fixpoint nestedExpr_with (fn : ParseResults -> list tok) (opener closer : string)
         (fuel : nat) : element :=
  match fuel with
  | O => fun _ _ => None
  | S f =>
      setParseAction fn
        (Group (And_forward
                  (Suppress (Literal opener))
                  (And (ZeroOrMore (MatchFirst [ quotedString;
                                                 nestedExpr_with fn opener closer f;
                                                 nested_content opener closer ]))
                       (Suppress (Literal closer)))))
  end.

Definition nestedExpr_action (fn : ParseResults -> list tok) (opener closer : string)
  : element :=
  fun skip st => nestedExpr_with fn opener closer (S (String.length (rest st))) skip st.

(** [e.parseString(instring)]: the tabs of the input are expanded first
    ([keepTabs] is off). *)
Definition parseString (e : element) (instring : string) : option ParseResults :=
  match e true (start (Py.expandtabs instring)) with
  | Some (r, _) => Some r
  | None => None
  end.

End Pyparsing.

(** ** [parsing.py] *)

Module Doxylink.
Import Pyparsing.

Notation "a +++ b" := (And a b) (at level 55, left associativity).

Definition LPAR : element := Literal "(".
Definition RPAR : element := Literal ")".
Definition LBRACK : element := Literal "[".
Definition RBRACK : element := Literal "]".
Definition COMMA : element := Literal ",".
Definition EQ : element := Literal "=".

Definition qualifier : element :=
  ungroup (setParseAction (join_action " ")
    (OneOrMore (Or [Keyword "const"; Keyword "typename"; Keyword "struct"; Keyword "enum"]))).

(** A string or a (nested) list of them: what [ParseResults.asList]
    builds and [normalise_templates] walks. *)
Inductive pyval : Type :=
| PStr (s : string)
| PList (items : list pyval).

(** [asList] of a nested [ParseResults]; a string token stays a string. *)
Fixpoint asList (t : tok) : pyval :=
  match t with
  | TStr s => PStr s
  | TRes l _ => PList (map asList l)
  end.

(** The elements that [for tok in toks] visits: the items of a list, the
    characters of a string. *)
Definition iterate (toks : pyval) : list pyval :=
  match toks with
  | PList items => items
  | PStr s => map (fun c => PStr (String c EmptyString)) (list_ascii_of_string s)
  end.

(** A list is walked item by item; a string, which the grammar does not
    hand over, character by character. *)
Fixpoint normalise_templates (toks : pyval) : string :=
  let s_list := ["<"] in
  let s_list :=
    (s_list ++
     match toks with
     | PList items =>
         map (fun tok =>
                match tok with
                | PStr s => (" " ++ s)%string
                | PList _ => normalise_templates tok
                end) items
     | PStr _ =>
         map (fun tok => match tok with
                         | PStr s => (" " ++ s)%string
                         | PList _ => EmptyString
                         end) (iterate toks)
     end)%list in
  let s_list := (s_list ++ [" >"])%list in
  Py.join "" s_list.

(** [ParseResults(normalise_templates(toks[0].asList()))] *)
Definition turn_parseresults_to_list (toks : ParseResults) : list tok :=
  match fst toks with
  | t :: _ => [TStr (normalise_templates (asList t))]
  | [] => []
  end.

Definition angle_bracket_pair : element :=
  nestedExpr_action turn_parseresults_to_list "<" ">".
Definition parentheses_pair : element := LPAR +++ SkipTo RPAR +++ RPAR.
Definition square_bracket_pair : element := LBRACK +++ SkipTo RBRACK +++ RBRACK.

Definition nonfundamental_input_type : element :=
  Combine (Word (alphanums ++ ":_")
           +++ Optional (angle_bracket_pair +++ Optional (Word (alphanums ++ ":_")))).
Definition fundamental_input_type : element :=
  OneOrMore (Or [Keyword "bool"; Keyword "short"; Keyword "int"; Keyword "long";
                 Keyword "signed"; Keyword "unsigned"; Keyword "char";
                 Keyword "float"; Keyword "double"]).
Definition input_type : element :=
  Or [fundamental_input_type; nonfundamental_input_type].

Definition number : element := Word ("-." ++ nums).

Definition input_name : element :=
  OneOrMore (MatchFirst [Word (alphanums ++ "_"); angle_bracket_pair;
                         parentheses_pair; square_bracket_pair]).

Definition pointer_or_reference : element :=
  Combine (oneOf ["*"; "&"] +++ Optional (Literal "...")).

Definition default_value : element :=
  Literal "="
  +++ OneOrMore (MatchFirst [number; quotedString; input_type; parentheses_pair;
                             angle_bracket_pair; square_bracket_pair; Word "|&^"]).

(** [input_type('input_type').setParseAction(' '.join)]: the action runs
    on the tokens, then the name is bound to its result. *)
Definition argument_type : element :=
  setResultsName "qualifier" (Optional_default qualifier "")
  +++ setResultsName "input_type" (setParseAction (join_action " ") input_type)
  +++ setResultsName "pointer_or_reference1" (Optional_default pointer_or_reference "")
  +++ setResultsName "const_pointer_or_reference" (Optional (Literal "const"))
  +++ setResultsName "pointer_or_reference2" (Optional_default pointer_or_reference "").

Definition argument : element :=
  Group (setResultsName_list "argument_type" argument_type
         +++ Optional input_name +++ Optional default_value).

Definition arglist : element :=
  LPAR +++ setResultsName_list "arg_list" (delimitedList argument)
  +++ setResultsName_list "var_args" (Optional (COMMA +++ Literal "..."))
  +++ RPAR.

(** What a call of [normalise] does: it returns a pair of strings,
    returns [None], or raises. *)
Inductive exn : Type := ValueError | ParseException.

Inductive outcome : Type :=
| Return (name_and_args : string * string)
| ReturnNone
| Raise (e : exn).

(** [arg.name] for a named result that holds a string; [''] when the
    name is absent. *)
Definition attr (arg : tok) (name : string) : string :=
  match arg with
  | TRes _ d => match lookup name d with
                | Some (TStr s) => s
                | _ => EmptyString
                end
  | TStr _ => EmptyString
  end.

(** Truth of a string: it is not empty. *)
Definition truthy (s : string) : bool :=
  match s with EmptyString => false | _ => true end.

(** [result.arg_list], iterated: its tokens. *)
Definition arg_list_of (result : ParseResults) : list tok :=
  match lookup "arg_list" (snd result) with
  | Some (TRes args _) => args
  | _ => []
  end.

(** Truth of [result.var_args]: a [ParseResults] with tokens. *)
Definition var_args_of (result : ParseResults) : bool :=
  match lookup "var_args" (snd result) with
  | Some (TRes (_ :: _) _) => true
  | Some (TStr s) => truthy s
  | _ => false
  end.

(** The body of the loop over the matched arguments (lines 119-136):
    the normalised form of one argument. *)
Definition normalise_argument (arg : tok) : string :=
  let argument_string_list := [""] in
  let argument_string_list :=
    if truthy (attr arg "qualifier")
    then (argument_string_list ++ [Py.join "" [attr arg "qualifier"; " "]])%list
    else argument_string_list in
  let argument_string_list := (argument_string_list ++ [attr arg "input_type"])%list in
  let const_pointer_ref_list := [] in
  let const_pointer_ref_list :=
    (const_pointer_ref_list ++ [attr arg "pointer_or_reference1"])%list in
  let const_pointer_ref_list :=
    if truthy (attr arg "const_pointer_or_reference")
    then (const_pointer_ref_list
          ++ [Py.join "" [" "; attr arg "const_pointer_or_reference"; " "]])%list
    else const_pointer_ref_list in
  let const_pointer_ref_list :=
    (const_pointer_ref_list ++ [attr arg "pointer_or_reference2"])%list in
  let argument_string_list := (argument_string_list ++ const_pointer_ref_list)%list in
  Py.join "" argument_string_list.

(** The [else] branch of the last [try] (lines 113-149). *)
Definition build_result (function_name arglist_suffix : string)
           (result : ParseResults) : string * string :=
  let normalised_arg_list := map normalise_argument (arg_list_of result) in
  let normalised_arg_list :=
    if var_args_of result then (normalised_arg_list ++ ["..."])%list
    else normalised_arg_list in
  let normalised_arg_list_string :=
    Py.join "" ["("; Py.join ", " normalised_arg_list; ")"] in
  let normalised_arg_list_string :=
    if Py.contains "const" arglist_suffix
    then normalised_arg_list_string ++ " const"
    else normalised_arg_list_string in
  (function_name, normalised_arg_list_string).

(** The special case of lines 91-96: the value it returns, if it does. *)
Definition empty_arglist_case (function_name arglist_input_string : string)
  : option (string * string) :=
  if Py.startswith "()" arglist_input_string then
    let arglist_input_string_no_spaces :=
      Py.replace " " "" (Py.replace " final" "" (Py.replace " override" "" arglist_input_string)) in
    if existsb (String.eqb arglist_input_string_no_spaces) ["()"; "()=0"; "()=default"]
    then Some (function_name, "()")
    else if existsb (String.eqb arglist_input_string_no_spaces) ["()const"; "()const=0"]
    then Some (function_name, "() const")
    else None
  else None.

Section Normalise.

(** [arglist.parseString]; [normalise] is [normalise_with] at the
    grammar of this file. *)
Variable parse : string -> option ParseResults.

(** Lines 98-149, after the special case: a [try] statement either
    leaves the function with an outcome or falls through ([None]).  The
    message that line 105 prints before it raises again is left out. *)
Definition parse_arglist (function_name arglist_input_string : string)
  : option outcome :=
  match Py.rfind ")" arglist_input_string with
  | None => Some (Raise ValueError)
  | Some closing_bracket_location =>
      let arglist_suffix :=
        Py.slice_from (closing_bracket_location + 1) arglist_input_string in
      let arglist_input_string :=
        Py.slice_to (closing_bracket_location + 1) arglist_input_string in
      match parse arglist_input_string with
      | None => Some (Raise ParseException)
      | Some result => Some (Return (build_result function_name arglist_suffix result))
      end
  end.

Definition normalise_with (symbol : string) : outcome :=
  match Py.find "(" symbol with
  | None => Return (symbol, "")
  | Some bracket_location =>
      let function_name := Py.slice_to bracket_location symbol in
      let arglist_input_string := Py.slice_from bracket_location symbol in
      match empty_arglist_case function_name arglist_input_string with
      | Some r => Return r
      | None =>
          match parse_arglist function_name arglist_input_string with
          | Some o => o
          | None => ReturnNone
          end
      end
  end.

(** [normalise] with lines 90-96 taken out. *)
Definition normalise_without_special_case (symbol : string) : outcome :=
  match Py.find "(" symbol with
  | None => Return (symbol, "")
  | Some bracket_location =>
      let function_name := Py.slice_to bracket_location symbol in
      let arglist_input_string := Py.slice_from bracket_location symbol in
      match parse_arglist function_name arglist_input_string with
      | Some o => o
      | None => ReturnNone
      end
  end.

End Normalise.

Definition normalise (symbol : string) : outcome :=
  normalise_with (parseString arglist) symbol.

End Doxylink.


(** ** Properties *)

Module Props.
Import Pyparsing Doxylink.

(** The argument of §3, in the spec's words: the qualifier and a space
    when there is one, the type, the first marker, the embedded [const]
    padded with spaces when there is one, the second marker. *)
Definition canonical_argument (qualifier type marker1 const marker2 : string) : string :=
  (if truthy qualifier then qualifier ++ " " else "")
  ++ type ++ marker1
  ++ (if truthy const then " " ++ const ++ " " else "")
  ++ marker2.

(** The normalised argument list of step 6: the rendered arguments and,
    for a variadic list, a last element [...], joined with [", "] in
    parentheses, then [" const"] when the suffix contains [const]. *)
Definition canonical_args (rendered : list string) (variadic : bool) (suffix : string)
  : string :=
  "(" ++ Py.join ", " (rendered ++ (if variadic then ["..."] else []))%list ++ ")"
  ++ (if Py.contains "const" suffix then " const" else "").

(** The region of the special case with [" override"], [" final"] and
    the spaces taken out. *)
Definition stripped (region : string) : string :=
  Py.replace " " "" (Py.replace " final" "" (Py.replace " override" "" region)).

(** Number of occurrences of the character [c]. *)
Fixpoint count (c : ascii) (s : string) : nat :=
  match s with
  | EmptyString => 0
  | String d s' => (if Ascii.eqb c d then 1 else 0) + count c s'
  end.

(** The text has more opening than closing parentheses. *)
Definition missing_closing_parenthesis (text : string) : Prop :=
  count ")" text < count "(" text.

Definition raises (o : outcome) : Prop := exists e, o = Raise e.

(** The argument of ["f(int * const)"] as the grammar returns it. *)
Definition int_pointer_const : tok :=
  Eval vm_compute in
    match parseString arglist "(int * const)" with
    | Some r => hd (TStr "") (arg_list_of r)
    | None => TStr ""
    end.

(** *** Template regions *)

(** One element of a template region: [ignoreExpr | ret | content]. *)
Definition template_item (fuel : nat) : element :=
  MatchFirst [ quotedString;
               nestedExpr_with turn_parseresults_to_list "<" ">" fuel;
               nested_content "<" ">" ].

(** One character of the [content] of a template region. *)
Definition content_char : element :=
  And (NotAny quotedString) (CharsNotIn1 ("<" ++ ">" ++ DEFAULT_WHITE_CHARS)).

(** Not an opener, a closer or whitespace that pyparsing skips. *)
Definition content_ok (c : ascii) : bool :=
  negb (Py.in_chars c ("<" ++ ">" ++ DEFAULT_WHITE_CHARS)).

Definition not_space (c : ascii) : bool := negb (Py.isspace c).

Definition no_tab (c : ascii) : bool := negb (Ascii.eqb c "009").

Fixpoint all_chars (ok : ascii -> bool) (s : string) : bool :=
  match s with
  | EmptyString => true
  | String c s' => ok c && all_chars ok s'
  end.

Fixpoint last_char (s : string) : option ascii :=
  match s with
  | EmptyString => None
  | String c EmptyString => Some c
  | String _ s' => last_char s'
  end.

Definition is_quote (c : ascii) : bool := Ascii.eqb c dquote || Ascii.eqb c "'".

(** Whitespace for [str.strip] that pyparsing does not skip: vertical
    tab, form feed, the separators 28 to 31, 133 and 160. *)
Definition odd_space (c : ascii) : bool :=
  Py.isspace c && negb (Py.in_chars c DEFAULT_WHITE_CHARS).

Definition no_odd_space (c : ascii) : bool := negb (odd_space c).

(** Neither a quote nor odd whitespace. *)
Definition plain (c : ascii) : bool := negb (is_quote c) && negb (odd_space c).

(** A character of a word of a template region. *)
Definition word_char (c : ascii) : bool :=
  negb (Py.in_chars c ("<" ++ ">" ++ DEFAULT_WHITE_CHARS))
  && negb (is_quote c) && negb (Py.isspace c).

(** A non-empty string that neither starts nor ends with a space. *)
Definition tight (w : string) : Prop :=
  (exists c, peek w = Some c /\ c <> " "%char)
  /\ (exists c, last_char w = Some c /\ c <> " "%char).

(** A non-empty string of word characters. *)
Definition word (w : string) : Prop :=
  w <> "" /\ all_chars word_char w = true.

(** The text between the ["<"] and the [" >"] of a rendered region:
    every element comes after one space, and an element is a token
    ([elem]) or a rendered region itself. *)
Inductive padded (elem : string -> Prop) : string -> Prop :=
| padded_nil : padded elem ""
| padded_token (w b : string) :
    elem w -> padded elem b -> padded elem (" " ++ w ++ b)
| padded_nested (inner b : string) :
    padded elem inner -> padded elem b ->
    padded elem (" " ++ ("<" ++ inner ++ " >") ++ b).

(** The elements, each after one space. *)
Fixpoint pad (ws : list string) : string :=
  match ws with
  | [] => ""
  | w :: ws' => " " ++ w ++ pad ws'
  end.

(** With fuel [f], [angle_bracket_pair] yields a rendering whose tokens
    satisfy [elem], on an input whose characters satisfy [ok]. *)
Definition nested_shape (ok : ascii -> bool) (elem : string -> Prop) (f : nat) : Prop :=
  forall skip st r st',
    nestedExpr_with turn_parseresults_to_list "<" ">" f skip st = Some (r, st') ->
    all_chars ok (rest st) = true ->
    (exists b, padded elem b /\ r = ([TStr ("<" ++ b ++ " >")], []))
    /\ all_chars ok (rest st') = true.

(** The loop over the elements of the body [b] of a rendering, from the
    second element on ([loop_at]) and from the first ([body_at]), and one
    round of it at the element [e] ([step_at]). *)
Definition loop_at (b : string) : Prop :=
  forall f n p tail,
    String.length b <= f -> String.length b < n ->
    exists ws p',
      repeat (template_item f true) n (mkState p (b ++ " >" ++ tail))
      = ((map TStr ws, []), mkState p' (" >" ++ tail))
      /\ pad ws = b.

Definition body_at (b : string) : Prop :=
  forall f p tail,
    String.length b <= f ->
    exists ws st2,
      ZeroOrMore (template_item f) true (mkState p (b ++ " >" ++ tail))
      = Some ((map TStr ws, []), st2)
      /\ pad ws = b
      /\ Literal ">" true st2 = Some (([TStr ">"], []), mkState (Some ">"%char) tail).

Definition step_at (e : string) : Prop :=
  forall f p t,
    String.length e < f ->
    exists p',
      template_item f true (mkState p (String " " (e ++ String " " t)))
      = Some (([TStr e], []), mkState p' (String " " t)).

(** *** Quoted strings *)

(** The regular expression of [quotedString] read one character at a
    time: after the opening quote [q] the text is read in the mode
    [Normal]; a backslash leads to [Escape], and [x] there to [Hex], where
    a hexadecimal digit has to follow; a [q] leads to [Pending], where a
    second [q] makes the doubled quote and anything else shows that the
    [q] closes the string ([Closed]).  A line break, or a character other
    than a digit in [Hex], ends the match without a closing quote
    ([Blocked]). *)
Inductive mode : Type := Normal | Escape | Hex | Pending.

Inductive verdict : Type := Go (m : mode) | Closed | Blocked.

Definition is_break (c : ascii) : bool := Ascii.eqb c "010" || Ascii.eqb c "013".

Definition step (q : ascii) (m : mode) (c : ascii) : verdict :=
  match m with
  | Normal =>
      if Ascii.eqb c q then Go Pending
      else if Ascii.eqb c "\" then Go Escape
      else if is_break c then Blocked
      else Go Normal
  | Pending => if Ascii.eqb c q then Go Normal else Closed
  | Escape => if Ascii.eqb c "x" then Go Hex else Go Normal
  | Hex => if Py.in_chars c hexnums then Go Normal else Blocked
  end.

Fixpoint feed (q : ascii) (m : mode) (s : string) : verdict :=
  match s with
  | EmptyString => Go m
  | String c s' =>
      match step q m c with
      | Go m' => feed q m' s'
      | v => v
      end
  end.

(** Read in the mode [m], the text [s] holds the quote that closes the
    string. *)
Definition closes (q : ascii) (m : mode) (s : string) : bool :=
  match feed q m s with
  | Closed | Go Pending => true
  | _ => false
  end.

(** Where the repetition of the regular expression stops: at a quote that
    is not doubled, or at a place from which no closing quote is found. *)
Definition stopped (q : ascii) (t : string) : Prop :=
  (exists t', t = String q t' /\ peek t' <> Some q)
  \/ (peek t <> Some q /\ closes q Normal t = false).

(** A token that [content] yields in a region without odd whitespace: a
    non-empty text without brackets and without whitespace. *)
Definition token_char (c : ascii) : bool := content_ok c && not_space c.

Definition content_token (w : string) : Prop :=
  w <> "" /\ all_chars token_char w = true.

(** A token that [quotedString] yields: a quote, text that is read from
    [Normal] to [Normal], that is, characters other than the quote, the
    backslash and the line breaks, doubled quotes and backslash escapes,
    and the same quote again. *)
Definition quoted_token (e : string) : Prop :=
  exists q w, is_quote q = true /\ e = String q (w ++ String q "")
              /\ feed q Normal w = Go Normal.

(** An element of a region that is not a region itself. *)
Definition region_element (e : string) : Prop := content_token e \/ quoted_token e.

(** Every two neighbouring characters of the text satisfy [ok]. *)
Fixpoint adjacent (ok : ascii -> ascii -> bool) (s : string) : bool :=
  match s with
  | String c1 s' =>
      match s' with
      | String c2 _ => ok c1 c2 && adjacent ok s'
      | EmptyString => true
      end
  | EmptyString => true
  end.

Definition is_bracket (c : ascii) : bool := Ascii.eqb c "<" || Ascii.eqb c ">".

(** No two spaces in a row, a space after and before every bracket. *)
Definition evenly_spaced (c1 c2 : ascii) : bool :=
  negb (Ascii.eqb c1 " " && Ascii.eqb c2 " ")
  && (if is_bracket c1 then Ascii.eqb c2 " " else true)
  && (if is_bracket c2 then Ascii.eqb c1 " " else true).

Definition no_quote (c : ascii) : bool := negb (is_quote c).

(** *** Progress *)

(** A match of the parser leaves less input ([consuming]), or no more
    input ([steady]), than there was. *)
Definition consuming (p : parser) : Prop :=
  forall st r st', p st = Some (r, st') ->
                   String.length (rest st') < String.length (rest st).

Definition steady (p : parser) : Prop :=
  forall st r st', p st = Some (r, st') ->
                   String.length (rest st') <= String.length (rest st).

Definition consuming_e (e : element) : Prop := forall skip, consuming (e skip).
Definition steady_e (e : element) : Prop := forall skip, steady (e skip).

(** *** Further properties *)

(** The outcome with the name replaced. *)
Definition with_name (name : string) (o : outcome) : outcome :=
  match o with
  | Return (_, args) => Return (name, args)
  | ReturnNone => ReturnNone
  | Raise e => Raise e
  end.

(** [n] spaces. *)
Fixpoint spaces (n : nat) : string :=
  match n with
  | O => ""
  | S k => String " " (spaces k)
  end.

Definition no_blank (c : ascii) : bool := negb (Ascii.eqb c " ").

(** A character of the name of an argument: [alphanums + '_']. *)
Definition name_char (c : ascii) : bool := Py.in_chars c (alphanums ++ "_").

(** The keywords of [fundamental_input_type]. *)
Definition fundamental_keywords : list string :=
  ["bool"; "short"; "int"; "long"; "signed"; "unsigned"; "char"; "float"; "double"].

(** The expression looks at its input from the first character that is
    not whitespace: states that agree from there on give the same parse. *)
Definition skips_first (e : element) : Prop :=
  forall st st', preParse true st = preParse true st' -> e true st = e true st'.

(** The argument [int name] as the grammar returns it, and the states of
    the parse of [(int name)]: after the parenthesis, after [int], and at
    the name, whose first character is [c]. *)
Definition int_argument (name : string) : tok :=
  TRes [TStr ""; TStr "int"; TStr ""; TStr ""; TStr name]
       [("qualifier", TStr ""); ("input_type", TStr "int");
        ("pointer_or_reference1", TStr ""); ("pointer_or_reference2", TStr "");
        ("argument_type", TRes [TStr ""; TStr "int"; TStr ""; TStr ""] [])].

Definition at_int (c : ascii) (n : string) : pstate :=
  mkState (Some "("%char) ("int " ++ String c n ++ ")").
Definition after_int (c : ascii) (n : string) : pstate :=
  mkState (Some "t"%char) (String " " (String c n ++ ")")).
Definition at_name (c : ascii) (n : string) : pstate :=
  mkState (Some " "%char) (String c n ++ ")").

(** *** Rendering a region twice *)

(** The only whitespace is the space. *)
Definition calm (c : ascii) : bool := negb (Py.isspace c) || Ascii.eqb c " ".

Definition no_line_break (c : ascii) : bool := negb (is_break c).

(** The modes in which the reading of a quoted string can be after the
    character [d]. *)
Definition compatible (q d : ascii) (m : mode) : Prop :=
  match m with
  | Normal => True
  | Escape => d = "\"%char
  | Hex => d = "x"%char
  | Pending => d = q
  end.

(** [original] and [rendered] stand after the character [d]: a quoted
    string that is not closed in [original] is not closed in [rendered]
    either. *)
Definition carries (d : ascii) (original rendered : string) : Prop :=
  forall q m, is_quote q = true -> compatible q d m ->
              closes q m original = false -> closes q m rendered = false.

(** No quote of the token [e], which stands before [following], opens a
    quoted string. *)
Fixpoint unclosed (e following : string) : Prop :=
  match e with
  | EmptyString => True
  | String c v =>
      (is_quote c = true -> closes c Normal (v ++ following) = false)
      /\ unclosed v following
  end.

(** [laid d original body after]: after the character [d], the text
    [original] holds the elements of a region, each after any number of
    spaces, and the closing bracket of the region, with [after] behind it;
    [body] is these elements as they are rendered, each after one space.
    No quote of a token of [content] opens a quoted string in [original];
    a token that follows [d] without a space does not begin with [d], and
    [d] is no backslash then; a quoted string is followed by something
    other than its quote. *)
Inductive laid : ascii -> string -> string -> string -> Prop :=
| laid_close (d : ascii) (k : nat) (after : string) :
    laid d (spaces k ++ ">" ++ after) "" after
| laid_content (d : ascii) (k : nat) (e : string) (d' : ascii)
               (following body after : string) :
    content_token e -> unclosed e following -> last_char e = Some d' ->
    (k = 0 -> d <> "\"%char /\ peek e <> Some d) ->
    laid d' following body after ->
    laid d (spaces k ++ e ++ following) (" " ++ e ++ body) after
| laid_quoted (d : ascii) (k : nat) (q : ascii) (w following body after : string) :
    is_quote q = true -> feed q Normal w = Go Normal -> peek following <> Some q ->
    laid q following body after ->
    laid d (spaces k ++ String q (w ++ String q "") ++ following)
         (" " ++ String q (w ++ String q "") ++ body) after
| laid_nested (d : ascii) (k : nat) (inside inner following body after : string) :
    laid "<" inside inner following -> laid ">" following body after ->
    laid d (spaces k ++ "<" ++ inside) (" " ++ ("<" ++ inner ++ " >") ++ body) after.

(** What may stand directly before an element [e] that follows the
    character [d] without a space. *)
Definition joint (d : ascii) (e following : string) : Prop :=
  (exists c, e = String c "" /\ is_bracket c = true)
  \/ (exists q w, is_quote q = true /\ e = String q (w ++ String q "")
                  /\ feed q Normal w = Go Normal /\ peek following <> Some q)
  \/ (d <> "\"%char /\ peek e <> Some d).

(** What is known of the text [following] an element that ends in [d]:
    the element is a bracket, or a quoted string, whose quote does not
    stand again at once, or a token of [content], which does not go on. *)
Definition gap (d : ascii) (following : string) : Prop :=
  is_bracket d = true
  \/ (is_quote d = true /\ peek following <> Some d)
  \/ (exists p, content_char false (mkState p following) = None).

(** With fuel [f], [angle_bracket_pair] reads a region of a calm text as
    [laid] describes it. *)
Definition reads_region (f : nat) : Prop :=
  forall skip st r st',
    nestedExpr_with turn_parseresults_to_list "<" ">" f skip st = Some (r, st') ->
    all_chars calm (rest st) = true ->
    exists k inside body,
      rest st = spaces k ++ "<" ++ inside
      /\ laid "<" inside body (rest st')
      /\ r = ([TStr ("<" ++ body ++ " >")], []).

(** The loop over the elements of a rendered body that stands before
    [" >"] and [tail], and the whole of the inside of a region. *)
Definition loop_before (body tail : string) : Prop :=
  forall f n p,
    String.length body <= f -> String.length body < n ->
    exists ws p',
      repeat (template_item f true) n (mkState p (body ++ " >" ++ tail))
      = ((map TStr ws, []), mkState p' (" >" ++ tail))
      /\ pad ws = body.

Definition body_before (body tail : string) : Prop :=
  forall f p,
    String.length body <= f ->
    exists ws st2,
      ZeroOrMore (template_item f) true (mkState p (body ++ " >" ++ tail))
      = Some ((map TStr ws, []), st2)
      /\ pad ws = body
      /\ Literal ">" true st2 = Some (([TStr ">"], []), mkState (Some ">"%char) tail).

(** *** Strings *)

Lemma append_nil_r (s : string) : s ++ "" = s.
Proof. induction s; simpl; congruence. Qed.

Lemma append_assoc (a b c : string) : (a ++ b) ++ c = a ++ (b ++ c).
Proof. induction a; simpl; congruence. Qed.

Lemma length_append (a b : string) :
  String.length (a ++ b) = String.length a + String.length b.
Proof. induction a; simpl; congruence. Qed.

Lemma slice_to_app (a b : string) : Py.slice_to (String.length a) (a ++ b) = a.
Proof. induction a; simpl; [destruct b; reflexivity | congruence]. Qed.

Lemma slice_from_app (a b : string) : Py.slice_from (String.length a) (a ++ b) = b.
Proof. induction a; simpl; auto. Qed.

Lemma find_char_cons (c d : ascii) (s : string) :
  Py.find (String c "") (String d s) =
  if Ascii.eqb c d then Some 0 else option_map S (Py.find (String c "") s).
Proof. simpl. destruct (Ascii.eqb c d); reflexivity. Qed.

Lemma find_char_nil (c : ascii) : Py.find (String c "") "" = None.
Proof. reflexivity. Qed.

(** The first occurrence of a character that the prefix does not have. *)
Lemma find_char_app (c : ascii) (a b : string) :
  Py.find (String c "") a = None ->
  Py.find (String c "") (a ++ String c b) = Some (String.length a).
Proof.
  induction a as [|d a IH]; intros H.
  - simpl. rewrite Ascii.eqb_refl. reflexivity.
  - rewrite find_char_cons in H. simpl append. rewrite find_char_cons.
    destruct (Ascii.eqb c d); [discriminate|].
    destruct (Py.find (String c "") a); [discriminate|].
    rewrite IH by reflexivity. reflexivity.
Qed.

Lemma rfind_char_cons (c d : ascii) (s : string) :
  Py.rfind (String c "") (String d s) =
  match Py.rfind (String c "") s with
  | Some i => Some (S i)
  | None => if Ascii.eqb c d then Some 0 else None
  end.
Proof. simpl. destruct (Py.rfind (String c "") s), (Ascii.eqb c d); reflexivity. Qed.

Lemma rfind_char_none (c : ascii) (s : string) :
  Py.find (String c "") s = None -> Py.rfind (String c "") s = None.
Proof.
  induction s as [|d s IH]; intros H; [reflexivity|].
  rewrite find_char_cons in H. rewrite rfind_char_cons.
  destruct (Ascii.eqb c d); [discriminate|].
  destruct (Py.find (String c "") s); [discriminate|].
  rewrite IH; reflexivity.
Qed.

(** The last occurrence of a character that the suffix does not have. *)
Lemma rfind_char_app (c : ascii) (a b : string) :
  Py.find (String c "") b = None ->
  Py.rfind (String c "") (a ++ String c b) = Some (String.length a).
Proof.
  intros H. induction a as [|d a IH].
  - simpl append. rewrite rfind_char_cons, (rfind_char_none _ _ H), Ascii.eqb_refl.
    reflexivity.
  - simpl append. rewrite rfind_char_cons, IH. reflexivity.
Qed.

(** Every string with the character splits at its first occurrence. *)
Lemma find_char_split (c : ascii) (s : string) (i : nat) :
  Py.find (String c "") s = Some i ->
  exists a b, s = a ++ String c b /\ Py.find (String c "") a = None
              /\ String.length a = i.
Proof.
  revert i. induction s as [|d s IH]; intros i H; [discriminate|].
  rewrite find_char_cons in H. destruct (Ascii.eqb c d) eqn:E.
  - apply Ascii.eqb_eq in E. subst d. injection H as <-.
    exists "", s. auto.
  - destruct (Py.find (String c "") s) as [j|] eqn:F; [|discriminate].
    injection H as <-. destruct (IH j eq_refl) as (a & b & -> & Ha & Hl).
    exists (String d a), b. repeat split.
    + rewrite find_char_cons, E, Ha. reflexivity.
    + simpl. congruence.
Qed.

Lemma rfind_char_split (c : ascii) (s : string) (i : nat) :
  Py.rfind (String c "") s = Some i ->
  exists a b, s = a ++ String c b /\ Py.find (String c "") b = None
              /\ String.length a = i.
Proof.
  revert i. induction s as [|d s IH]; intros i H; [discriminate|].
  rewrite rfind_char_cons in H.
  destruct (Py.rfind (String c "") s) as [j|] eqn:F.
  - injection H as <-. destruct (IH j eq_refl) as (a & b & -> & Hb & Hl).
    exists (String d a), b. repeat split; auto. simpl. congruence.
  - destruct (Ascii.eqb c d) eqn:E; [|discriminate].
    apply Ascii.eqb_eq in E. subst d. injection H as <-.
    exists "", s. repeat split.
    clear IH. induction s as [|e s IHs]; [reflexivity|].
    rewrite rfind_char_cons in F. rewrite find_char_cons.
    destruct (Py.rfind (String c "") s); [discriminate|].
    destruct (Ascii.eqb c e); [discriminate|]. rewrite IHs; reflexivity.
Qed.

Lemma existsb_eqb_In (s : string) (l : list string) :
  existsb (String.eqb s) l = true <-> In s l.
Proof.
  rewrite existsb_exists. split.
  - intros (x & Hx & E). apply String.eqb_eq in E. subst. exact Hx.
  - intros H. exists s. split; [exact H | apply String.eqb_refl].
Qed.

(** *** The steps of [normalise] *)

Lemma join_empty_3 (a b c : string) : Py.join "" [a; b; c] = a ++ b ++ c.
Proof. reflexivity. Qed.

Lemma normalise_argument_canonical (arg : tok) :
  normalise_argument arg =
  canonical_argument (attr arg "qualifier") (attr arg "input_type")
                     (attr arg "pointer_or_reference1")
                     (attr arg "const_pointer_or_reference")
                     (attr arg "pointer_or_reference2").
Proof.
  unfold normalise_argument, canonical_argument.
  destruct (truthy (attr arg "qualifier")),
           (truthy (attr arg "const_pointer_or_reference"));
    cbn [app Py.join append]; rewrite ?append_nil_r, ?append_assoc;
    cbn [append]; rewrite ?append_assoc; reflexivity.
Qed.

Lemma build_result_canonical (name suffix : string) (result : ParseResults) :
  build_result name suffix result =
  (name, canonical_args (map normalise_argument (arg_list_of result))
                        (var_args_of result) suffix).
Proof.
  unfold build_result, canonical_args.
  destruct (var_args_of result), (Py.contains "const" suffix);
    rewrite join_empty_3, ?app_nil_r, ?append_nil_r, ?append_assoc; reflexivity.
Qed.

Section Steps.
Variable parse : string -> option ParseResults.

(** Steps 1 and 2: the split at the first ["("]. *)
Lemma normalise_with_split (name rest : string) :
  Py.find "(" name = None ->
  normalise_with parse (name ++ String "(" rest) =
  match empty_arglist_case name (String "(" rest) with
  | Some r => Return r
  | None =>
      match parse_arglist parse name (String "(" rest) with
      | Some o => o
      | None => ReturnNone
      end
  end.
Proof.
  intros H. unfold normalise_with.
  rewrite (find_char_app "(" name rest H), slice_to_app, slice_from_app.
  reflexivity.
Qed.

Lemma normalise_without_special_case_split (name rest : string) :
  Py.find "(" name = None ->
  normalise_without_special_case parse (name ++ String "(" rest) =
  match parse_arglist parse name (String "(" rest) with
  | Some o => o
  | None => ReturnNone
  end.
Proof.
  intros H. unfold normalise_without_special_case.
  rewrite (find_char_app "(" name rest H), slice_to_app, slice_from_app.
  reflexivity.
Qed.

(** Step 4: the split at the last [")"]. *)
Lemma parse_arglist_split (name head suffix : string) :
  Py.find ")" suffix = None ->
  parse_arglist parse name (head ++ String ")" suffix) =
  match parse (head ++ ")") with
  | None => Some (Raise ParseException)
  | Some result => Some (Return (build_result name suffix result))
  end.
Proof.
  intros H. unfold parse_arglist.
  rewrite (rfind_char_app ")" head suffix H).
  replace (String.length head + 1) with (String.length (head ++ ")"))
    by (rewrite length_append; reflexivity).
  replace (head ++ String ")" suffix) with ((head ++ ")") ++ suffix)
    by (rewrite append_assoc; reflexivity).
  rewrite slice_to_app, slice_from_app. reflexivity.
Qed.

Lemma parse_arglist_no_closing (name region : string) :
  Py.find ")" region = None ->
  parse_arglist parse name region = Some (Raise ValueError).
Proof.
  intros H. unfold parse_arglist. rewrite (rfind_char_none _ _ H). reflexivity.
Qed.

Lemma parse_arglist_some (name region : string) :
  exists o, parse_arglist parse name region = Some o /\ o <> ReturnNone.
Proof.
  unfold parse_arglist. destruct (Py.rfind ")" region).
  - destruct (parse _); eexists; split; try reflexivity; discriminate.
  - eexists; split; try reflexivity; discriminate.
Qed.

End Steps.

(** The grammar wants an argument after the opening parenthesis. *)
Lemma arglist_rejects_empty (x : string) :
  parseString arglist (String "(" (String ")" x)) = None.
Proof. vm_compute. reflexivity. Qed.

(** An input whose region starts with ["()"] and that the special case
    does not take is handed to the grammar, which rejects it. *)
Lemma parse_arglist_empty (name tail : string) :
  parse_arglist (parseString arglist) name (String "(" (String ")" tail))
  = Some (Raise ParseException).
Proof.
  unfold parse_arglist. rewrite !rfind_char_cons.
  destruct (Py.rfind ")" tail) as [i|]; cbn - [parseString arglist];
    rewrite ?Nat.add_1_r; cbn [Py.slice_to];
    rewrite arglist_rejects_empty; reflexivity.
Qed.

(** *** The bare name and the empty argument list *)

(** C3. An input without ["("] comes back unchanged as the name, with
    the empty string as argument list, whatever the grammar would do: the
    grammar is not consulted and nothing is raised. *)
Theorem normalise_bare_name (symbol : string) :
  Py.find "(" symbol = None ->
  normalise symbol = Return (symbol, "")
  /\ forall parse, normalise_with parse symbol = Return (symbol, "").
Proof.
  intros H. unfold normalise, normalise_with. rewrite H. split; reflexivity.
Qed.

Lemma normalise_bare_name_witness :
  normalise "PolyVox::Volume" = Return ("PolyVox::Volume", "")
  /\ forall parse, normalise_with parse "PolyVox::Volume" = Return ("PolyVox::Volume", "").
Proof. apply (normalise_bare_name "PolyVox::Volume"). reflexivity. Defined.

Lemma empty_arglist_case_cases (name tail : string) :
  empty_arglist_case name (String "(" (String ")" tail)) =
  if existsb (String.eqb (stripped (String "(" (String ")" tail))))
             ["()"; "()=0"; "()=default"]
  then Some (name, "()")
  else if existsb (String.eqb (stripped (String "(" (String ")" tail))))
                  ["()const"; "()const=0"]
       then Some (name, "() const")
       else None.
Proof. reflexivity. Qed.

(** C2. For a region that begins with ["()"], [normalise] returns
    [(name, "()")] exactly when the region without [" override"],
    [" final"] and spaces is ["()"], ["()=0"] or ["()=default"], and
    [(name, "() const")] exactly when it is ["()const"] or ["()const=0"];
    in those cases the result is the same for every grammar, which is
    therefore not consulted. *)
Theorem normalise_empty_arglist (name tail : string) :
  Py.find "(" name = None ->
  let symbol := name ++ "()" ++ tail in
  let region := "()" ++ tail in
  (normalise symbol = Return (name, "()")
   <-> In (stripped region) ["()"; "()=0"; "()=default"])
  /\ (normalise symbol = Return (name, "() const")
      <-> In (stripped region) ["()const"; "()const=0"])
  /\ (In (stripped region) ["()"; "()=0"; "()=default"; "()const"; "()const=0"] ->
      forall parse, normalise_with parse symbol = normalise symbol).
Proof.
  intros H symbol region. subst symbol region. cbn [append].
  unfold normalise.
  assert (E : forall parse, normalise_with parse (name ++ String "(" (String ")" tail)) =
              match empty_arglist_case name (String "(" (String ")" tail)) with
              | Some r => Return r
              | None => match parse_arglist parse name (String "(" (String ")" tail)) with
                        | Some o => o | None => ReturnNone end
              end) by (intros; apply normalise_with_split; exact H).
  rewrite (E (parseString arglist)), parse_arglist_empty, empty_arglist_case_cases.
  set (t := stripped (String "(" (String ")" tail))).
  destruct (existsb (String.eqb t) ["()"; "()=0"; "()=default"]) eqn:E1.
  - pose proof (proj1 (existsb_eqb_In _ _) E1) as I1. repeat split.
    + intros _. exact I1.
    + discriminate.
    + intros I2. simpl in I1, I2.
      destruct I1 as [I1|[I1|[I1|[]]]]; rewrite <- I1 in I2;
        destruct I2 as [I2|[I2|[]]]; discriminate.
    + intros _ parse. rewrite E, empty_arglist_case_cases. fold t. rewrite E1.
      reflexivity.
  - assert (N1 : ~ In t ["()"; "()=0"; "()=default"]).
    { intros I. apply existsb_eqb_In in I. congruence. }
    destruct (existsb (String.eqb t) ["()const"; "()const=0"]) eqn:E2.
    + pose proof (proj1 (existsb_eqb_In _ _) E2) as I2. repeat split.
      * discriminate.
      * intros I. contradiction.
      * intros _. exact I2.
      * intros _ parse. rewrite E, empty_arglist_case_cases. fold t.
        rewrite E1, E2. reflexivity.
    + assert (N2 : ~ In t ["()const"; "()const=0"]).
      { intros I. apply existsb_eqb_In in I. congruence. }
      repeat split; try discriminate; try contradiction.
      intros I. exfalso. simpl in I, N1, N2. tauto.
Qed.

Lemma normalise_empty_arglist_witness :
  normalise "Foo::bar()=0" = Return ("Foo::bar", "()")
  /\ normalise "Volume::printAll() const" = Return ("Volume::printAll", "() const").
Proof.
  split.
  - apply (proj1 (normalise_empty_arglist "Foo::bar" "=0" eq_refl)).
    vm_compute. tauto.
  - apply (proj1 (proj2 (normalise_empty_arglist "Volume::printAll" " const" eq_refl))).
    vm_compute. tauto.
Defined.

(** *** The grammar path *)

(** C1. An input with a ["("] that the special case does not take is
    split at the last [")"] of its region: the grammar parses the text up
    to it, what follows is the suffix.  When the grammar matches, the
    result is the name with the rendered arguments, and a last ["..."] for
    a variadic list, joined by [", "] in parentheses, followed by
    [" const"] if and only if the suffix contains ["const"]. *)
Theorem normalise_grammar_path (name body suffix : string) (result : ParseResults) :
  Py.find "(" name = None ->
  Py.find ")" suffix = None ->
  empty_arglist_case name ("(" ++ body ++ ")" ++ suffix) = None ->
  parseString arglist ("(" ++ body ++ ")") = Some result ->
  normalise (name ++ "(" ++ body ++ ")" ++ suffix) =
  Return (name,
          canonical_args
            (map (fun arg =>
                    canonical_argument (attr arg "qualifier") (attr arg "input_type")
                                       (attr arg "pointer_or_reference1")
                                       (attr arg "const_pointer_or_reference")
                                       (attr arg "pointer_or_reference2"))
                 (arg_list_of result))
            (var_args_of result) suffix).
Proof.
  intros Hname Hsuffix Hcase Hparse. cbn [append] in *. unfold normalise.
  rewrite normalise_with_split by exact Hname. rewrite Hcase.
  change (String "(" (body ++ String ")" suffix))
    with ((String "(" body) ++ String ")" suffix).
  rewrite parse_arglist_split by exact Hsuffix.
  cbn [append]. rewrite Hparse, build_result_canonical.
  do 2 f_equal. f_equal. apply map_ext. intros arg.
  apply normalise_argument_canonical.
Qed.


Lemma normalise_grammar_path_witness :
  normalise "Foo::bar(int a, const QString & b, ...) const =0"
  = Return ("Foo::bar", "(int, const QString&, ...) const").
Proof.
  refine (eq_trans
            (normalise_grammar_path "Foo::bar" "int a, const QString & b, ..." " const =0"
               (match parseString arglist "(int a, const QString & b, ...)" with
                | Some r => r
                | None => no_tokens
                end) _ _ _ _) _);
    vm_compute; reflexivity.
Defined.

(** C9. [normalise] returns a pair of strings or raises [ValueError] or
    [ParseException], for every input and every grammar: the statement
    [return None] after the last [try] is never reached.  [ValueError]
    means that no [")"] follows the first ["("], [ParseException] that
    the grammar rejected the text up to the last [")"]. *)
Theorem normalise_never_returns_none (symbol : string) :
  normalise symbol <> ReturnNone
  /\ ((exists name args, normalise symbol = Return (name, args))
      \/ normalise symbol = Raise ValueError
      \/ normalise symbol = Raise ParseException)
  /\ (normalise symbol = Raise ValueError ->
      exists i, Py.find "(" symbol = Some i
                /\ Py.rfind ")" (Py.slice_from i symbol) = None)
  /\ (normalise symbol = Raise ParseException ->
      exists i j, Py.find "(" symbol = Some i
                  /\ Py.rfind ")" (Py.slice_from i symbol) = Some j
                  /\ parseString arglist
                       (Py.slice_to (j + 1) (Py.slice_from i symbol)) = None).
Proof.
  unfold normalise, normalise_with.
  destruct (Py.find "(" symbol) as [i|] eqn:Fi.
  - destruct (empty_arglist_case _ _) as [[n a]|].
    + split; [discriminate|]. split; [left; eauto|]. split; discriminate.
    + unfold parse_arglist.
      destruct (Py.rfind ")" (Py.slice_from i symbol)) as [j|] eqn:Fj.
      * destruct (parseString arglist _) as [result|] eqn:E.
        -- split; [discriminate|]. split; [|split; discriminate].
           left. destruct (build_result _ _ result) as [n a]. eauto.
        -- split; [discriminate|]. split; [auto|]. split; [discriminate|].
           intros _. exists i, j. repeat split; auto.
      * split; [discriminate|]. split; [auto|]. split; [|discriminate].
        intros _. exists i. repeat split; auto.
  - split; [discriminate|]. split; [left; eauto|]. split; discriminate.
Qed.

(** *** Failures *)

(** C7, as the code has it.  When no [")"] follows the first ["("],
    [normalise] raises [ValueError]; when the grammar matches no prefix
    of the text up to the last [")"], it raises [ParseException]; no
    result is returned in either case. *)
Theorem normalise_reports_failure (name rest : string) :
  Py.find "(" name = None ->
  (Py.find ")" rest = None ->
   normalise (name ++ "(" ++ rest) = Raise ValueError)
  /\ (forall body suffix,
        rest = body ++ ")" ++ suffix ->
        Py.find ")" suffix = None ->
        empty_arglist_case name ("(" ++ rest) = None ->
        parseString arglist ("(" ++ body ++ ")") = None ->
        normalise (name ++ "(" ++ rest) = Raise ParseException).
Proof.
  intros Hname. cbn [append]. unfold normalise. split.
  - intros Hrest. rewrite normalise_with_split by exact Hname.
    assert (Hregion : Py.find ")" (String "(" rest) = None).
    { rewrite find_char_cons. simpl Ascii.eqb. rewrite Hrest. reflexivity. }
    rewrite (parse_arglist_no_closing _ _ _ Hregion).
    unfold empty_arglist_case.
    destruct rest as [|c rest']; [reflexivity|].
    rewrite find_char_cons in Hrest.
    destruct (Ascii.eqb ")" c) eqn:E; [discriminate|].
    cbn [Py.startswith]. rewrite Ascii.eqb_refl, E. reflexivity.
  - intros body suffix -> Hsuffix Hcase Hparse. cbn [append] in *.
    rewrite normalise_with_split by exact Hname. rewrite Hcase.
    change (String "(" (body ++ String ")" suffix))
      with ((String "(" body) ++ String ")" suffix).
    rewrite parse_arglist_split by exact Hsuffix.
    cbn [append]. rewrite Hparse. reflexivity.
Qed.

Lemma normalise_reports_failure_witness :
  normalise "f(int a" = Raise ValueError
  /\ normalise "f(int a, )" = Raise ParseException.
Proof.
  split.
  - apply (proj1 (normalise_reports_failure "f" "int a" eq_refl)). reflexivity.
  - apply (proj2 (normalise_reports_failure "f" "int a, )" eq_refl) "int a, " "");
      vm_compute; reflexivity.
Defined.

(** C7, as stated, fails: this argument list has three opening and two
    closing parentheses, and [normalise] returns a result for it, made
    from the prefix that the grammar matches. *)
Lemma normalise_unbalanced_returns :
  ~ (forall name region,
        Py.find "(" name = None ->
        Py.startswith "(" region = true ->
        missing_closing_parenthesis region ->
        raises (normalise (name ++ region))).
Proof.
  intros H.
  destruct (H "f" "(int a((b) )" eq_refl eq_refl) as [e He].
  - unfold missing_closing_parenthesis. vm_compute. lia.
  - vm_compute in He. discriminate.
Qed.

(** Text after the prefix that the grammar matches is not looked at: the
    nested parentheses of a default value end the first argument early. *)
Example normalise_nested_default :
  normalise "f(int x = g(h(1), 2), int y)" = Return ("f", "(int, 2)").
Proof. vm_compute. reflexivity. Qed.

(** *** The special case and the grammar *)

(** C8, as the code has it.  The special case is needed: for every input
    that it takes, [normalise] returns its value, and the grammar path
    alone raises [ParseException], because the grammar wants at least one
    argument between the parentheses. *)
Theorem special_case_is_needed (name tail : string) (r : string * string) :
  Py.find "(" name = None ->
  empty_arglist_case name ("()" ++ tail) = Some r ->
  normalise (name ++ "()" ++ tail) = Return r
  /\ normalise_without_special_case (parseString arglist) (name ++ "()" ++ tail)
     = Raise ParseException.
Proof.
  intros Hname Hcase. cbn [append] in *. split.
  - unfold normalise. rewrite normalise_with_split by exact Hname.
    rewrite Hcase. reflexivity.
  - rewrite normalise_without_special_case_split by exact Hname.
    rewrite parse_arglist_empty. reflexivity.
Qed.

Lemma special_case_is_needed_witness :
  normalise "Volume::printAll() const" = Return ("Volume::printAll", "() const")
  /\ normalise_without_special_case (parseString arglist) "Volume::printAll() const"
     = Raise ParseException.
Proof.
  apply (special_case_is_needed "Volume::printAll" " const"); reflexivity.
Defined.

(** C8, as stated, fails at ["f()"]: the special case takes it, and
    without the special case the grammar rejects it. *)
Lemma special_case_not_an_optimisation :
  empty_arglist_case "f" "()" = Some ("f", "()")
  /\ normalise "f()" = Return ("f", "()")
  /\ normalise_without_special_case (parseString arglist) "f()" = Raise ParseException
  /\ normalise_without_special_case (parseString arglist) "f()" <> normalise "f()".
Proof. vm_compute. repeat split; discriminate. Qed.


(** *** Rendering of one argument *)

Lemma join_In (sep x : string) (l : list string) :
  In x l ->
  exists a b, Py.join sep l = a ++ x ++ b /\ (b = "" \/ exists b', b = sep ++ b').
Proof.
  induction l as [|y l IH]; intros H; [contradiction|].
  destruct H as [->|H].
  - destruct l as [|z l].
    + exists "", "". split; [simpl; rewrite append_nil_r; reflexivity | auto].
    + exists "", (sep ++ Py.join sep (z :: l)). split; [reflexivity | eauto].
  - destruct l as [|z l]; [contradiction|].
    destruct (IH H) as (a & b & E & Hb).
    exists (y ++ sep ++ a), b. split; [|exact Hb].
    change (Py.join sep (y :: z :: l)) with (y ++ sep ++ Py.join sep (z :: l)).
    rewrite E, !append_assoc. reflexivity.
Qed.

(** C10. An argument with an embedded [const] and no second marker is
    rendered with a space at its end, and in the normalised argument list
    that space stands right before the [", "] or the [")"] that follows
    the argument. *)
Theorem embedded_const_trailing_space (arg : tok) :
  truthy (attr arg "const_pointer_or_reference") = true ->
  attr arg "pointer_or_reference2" = "" ->
  (exists front,
      normalise_argument arg = front ++ attr arg "const_pointer_or_reference" ++ " ")
  /\ forall name suffix result,
      In arg (arg_list_of result) ->
      exists before after,
        snd (build_result name suffix result)
        = before ++ normalise_argument arg ++ after
        /\ (Py.startswith ", " after = true \/ Py.startswith ")" after = true).
Proof.
  intros Hconst Hmarker. split.
  - rewrite normalise_argument_canonical. unfold canonical_argument.
    rewrite Hconst, Hmarker.
    exists ((if truthy (attr arg "qualifier") then attr arg "qualifier" ++ " " else "")
            ++ attr arg "input_type" ++ attr arg "pointer_or_reference1" ++ " ").
    rewrite !append_assoc, append_nil_r. reflexivity.
  - intros name suffix result Hin.
    rewrite build_result_canonical. unfold canonical_args. cbn [snd].
    set (tail := if Py.contains "const" suffix then " const" else "").
    assert (Hin' : In (normalise_argument arg)
                      (map normalise_argument (arg_list_of result)
                       ++ (if var_args_of result then ["..."] else []))%list).
    { apply in_or_app. left. apply in_map. exact Hin. }
    destruct (join_In ", " _ _ Hin') as (a & b & E & Hb).
    rewrite E. exists ("(" ++ a), (b ++ ")" ++ tail). split.
    + cbn [append]. rewrite !append_assoc. reflexivity.
    + destruct Hb as [->|[b' ->]]; [right | left]; reflexivity.
Qed.

Lemma embedded_const_trailing_space_witness :
  (exists front, normalise_argument int_pointer_const = front ++ "const" ++ " ")
  /\ normalise "f(int * const)" = Return ("f", "(int* const )").
Proof.
  split.
  - apply (embedded_const_trailing_space int_pointer_const); reflexivity.
  - reflexivity.
Defined.

(** C4 at two inputs that differ in the name of the argument only: a
    name that begins with [const] is read as the embedded [const] and
    shows in the result.  [Optional('const')] is a [Literal], where the
    qualifier uses [Keyword('const')]. *)
Theorem argument_name_shows_in_result :
  normalise "f(int constant)" = Return ("f", "(int const )")
  /\ normalise "f(int variable)" = Return ("f", "(int)")
  /\ normalise "f(int*foo)" = normalise "f(int * foo)".
Proof. vm_compute. repeat split. Qed.

(** Whitespace between a template and the name of the argument matters
    too: without it the name is read as the tail of the type. *)
Example template_followed_by_name :
  normalise "f(vector<int>foo)" = Return ("f", "(vector< int >foo)")
  /\ normalise "f(vector<int> foo)" = Return ("f", "(vector< int >)").
Proof. vm_compute. split; reflexivity. Qed.


(** *** Template regions *)

Lemma join_empty_cons (x : string) (l : list string) :
  Py.join "" (x :: l) = x ++ Py.join "" l.
Proof. destruct l; simpl; [rewrite append_nil_r|]; reflexivity. Qed.

Lemma join_empty_pad (ws : list string) (tail : list string) :
  Py.join "" (map (fun tok => match tok with
                              | PStr s => (" " ++ s)%string
                              | PList _ => normalise_templates tok
                              end) (map asList (map TStr ws)) ++ tail)%list
  = pad ws ++ Py.join "" tail.
Proof.
  induction ws as [|w ws IH]; [reflexivity|].
  cbn [map app pad asList]. rewrite join_empty_cons, IH, !append_assoc. reflexivity.
Qed.

(** The rendering of a region whose tokens are all strings. *)
Lemma normalise_templates_strings (ws : list string) :
  normalise_templates (PList (map asList (map TStr ws))) = "<" ++ pad ws ++ " >".
Proof.
  cbn [normalise_templates]. cbn [app]. rewrite join_empty_cons, join_empty_pad.
  reflexivity.
Qed.

(** One level of [angle_bracket_pair]. *)
Lemma nested_unfold (f : nat) (skip : bool) (st : pstate) :
  nestedExpr_with turn_parseresults_to_list "<" ">" (S f) skip st =
  match Literal "<" skip st with
  | None => None
  | Some (_, st1) =>
      match ZeroOrMore (template_item f) true st1 with
      | None => None
      | Some (rz, st2) =>
          match Literal ">" true st2 with
          | None => None
          | Some (_, st3) =>
              Some (([TStr (normalise_templates (PList (map asList (fst rz))))], []), st3)
          end
      end
  end.
Proof.
  cbn [nestedExpr_with]. fold (template_item f).
  unfold setParseAction, Group, And_forward, And, Suppress.
  destruct (Literal "<" skip st) as [[r1 st1]|]; [|reflexivity].
  destruct (ZeroOrMore (template_item f) true st1) as [[[ts d] st2]|]; [|reflexivity].
  destruct (Literal ">" true st2) as [[r3 st3]|]; [|reflexivity].
  cbn. rewrite app_nil_r. reflexivity.
Qed.


(** **** What the primitives leave of the input *)

Lemma all_chars_app (ok : ascii -> bool) (a b : string) :
  all_chars ok (a ++ b) = all_chars ok a && all_chars ok b.
Proof. induction a; simpl; [reflexivity | rewrite IHa, andb_assoc; reflexivity]. Qed.

Section Suffix.
Variable ok : ascii -> bool.

Lemma skip_white_ok (p : option ascii) (s : string) :
  all_chars ok s = true -> all_chars ok (rest (skip_white p s)) = true.
Proof.
  revert p. induction s as [|c s IH]; intros p H; [exact H|].
  cbn [skip_white]. destruct (Py.in_chars c DEFAULT_WHITE_CHARS); [|exact H].
  apply IH. simpl in H. apply andb_prop in H. tauto.
Qed.

Lemma preParse_ok (skip : bool) (st : pstate) :
  all_chars ok (rest st) = true -> all_chars ok (rest (preParse skip st)) = true.
Proof. destruct skip; [apply skip_white_ok | trivial]. Qed.

Lemma consume_ok (m : string) (p : option ascii) (s : string) (st' : pstate) :
  consume m p s = Some st' ->
  all_chars ok s = true -> all_chars ok (rest st') = true.
Proof.
  revert p s. induction m as [|a m IH]; intros p s E H.
  - injection E as <-. exact H.
  - destruct s as [|b s]; [discriminate|]. cbn [consume] in E.
    destruct (Ascii.eqb a b); [|discriminate].
    apply (IH _ _ E). simpl in H. apply andb_prop in H. tauto.
Qed.

Lemma Literal_ok (m : string) (skip : bool) (st : pstate) r st' :
  Literal m skip st = Some (r, st') ->
  all_chars ok (rest st) = true ->
  r = ([TStr m], []) /\ all_chars ok (rest st') = true.
Proof.
  unfold Literal, token. intros E H.
  destruct (consume m _ _) as [st1|] eqn:C; [|discriminate].
  injection E as <- <-. split; [reflexivity|].
  apply (consume_ok _ _ _ _ C). apply preParse_ok. exact H.
Qed.

Lemma span_ok (chars : string) (p : option ascii) (s : string) :
  all_chars ok s = true -> all_chars ok (rest (snd (span chars p s))) = true.
Proof.
  revert p. induction s as [|c s IH]; intros p H; [exact H|].
  cbn [span]. destruct (Py.in_chars c chars); [|exact H].
  specialize (IH (Some c)). destruct (span chars (Some c) s) as [w st].
  apply IH. simpl in H. apply andb_prop in H. tauto.
Qed.

Lemma quoted_star_ok (q : ascii) (fuel : nat) (p : option ascii) (s : string) :
  all_chars ok s = true ->
  all_chars ok (rest (snd (quoted_star q fuel p s))) = true.
Proof.
  revert p s. induction fuel as [|f IH]; intros p s H; [exact H|].
  cbn [quoted_star]. destruct s as [|c s1]; [exact H|].
  assert (H1 : all_chars ok s1 = true) by (simpl in H; apply andb_prop in H; tauto).
  destruct (Ascii.eqb c q).
  - destruct s1 as [|c2 s2]; [exact H|].
    destruct (Ascii.eqb c2 q); [|exact H].
    specialize (IH (Some c2) s2). destruct (quoted_star q f (Some c2) s2).
    apply IH. simpl in H1. apply andb_prop in H1. tauto.
  - destruct (Ascii.eqb c "\").
    + destruct s1 as [|c2 s2]; [exact H|].
      assert (H2 : all_chars ok s2 = true)
        by (simpl in H1; apply andb_prop in H1; tauto).
      destruct (Ascii.eqb c2 "x").
      * pose proof (span_ok hexnums (Some c2) s2 H2) as Hs.
        destruct (span hexnums (Some c2) s2) as [h st1].
        destruct h; [exact H|].
        specialize (IH (prev st1) (rest st1) Hs).
        destruct (quoted_star q f (prev st1) (rest st1)). exact IH.
      * specialize (IH (Some c2) s2 H2).
        destruct (quoted_star q f (Some c2) s2). exact IH.
    + destruct (Ascii.eqb c "010" || Ascii.eqb c "013"); [exact H|].
      specialize (IH (Some c) s1 H1).
      destruct (quoted_star q f (Some c) s1). exact IH.
Qed.

End Suffix.

Lemma last_char_app (a : string) (c : ascii) : last_char (a ++ String c "") = Some c.
Proof.
  induction a as [|d a IH]; [reflexivity|].
  cbn [append last_char]. destruct (a ++ String c "") eqn:E; [|exact IH].
  destruct a; discriminate.
Qed.

(** One alternative of [quotedString]: the text from the quote to the
    closing quote. *)
Lemma quoted_alternative (ok : ascii -> bool) (q : ascii) (st : pstate) r st' :
  And (Regex_quoted q) (Literal (String q "")) false st = Some (r, st') ->
  all_chars ok (rest st) = true ->
  (exists w, r = ([TStr (String q w); TStr (String q "")], []))
  /\ all_chars ok (rest st') = true.
Proof.
  unfold And, Regex_quoted, token. cbn [preParse]. intros E H.
  destruct (rest st) as [|c s'] eqn:R; [discriminate|].
  destruct (Ascii.eqb c q) eqn:Q; [|discriminate].
  apply Ascii.eqb_eq in Q. subst c.
  assert (H1 : all_chars ok s' = true) by (simpl in H; apply andb_prop in H; tauto).
  pose proof (quoted_star_ok ok q (String.length s') (Some q) s' H1) as Hs.
  destruct (quoted_star q (String.length s') (Some q) s') as [w st1].
  destruct (Literal (String q "") false st1) as [[r2 st2]|] eqn:L; [|discriminate].
  destruct (Literal_ok ok _ _ _ _ _ L Hs) as [-> H2].
  injection E as <- <-. split; [exists w; reflexivity | exact H2].
Qed.

Lemma quotedString_tight (ok : ascii -> bool) (skip : bool) (st : pstate) r st' :
  quotedString skip st = Some (r, st') ->
  all_chars ok (rest st) = true ->
  (exists w, r = ([TStr w], []) /\ tight w) /\ all_chars ok (rest st') = true.
Proof.
  unfold quotedString, Combine. cbn [MatchFirst]. intros E H.
  pose proof (preParse_ok ok skip st H) as H0.
  set (st0 := preParse skip st) in *.
  assert (T : forall q w, q <> " "%char ->
              tight (Py.join "" (asStringList [TStr (String q w); TStr (String q "")]))).
  { intros q w Hq. cbn. split.
    - exists q. auto.
    - exists q. split; [|exact Hq].
      change (String q (w ++ String q "")) with ((String q w) ++ String q "").
      apply last_char_app. }
  destruct (And (Regex_quoted dquote) _ false st0) as [[r1 st1]|] eqn:A1.
  - destruct (quoted_alternative ok _ _ _ _ A1 H0) as [[w ->] H1].
    injection E as <- <-. split; [|exact H1].
    eexists. split; [reflexivity|]. apply T. discriminate.
  - destruct (And (Regex_quoted "'") _ false st0) as [[r1 st1]|] eqn:A2; [|discriminate].
    destruct (quoted_alternative ok _ _ _ _ A2 H0) as [[w ->] H1].
    injection E as <- <-. split; [|exact H1].
    eexists. split; [reflexivity|]. apply T. discriminate.
Qed.


(** **** Quoted strings, read character by character *)

Lemma feed_app (q : ascii) (a b : string) :
  forall m, feed q m (a ++ b) = match feed q m a with
                                | Go m' => feed q m' b
                                | v => v
                                end.
Proof.
  induction a as [|c a IH]; intros m; [reflexivity|].
  cbn [append feed]. destruct (step q m c); [apply IH | reflexivity | reflexivity].
Qed.

Lemma closes_app (q : ascii) (m : mode) (a b : string) :
  closes q m (a ++ b) = match feed q m a with
                        | Go m' => closes q m' b
                        | Closed => true
                        | Blocked => false
                        end.
Proof. unfold closes. rewrite feed_app. destruct (feed q m a); reflexivity. Qed.

Lemma is_quote_cases (q : ascii) : is_quote q = true -> q = dquote \/ q = "'"%char.
Proof.
  unfold is_quote. intros H. apply orb_prop in H.
  destruct H as [H|H]; apply Ascii.eqb_eq in H; auto.
Qed.

(** A hexadecimal digit is an ordinary character of the text. *)
Lemma step_hex (q c : ascii) :
  is_quote q = true -> Py.in_chars c hexnums = true -> step q Normal c = Go Normal.
Proof.
  intros Hq Hc. destruct (is_quote_cases q Hq) as [-> | ->];
    cbn [hexnums Py.in_chars] in Hc;
    repeat match type of Hc with
           | (if Ascii.eqb c ?d then _ else _) = _ =>
               destruct (Ascii.eqb_spec c d) as [-> | _]; [reflexivity|]
           end; discriminate.
Qed.

Lemma feed_hex (q : ascii) (h : string) :
  is_quote q = true -> all_chars (fun c => Py.in_chars c hexnums) h = true ->
  feed q Normal h = Go Normal.
Proof.
  intros Hq. induction h as [|c h IH]; intros H; [reflexivity|].
  simpl in H. apply andb_prop in H. destruct H as [Hc Hh].
  cbn [feed]. rewrite (step_hex q c Hq Hc). apply IH. exact Hh.
Qed.

Lemma span_split (chars : string) (s : string) :
  forall p, exists h p' t,
    span chars p s = (h, mkState p' t)
    /\ s = h ++ t
    /\ all_chars (fun c => Py.in_chars c chars) h = true
    /\ (forall c, peek t = Some c -> Py.in_chars c chars = false).
Proof.
  induction s as [|c s IH]; intros p.
  - exists "", p, "". cbn. repeat split. discriminate.
  - cbn [span]. destruct (Py.in_chars c chars) eqn:E.
    + destruct (IH (Some c)) as (h & p' & t & H1 & H2 & H3 & H4).
      rewrite H1. exists (String c h), p', t. repeat split; try assumption.
      * cbn [append]. rewrite <- H2. reflexivity.
      * cbn [all_chars]. rewrite E, H3. reflexivity.
    + exists "", p, (String c s). cbn. repeat split.
      intros c' Hc. injection Hc as <-. exact E.
Qed.

Lemma quote_not_special (q : ascii) :
  is_quote q = true ->
  Ascii.eqb "\" q = false /\ is_break q = false /\ Ascii.eqb q "x" = false
  /\ Py.in_chars q hexnums = false /\ Ascii.eqb q " " = false
  /\ Ascii.eqb q "<" = false /\ Ascii.eqb q ">" = false.
Proof. intros H. destruct (is_quote_cases q H) as [-> | ->]; repeat split. Qed.

Lemma step_quote (q : ascii) : step q Normal q = Go Pending.
Proof. unfold step. rewrite Ascii.eqb_refl. reflexivity. Qed.

Lemma step_doubled (q : ascii) : step q Pending q = Go Normal.
Proof. unfold step. rewrite Ascii.eqb_refl. reflexivity. Qed.

Lemma step_lone (q c : ascii) : c <> q -> step q Pending c = Closed.
Proof. intros H. unfold step. apply Ascii.eqb_neq in H. rewrite H. reflexivity. Qed.

Lemma step_backslash (q : ascii) : is_quote q = true -> step q Normal "\" = Go Escape.
Proof. intros H. destruct (is_quote_cases q H) as [-> | ->]; reflexivity. Qed.

Lemma step_plain (q c : ascii) :
  Ascii.eqb c q = false -> Ascii.eqb c "\" = false -> is_break c = false ->
  step q Normal c = Go Normal.
Proof. intros H1 H2 H3. unfold step. rewrite H1, H2, H3. reflexivity. Qed.

Lemma step_break (q c : ascii) :
  Ascii.eqb c q = false -> Ascii.eqb c "\" = false -> is_break c = true ->
  step q Normal c = Blocked.
Proof. intros H1 H2 H3. unfold step. rewrite H1, H2, H3. reflexivity. Qed.

Lemma step_escaped (q c : ascii) : Ascii.eqb c "x" = false -> step q Escape c = Go Normal.
Proof. intros H. unfold step. rewrite H. reflexivity. Qed.

(** What the repetition of the regular expression takes: text that is
    read from [Normal] to [Normal], up to a place where it stops. *)
Lemma quoted_star_spec (q : ascii) :
  is_quote q = true ->
  forall f s p, String.length s <= f ->
    exists w p' t,
      quoted_star q f p s = (w, mkState p' t)
      /\ s = w ++ t /\ feed q Normal w = Go Normal /\ stopped q t.
Proof.
  intros Hq.
  induction f as [f IH] using lt_wf_ind. intros s p L.
  assert (Stop : forall x, x = ("", mkState p s) ->
            peek s <> Some q -> closes q Normal s = false ->
            exists w p' t, x = (w, mkState p' t)
              /\ s = w ++ t /\ feed q Normal w = Go Normal /\ stopped q t).
  { intros x E H1 H2. exists "", p, s. repeat split; [exact E|]. right. auto. }
  destruct s as [|c s1].
  { apply Stop; [destruct f; reflexivity | discriminate | reflexivity]. }
  destruct f as [|f]; [simpl in L; lia|]. simpl in L.
  destruct (Ascii.eqb_spec c q) as [-> | Hcq].
  - (* a quote *)
    cbn [quoted_star]. rewrite Ascii.eqb_refl.
    destruct s1 as [|c2 s2].
    { exists "", p, (String q ""). repeat split. left. exists "".
      split; [reflexivity | discriminate]. }
    destruct (Ascii.eqb_spec c2 q) as [-> | Hc2].
    + destruct (IH f ltac:(lia) s2 (Some q) ltac:(simpl in L; lia))
        as (w & p' & t & E & -> & F & S).
      rewrite E. exists (String q (String q w)), p', t. repeat split; [|exact S].
      cbn [feed]. rewrite step_quote. cbn [feed]. rewrite step_doubled. exact F.
    + exists "", p, (String q (String c2 s2)). repeat split. left.
      exists (String c2 s2). split; [reflexivity|]. cbn. congruence.
  - assert (Hcq' : Ascii.eqb c q = false) by (apply Ascii.eqb_neq; exact Hcq).
    assert (Hp : peek (String c s1) <> Some q) by (cbn; congruence).
    cbn [quoted_star]. rewrite Hcq'.
    destruct (Ascii.eqb_spec c "\") as [-> | Hcb].
    + (* a backslash *)
      destruct s1 as [|c2 s2].
      { apply Stop; [reflexivity | exact Hp |].
        unfold closes. cbn [feed]. rewrite (step_backslash q Hq). reflexivity. }
      destruct (Ascii.eqb_spec c2 "x") as [-> | Hc2].
      * destruct (span_split hexnums s2 (Some "x"%char)) as (h & p1 & t1 & E1 & -> & H3 & H4).
        rewrite E1. destruct h as [|h0 h].
        { apply Stop; [reflexivity | exact Hp |].
          unfold closes. cbn [feed append]. rewrite (step_backslash q Hq).
          cbn [feed]. change (step q Escape "x") with (Go Hex).
          destruct t1 as [|d t]; [reflexivity|].
          cbn [feed]. unfold step. rewrite (H4 d eq_refl). reflexivity. }
        destruct (IH f ltac:(lia) t1 p1) as (w & p' & t & E & -> & F & S).
        { cbn [append String.length] in L. rewrite length_append in L. lia. }
        cbn [prev rest]. rewrite E.
        exists (String "\" (String "x" (String h0 h ++ w))), p', t.
        split; [reflexivity|].
        split; [cbn [append]; rewrite append_assoc; reflexivity|]. split; [|exact S].
        cbn [feed append]. rewrite (step_backslash q Hq). cbn [feed].
        change (step q Escape "x") with (Go Hex). cbn [all_chars] in H3.
        apply andb_prop in H3. destruct H3 as [H0 H3]. cbn [feed]. unfold step at 1.
        rewrite H0. rewrite feed_app, (feed_hex q h Hq H3). exact F.
      * assert (Hc2' : Ascii.eqb c2 "x" = false) by (apply Ascii.eqb_neq; exact Hc2).
        destruct (IH f ltac:(lia) s2 (Some c2) ltac:(simpl in L; lia))
          as (w & p' & t & E & -> & F & S).
        rewrite E. exists (String "\" (String c2 w)), p', t.
        repeat split; [|exact S]. cbn [feed]. rewrite (step_backslash q Hq).
        cbn [feed]. rewrite (step_escaped q c2 Hc2'). exact F.
    + assert (Hcb' : Ascii.eqb c "\" = false) by (apply Ascii.eqb_neq; exact Hcb).
      fold (is_break c).
      destruct (is_break c) eqn:B.
      * apply Stop; [reflexivity | exact Hp |].
        unfold closes. cbn [feed]. rewrite (step_break q c Hcq' Hcb' B). reflexivity.
      * destruct (IH f ltac:(lia) s1 (Some c) ltac:(lia)) as (w & p' & t & E & -> & F & S).
        rewrite E. exists (String c w), p', t.
        repeat split; [|exact S]. cbn [feed]. rewrite (step_plain q c Hcq' Hcb' B). exact F.
Qed.

Lemma span_app (chars : string) (w t : string) :
  (forall c, peek t = Some c -> Py.in_chars c chars = false) ->
  forall p, span chars p (w ++ t)
            = (fst (span chars p w),
               mkState (prev (snd (span chars p w))) (rest (snd (span chars p w)) ++ t)).
Proof.
  intros Ht. induction w as [|c w IH]; intros p.
  - cbn. destruct t as [|c t]; [reflexivity|]. cbn [span].
    rewrite (Ht c eq_refl). reflexivity.
  - cbn [append span]. destruct (Py.in_chars c chars); [|reflexivity].
    rewrite IH. destruct (span chars (Some c) w). reflexivity.
Qed.

(** Text that is read from [Normal] to [Normal] and stands before a quote
    that is not doubled is what the repetition takes. *)
Lemma quoted_star_feed (q : ascii) (t : string) :
  is_quote q = true -> peek t <> Some q ->
  forall f w p,
    String.length (w ++ String q t) <= f -> feed q Normal w = Go Normal ->
    exists p', quoted_star q f p (w ++ String q t) = (w, mkState p' (String q t)).
Proof.
  intros Hq Ht. destruct (quote_not_special q Hq) as (_ & _ & _ & Q4 & _).
  assert (Lone : forall f p, quoted_star q f p (String q t) = ("", mkState p (String q t))).
  { intros [|f] p; [reflexivity|]. cbn [quoted_star]. rewrite Ascii.eqb_refl.
    destruct t as [|c t']; [reflexivity|].
    destruct (Ascii.eqb_spec c q) as [-> | _]; [cbn in Ht; congruence | reflexivity]. }
  induction f as [f IH] using lt_wf_ind. intros w p L F.
  destruct w as [|c w1]; [exists p; apply Lone|].
  destruct f as [|f]; [simpl in L; lia|]. cbn [append String.length] in L.
  cbn [feed] in F. cbn [append quoted_star].
  destruct (Ascii.eqb_spec c q) as [-> | Hcq].
  - rewrite step_quote in F. destruct w1 as [|c2 w2]; [discriminate|].
    cbn [feed] in F. cbn [append].
    destruct (Ascii.eqb_spec c2 q) as [-> | Hc2].
    + rewrite step_doubled in F.
      destruct (IH f ltac:(lia) w2 (Some q) ltac:(simpl in L; lia) F) as [p' E].
      rewrite E. exists p'. reflexivity.
    + rewrite (step_lone q c2 Hc2) in F. discriminate.
  - assert (Hcq' : Ascii.eqb c q = false) by (apply Ascii.eqb_neq; exact Hcq).
    destruct (Ascii.eqb_spec c "\") as [-> | Hcb].
    + rewrite (step_backslash q Hq) in F. destruct w1 as [|c2 w2]; [discriminate|].
      cbn [feed] in F. cbn [append].
      destruct (Ascii.eqb_spec c2 "x") as [-> | Hc2].
      * change (step q Escape "x") with (Go Hex) in F.
        destruct w2 as [|h0 w3]; [discriminate|]. cbn [feed] in F. unfold step at 1 in F.
        destruct (Py.in_chars h0 hexnums) eqn:H0; [|discriminate].
        rewrite (span_app hexnums (String h0 w3) (String q t))
          by (intros c Hc; injection Hc as <-; exact Q4).
        destruct (span_split hexnums (String h0 w3) (Some "x"%char))
          as (h & p1 & t1 & E1 & E2 & H3 & _).
        rewrite E1. cbn [fst snd prev rest].
        destruct h as [|h1 h]; [cbn [span] in E1; rewrite H0 in E1;
                                destruct (span hexnums (Some h0) w3); discriminate|].
        cbn [append] in E2. injection E2 as <- ->.
        cbn [all_chars] in H3. apply andb_prop in H3. destruct H3 as [_ H3].
        rewrite feed_app, (feed_hex q h Hq H3) in F.
        destruct (IH f ltac:(lia) t1 p1) as [p' E]; [|exact F|].
        { simpl in L. rewrite !length_append in *. simpl in *. lia. }
        rewrite E. exists p'. reflexivity.
      * assert (Hc2' : Ascii.eqb c2 "x" = false) by (apply Ascii.eqb_neq; exact Hc2).
        rewrite (step_escaped q c2 Hc2') in F.
        destruct (IH f ltac:(lia) w2 (Some c2) ltac:(simpl in L; lia) F) as [p' E].
        rewrite E. exists p'. reflexivity.
    + assert (Hcb' : Ascii.eqb c "\" = false) by (apply Ascii.eqb_neq; exact Hcb).
      fold (is_break c). destruct (is_break c) eqn:B.
      * rewrite (step_break q c Hcq' Hcb' B) in F. discriminate.
      * rewrite (step_plain q c Hcq' Hcb' B) in F.
        destruct (IH f ltac:(lia) w1 (Some c) ltac:(lia) F) as [p' E].
        rewrite E. exists p'. reflexivity.
Qed.

(** One alternative of [quotedString] at a text that begins with its
    quote. *)
Lemma quoted_alternative_spec (q : ascii) (p : option ascii) (s : string) :
  is_quote q = true ->
  match And (Regex_quoted q) (Literal (String q "")) false (mkState p (String q s)) with
  | Some (r, st') =>
      exists w, s = w ++ String q (rest st') /\ feed q Normal w = Go Normal
                /\ peek (rest st') <> Some q
                /\ r = ([TStr (String q w); TStr (String q "")], [])
  | None => closes q Normal s = false
  end.
Proof.
  intros Hq. unfold And, Regex_quoted, token. cbn [preParse rest]. rewrite Ascii.eqb_refl.
  destruct (quoted_star_spec q Hq (String.length s) s (Some q) (le_n _))
    as (w & p' & t & E & -> & F & S).
  rewrite E. unfold Literal, token. cbn [preParse prev rest].
  assert (C : closes q Normal (w ++ t) = closes q Normal t)
    by (rewrite closes_app, F; reflexivity).
  destruct S as [(t' & -> & Ht) | [Hp Hc]].
  - cbn [consume]. rewrite Ascii.eqb_refl. exists w. auto.
  - rewrite C. destruct t as [|c t]; [exact Hc|]. cbn [consume].
    destruct (Ascii.eqb_spec q c) as [<- | _]; [cbn in Hp; congruence | exact Hc].
Qed.

Lemma quoted_alternative_other (q : ascii) (p : option ascii) (s : string) :
  peek s <> Some q ->
  And (Regex_quoted q) (Literal (String q "")) false (mkState p s) = None.
Proof.
  intros H. unfold And, Regex_quoted, token. cbn [preParse rest].
  destruct s as [|c s]; [reflexivity|].
  destruct (Ascii.eqb_spec c q) as [-> | _]; [cbn in H; congruence | reflexivity].
Qed.

(** [quotedString] fails exactly where no quote stands or the quote that
    stands there is not closed. *)
Lemma quotedString_fails (skip : bool) (st : pstate) :
  quotedString skip st = None <->
  (forall q s, is_quote q = true -> rest (preParse skip st) = String q s ->
               closes q Normal s = false).
Proof.
  unfold quotedString, Combine. cbn [MatchFirst].
  destruct (preParse skip st) as [p s0]. cbn [rest].
  destruct s0 as [|c s].
  { split; [intros _ q s _ E; discriminate E | reflexivity]. }
  destruct (Ascii.eqb_spec c dquote) as [-> | Hd].
  - pose proof (quoted_alternative_spec dquote p s eq_refl) as A.
    destruct (And (Regex_quoted dquote) _ false _) as [[[ts d] st1]|].
    + destruct A as (w & -> & F & Ht & _). split; [discriminate|].
      intros H. specialize (H dquote _ eq_refl eq_refl).
      rewrite closes_app, F in H. unfold closes in H. cbn [feed] in H.
      rewrite step_quote in H. destruct (rest st1) as [|c t]; [discriminate|].
      cbn [feed] in H. rewrite step_lone in H by (cbn in Ht; congruence). discriminate.
    + rewrite quoted_alternative_other by (cbn; discriminate).
      split; [|reflexivity]. intros _ q s' Hq E. injection E as <- <-. exact A.
  - rewrite quoted_alternative_other by (cbn; congruence).
    destruct (Ascii.eqb_spec c "'") as [-> | Hs].
    + pose proof (quoted_alternative_spec "'" p s eq_refl) as A.
      destruct (And (Regex_quoted "'") _ false _) as [[[ts d] st1]|].
      * destruct A as (w & -> & F & Ht & _). split; [discriminate|].
        intros H. specialize (H "'"%char _ eq_refl eq_refl).
        rewrite closes_app, F in H. unfold closes in H. cbn [feed] in H.
        rewrite step_quote in H. destruct (rest st1) as [|c t]; [discriminate|].
        cbn [feed] in H. rewrite step_lone in H by (cbn in Ht; congruence). discriminate.
      * split; [|reflexivity]. intros _ q s' Hq E. injection E as <- <-. exact A.
    + rewrite quoted_alternative_other by (cbn; congruence).
      split; [|reflexivity]. intros _ q s' Hq E. injection E as <- <-.
      destruct (is_quote_cases c Hq); congruence.
Qed.

(** What [quotedString] yields: the quote, text read from [Normal] to
    [Normal], and the quote again, which is not doubled. *)
Lemma quotedString_yields (skip : bool) (st : pstate) r st' :
  quotedString skip st = Some (r, st') ->
  exists q w,
    is_quote q = true
    /\ rest (preParse skip st) = String q (w ++ String q (rest st'))
    /\ feed q Normal w = Go Normal
    /\ peek (rest st') <> Some q
    /\ r = ([TStr (String q (w ++ String q ""))], []).
Proof.
  unfold quotedString, Combine. cbn [MatchFirst].
  destruct (preParse skip st) as [p s0]. cbn [rest].
  destruct s0 as [|c s]; [discriminate|].
  destruct (Ascii.eqb_spec c dquote) as [-> | Hd].
  - pose proof (quoted_alternative_spec dquote p s eq_refl) as A.
    destruct (And (Regex_quoted dquote) _ false _) as [[[ts d] st1]|].
    + destruct A as (w & -> & F & Ht & E). injection E as -> ->.
      intros E. injection E as <- <-. exists dquote, w.
      split; [reflexivity|]. split; [reflexivity|]. split; [exact F|].
      split; [exact Ht | reflexivity].
    + rewrite quoted_alternative_other by (cbn; discriminate). discriminate.
  - rewrite quoted_alternative_other by (cbn; congruence).
    destruct (Ascii.eqb_spec c "'") as [-> | Hs].
    + pose proof (quoted_alternative_spec "'" p s eq_refl) as A.
      destruct (And (Regex_quoted "'") _ false _) as [[[ts d] st1]|]; [|discriminate].
      destruct A as (w & -> & F & Ht & E). injection E as -> ->.
      intros E. injection E as <- <-. exists "'"%char, w.
      split; [reflexivity|]. split; [reflexivity|]. split; [exact F|].
      split; [exact Ht | reflexivity].
    + rewrite quoted_alternative_other by (cbn; congruence). discriminate.
Qed.

(** A quoted string in front of anything but its quote is matched as a
    whole. *)
Lemma quotedString_matches (q : ascii) (w t : string) (p : option ascii) :
  is_quote q = true -> feed q Normal w = Go Normal -> peek t <> Some q ->
  exists p',
    quotedString false (mkState p (String q (w ++ String q t)))
    = Some (([TStr (String q (w ++ String q ""))], []), mkState p' t).
Proof.
  intros Hq F Ht.
  destruct (quoted_star_feed q t Hq Ht (String.length (w ++ String q t)) w (Some q)
              (le_n _) F) as [p' E].
  exists (Some q). unfold quotedString, Combine. cbn [MatchFirst preParse].
  assert (A : And (Regex_quoted q) (Literal (String q "")) false
                  (mkState p (String q (w ++ String q t)))
              = Some (([TStr (String q w); TStr (String q "")], []), mkState (Some q) t)).
  { unfold And, Regex_quoted, token. cbn [preParse rest]. rewrite Ascii.eqb_refl, E.
    unfold Literal, token. cbn [preParse prev rest consume]. rewrite Ascii.eqb_refl.
    reflexivity. }
  destruct (is_quote_cases q Hq) as [-> | ->].
  - rewrite A. reflexivity.
  - rewrite quoted_alternative_other by (cbn; discriminate). rewrite A. reflexivity.
Qed.


(** **** The [content] of a template region *)

Lemma content_char_inv (st : pstate) r st' :
  content_char false st = Some (r, st') ->
  exists c, rest st = String c (rest st') /\ content_ok c = true
            /\ r = ([TStr (String c "")], []).
Proof.
  unfold content_char, And, NotAny, CharsNotIn1, token, content_ok. cbn [preParse].
  destruct (quotedString false st); [discriminate|].
  destruct (rest st) as [|c s']; [discriminate|].
  destruct (Py.in_chars c _) eqn:X; [discriminate|].
  intros E. injection E as <- <-. exists c. rewrite X. auto.
Qed.

Lemma repeat_content_inv (n : nat) (st : pstate) rs st' :
  repeat (content_char false) n st = (rs, st') ->
  exists w, rest st = w ++ rest st' /\ all_chars content_ok w = true
            /\ rs = (map (fun c => TStr (String c "")) (list_ascii_of_string w), []).
Proof.
  revert st rs st'. induction n as [|n IH]; intros st rs st' E.
  - injection E as <- <-. exists "". auto.
  - cbn [repeat] in E.
    destruct (content_char false st) as [[r st1]|] eqn:C.
    + destruct (content_char_inv _ _ _ C) as (c & R & Hc & ->).
      destruct (repeat (content_char false) n st1) as [rs1 st2] eqn:E1.
      injection E as <- <-.
      destruct (IH _ _ _ E1) as (w & R1 & Hw & ->).
      exists (String c w). rewrite R, R1. simpl. rewrite Hc, Hw. auto.
    + injection E as <- <-. exists "". auto.
Qed.

Lemma join_chars (w : string) :
  Py.join "" (asStringList (map (fun c => TStr (String c "")) (list_ascii_of_string w)))
  = w.
Proof.
  induction w as [|c w IH]; [reflexivity|].
  cbn [list_ascii_of_string map asStringList flat_map tok_strings app].
  rewrite join_empty_cons. fold (asStringList (map (fun c => TStr (String c ""))
                                                   (list_ascii_of_string w))).
  rewrite IH. reflexivity.
Qed.

(** A [content] token is a non-empty run of the input, stripped. *)
Lemma content_inv (skip : bool) (st : pstate) r st' :
  nested_content "<" ">" skip st = Some (r, st') ->
  exists w, r = ([TStr (Py.strip w)], []) /\ w <> ""
            /\ all_chars content_ok w = true
            /\ rest (preParse skip st) = w ++ rest st'.
Proof.
  unfold nested_content, setParseAction, Combine, OneOrMore.
  fold content_char. intros E.
  destruct (content_char false (preParse skip st)) as [[r1 st1]|] eqn:C; [|discriminate].
  destruct (content_char_inv _ _ _ C) as (c & R & Hc & ->).
  destruct (repeat (content_char false) _ st1) as [rs st2] eqn:E1.
  destruct (repeat_content_inv _ _ _ _ E1) as (w & R1 & Hw & ->).
  injection E as <- <-.
  exists (String c w). repeat split.
  - rewrite <- (join_chars (String c w)). reflexivity.
  - discriminate.
  - simpl. rewrite Hc, Hw. reflexivity.
  - rewrite R, R1. reflexivity.
Qed.

Lemma rstrip_id (w : string) : all_chars not_space w = true -> Py.rstrip w = w.
Proof.
  induction w as [|c w IH]; intros H; [reflexivity|].
  simpl in H. apply andb_prop in H. destruct H as [Hc Hw].
  cbn [Py.rstrip]. rewrite (IH Hw). destruct w; [|reflexivity].
  unfold not_space in Hc. destruct (Py.isspace c); [discriminate | reflexivity].
Qed.

Lemma strip_id (w : string) : all_chars not_space w = true -> Py.strip w = w.
Proof.
  intros H. unfold Py.strip.
  replace (Py.lstrip w) with w; [apply rstrip_id; exact H|].
  destruct w as [|c w]; [reflexivity|].
  simpl in H. apply andb_prop in H. destruct H as [Hc _].
  unfold not_space in Hc. cbn [Py.lstrip].
  destruct (Py.isspace c); [discriminate | reflexivity].
Qed.

Lemma all_chars_impl (P Q : ascii -> bool) (w : string) :
  (forall c, P c = true -> Q c = true) ->
  all_chars P w = true -> all_chars Q w = true.
Proof.
  intros I. induction w as [|c w IH]; [trivial|]. simpl. intros H.
  apply andb_prop in H. destruct H as [Hc Hw]. rewrite (I c Hc), (IH Hw). reflexivity.
Qed.

Lemma all_chars_and (P Q : ascii -> bool) (w : string) :
  all_chars P w = true -> all_chars Q w = true ->
  all_chars (fun c => P c && Q c) w = true.
Proof.
  induction w as [|c w IH]; [trivial|]. simpl. intros H1 H2.
  apply andb_prop in H1, H2. destruct H1 as [-> H1], H2 as [-> H2].
  rewrite (IH H1 H2). reflexivity.
Qed.

(** A character that is neither skipped by pyparsing nor odd whitespace
    is no whitespace for [strip]. *)
Lemma content_not_space (c : ascii) :
  content_ok c && no_odd_space c = true -> not_space c = true.
Proof.
  unfold content_ok, no_odd_space, odd_space, not_space. intros H.
  apply andb_prop in H. destruct H as [H1 H2].
  assert (W : Py.in_chars c DEFAULT_WHITE_CHARS = false).
  { cbn [append Py.in_chars] in H1. cbn [DEFAULT_WHITE_CHARS Py.in_chars].
    destruct (Ascii.eqb c "<"); [discriminate|].
    destruct (Ascii.eqb c ">"); [discriminate|].
    apply negb_true_iff in H1. exact H1. }
  rewrite W in H2. destruct (Py.isspace c); [discriminate | reflexivity].
Qed.


(** **** The shape of a rendered region *)

Section Shape.
(** [ok] holds of every character of the input; [elem] describes the
    tokens that [quotedString] and [content] then yield. *)
Variable ok : ascii -> bool.
Variable elem : string -> Prop.
Hypothesis quoted_elem :
  forall skip st r st',
    quotedString skip st = Some (r, st') ->
    all_chars ok (rest st) = true ->
    (exists w, r = ([TStr w], []) /\ elem w) /\ all_chars ok (rest st') = true.
Hypothesis content_elem :
  forall w, w <> "" -> all_chars content_ok w = true -> all_chars ok w = true ->
            elem (Py.strip w).

Lemma template_item_shape (f : nat) (st : pstate) r st' :
  nested_shape ok elem f ->
  template_item f true st = Some (r, st') ->
  all_chars ok (rest st) = true ->
  (exists w, r = ([TStr w], [])
             /\ (elem w \/ exists b, padded elem b /\ w = "<" ++ b ++ " >"))
  /\ all_chars ok (rest st') = true.
Proof.
  intros IH E H. unfold template_item in E. cbn [MatchFirst] in E.
  destruct (quotedString true st) as [[r1 st1]|] eqn:Q.
  { injection E as <- <-.
    destruct (quoted_elem _ _ _ _ Q H) as [(w & -> & Hw) H1]. eauto. }
  destruct (nestedExpr_with _ "<" ">" f true st) as [[r1 st1]|] eqn:N.
  { injection E as <- <-.
    destruct (IH _ _ _ _ N H) as [(b & Hb & ->) H1]. eauto 7. }
  destruct (nested_content "<" ">" true st) as [[r1 st1]|] eqn:C; [|discriminate].
  injection E as <- <-.
  destruct (content_inv _ _ _ _ C) as (w & -> & Hne & Hw & R).
  pose proof (preParse_ok ok true st H) as H0. rewrite R, all_chars_app in H0.
  apply andb_prop in H0. destruct H0 as [Hok H1]. eauto 7.
Qed.

Lemma repeat_shape (f n : nat) (st : pstate) rs st' :
  nested_shape ok elem f ->
  repeat (template_item f true) n st = (rs, st') ->
  all_chars ok (rest st) = true ->
  (exists ws, rs = (map TStr ws, []) /\ padded elem (pad ws))
  /\ all_chars ok (rest st') = true.
Proof.
  intros IH. revert st rs st'. induction n as [|n IHn]; intros st rs st' E H.
  - injection E as <- <-. split; [exists []; split; [reflexivity | constructor] | exact H].
  - cbn [repeat] in E.
    destruct (template_item f true st) as [[r st1]|] eqn:T.
    + destruct (template_item_shape _ _ _ _ IH T H) as [(w & -> & Hw) H1].
      destruct (repeat (template_item f true) n st1) as [rs1 st2] eqn:E1.
      injection E as <- <-.
      destruct (IHn _ _ _ E1 H1) as [(ws & -> & Hws) H2].
      split; [|exact H2]. exists (w :: ws). split; [reflexivity|].
      cbn [pad]. destruct Hw as [Hw|(b & Hb & ->)].
      * apply padded_token; assumption.
      * apply padded_nested; assumption.
    + injection E as <- <-.
      split; [exists []; split; [reflexivity | constructor] | exact H].
Qed.

Lemma ZeroOrMore_shape (f : nat) (st : pstate) rs st' :
  nested_shape ok elem f ->
  ZeroOrMore (template_item f) true st = Some (rs, st') ->
  all_chars ok (rest st) = true ->
  (exists ws, rs = (map TStr ws, []) /\ padded elem (pad ws))
  /\ all_chars ok (rest st') = true.
Proof.
  intros IH E H. unfold ZeroOrMore, OneOrMore in E.
  destruct (template_item f true st) as [[r st1]|] eqn:T.
  - destruct (repeat (template_item f true) _ st1) as [rs1 st2] eqn:E1.
    injection E as <- <-.
    destruct (template_item_shape _ _ _ _ IH T H) as [(w & -> & Hw) H1].
    destruct (repeat_shape _ _ _ _ _ IH E1 H1) as [(ws & -> & Hws) H2].
    split; [|exact H2]. exists (w :: ws). split; [reflexivity|].
    cbn [pad]. destruct Hw as [Hw|(b & Hb & ->)].
    + apply padded_token; assumption.
    + apply padded_nested; assumption.
  - injection E as <- <-. split.
    + exists []. split; [reflexivity | constructor].
    + apply (preParse_ok ok true). exact H.
Qed.

Lemma nested_shape_holds (f : nat) : nested_shape ok elem f.
Proof.
  induction f as [|f IH]; intros skip st r st' E H; [discriminate|].
  rewrite nested_unfold in E.
  destruct (Literal "<" skip st) as [[r1 st1]|] eqn:L1; [|discriminate].
  destruct (Literal_ok ok _ _ _ _ _ L1 H) as [_ H1].
  destruct (ZeroOrMore (template_item f) true st1) as [[rz st2]|] eqn:Z; [|discriminate].
  destruct (ZeroOrMore_shape _ _ _ _ IH Z H1) as [(ws & -> & Hws) H2].
  destruct (Literal ">" true st2) as [[r3 st3]|] eqn:L3; [|discriminate].
  destruct (Literal_ok ok _ _ _ _ _ L3 H2) as [_ H3].
  injection E as <- <-. split; [|exact H3].
  exists (pad ws). split; [exact Hws|].
  rewrite <- (normalise_templates_strings ws). reflexivity.
Qed.

(** The rendering that [angle_bracket_pair] yields. *)
Lemma angle_bracket_pair_shape (skip : bool) (st : pstate) r st' :
  angle_bracket_pair skip st = Some (r, st') ->
  all_chars ok (rest st) = true ->
  exists b, padded elem b /\ r = ([TStr ("<" ++ b ++ " >")], []).
Proof.
  unfold angle_bracket_pair, nestedExpr_action. intros E H.
  apply (nested_shape_holds _ _ _ _ _ E H).
Qed.

End Shape.


(** **** Tokens of a region without odd whitespace *)

Lemma all_chars_peek (P : ascii -> bool) (w : string) :
  w <> "" -> all_chars P w = true -> exists c, peek w = Some c /\ P c = true.
Proof.
  destruct w as [|c w]; [congruence|]. simpl. intros _ H.
  apply andb_prop in H. exists c. tauto.
Qed.

Lemma all_chars_last (P : ascii -> bool) (w : string) :
  w <> "" -> all_chars P w = true -> exists c, last_char w = Some c /\ P c = true.
Proof.
  induction w as [|c w IH]; [congruence|]. intros _ H. simpl in H.
  apply andb_prop in H. destruct H as [Hc Hw].
  destruct w as [|d w]; [exists c; auto|].
  destruct (IH ltac:(discriminate) Hw) as (e & He & HP). exists e. auto.
Qed.

Lemma not_space_not_blank (c : ascii) : not_space c = true -> c <> " "%char.
Proof. intros H ->. discriminate. Qed.

Lemma content_token_not_space (w : string) :
  all_chars content_ok w = true -> all_chars no_odd_space w = true ->
  all_chars not_space w = true.
Proof.
  intros H1 H2. apply (all_chars_impl _ _ _ content_not_space).
  apply all_chars_and; assumption.
Qed.

Lemma content_token_tight (w : string) :
  w <> "" -> all_chars content_ok w = true -> all_chars no_odd_space w = true ->
  tight (Py.strip w).
Proof.
  intros Hne H1 H2. pose proof (content_token_not_space w H1 H2) as H.
  rewrite (strip_id w H). split.
  - destruct (all_chars_peek _ w Hne H) as (c & E & Hc).
    exists c. split; [exact E | apply not_space_not_blank; exact Hc].
  - destruct (all_chars_last _ w Hne H) as (c & E & Hc).
    exists c. split; [exact E | apply not_space_not_blank; exact Hc].
Qed.







Lemma token_char_parts (c : ascii) :
  token_char c = true ->
  not_space c = true /\ c <> " "%char /\ is_bracket c = false.
Proof.
  unfold token_char, content_ok. intros H. apply andb_prop in H. destruct H as [H1 H2].
  split; [exact H2|]. split; [apply not_space_not_blank; exact H2|].
  cbn [append Py.in_chars] in H1. unfold is_bracket.
  destruct (Ascii.eqb c "<"); [discriminate|].
  destruct (Ascii.eqb c ">"); [discriminate | reflexivity].
Qed.








Lemma adjacent_cons (ok : ascii -> ascii -> bool) (c1 c2 : ascii) (s : string) :
  adjacent ok (String c1 (String c2 s)) = ok c1 c2 && adjacent ok (String c2 s).
Proof. reflexivity. Qed.

(** In a rendering of this form that holds no quote, no two spaces stand
    in a row, and a space stands after and before every bracket. *)
Lemma token_run (d : ascii) (w x : string) :
  all_chars token_char (String d w) = true ->
  (forall c, token_char c = true -> adjacent evenly_spaced (String c x) = true) ->
  adjacent evenly_spaced (String d (w ++ x)) = true.
Proof.
  revert d. induction w as [|c w IH]; intros d H Hx.
  - apply Hx. simpl in H. apply andb_prop in H. tauto.
  - simpl in H. apply andb_prop in H. destruct H as [Hd H].
    cbn [append]. rewrite adjacent_cons, (IH c H Hx), andb_true_r.
    pose proof (andb_prop _ _ H) as [Hc _].
    destruct (token_char_parts d Hd) as (_ & Hd1 & Hd2).
    destruct (token_char_parts c Hc) as (_ & Hc1 & Hc2).
    unfold evenly_spaced. rewrite Hd2, Hc2.
    apply Ascii.eqb_neq in Hd1. rewrite Hd1. reflexivity.
Qed.

Lemma evenly_spaced_before_space (c : ascii) :
  c <> " "%char -> evenly_spaced c " " = true.
Proof.
  intros H. apply Ascii.eqb_neq in H. unfold evenly_spaced. rewrite H.
  destruct (is_bracket c); reflexivity.
Qed.

Lemma padded_spacing (b : string) :
  padded region_element b -> all_chars no_quote b = true ->
  forall tail c,
    adjacent evenly_spaced (String " " (String ">" tail)) = true -> c <> " "%char ->
    adjacent evenly_spaced (String c (b ++ " >" ++ tail)) = true.
Proof.
  induction 1 as [|w b Hw Hb IH|inner b Hi IHi Hb IH]; intros Q tail c Ht Hc.
  - cbn [append]. rewrite adjacent_cons, Ht, (evenly_spaced_before_space c Hc). reflexivity.
  - cbn [append all_chars] in Q. rewrite all_chars_app in Q.
    apply andb_prop in Q. destruct Q as [_ Q]. apply andb_prop in Q. destruct Q as [Qw Qb].
    destruct Hw as [[Hne Hw]|(q & w' & Hq & -> & _)];
      [|cbn [all_chars] in Qw; unfold no_quote in Qw; rewrite Hq in Qw; discriminate].
    destruct w as [|d w]; [congruence|].
    replace (String c ((" " ++ String d w ++ b) ++ " >" ++ tail))
      with (String c (String " " (String d (w ++ (b ++ " >" ++ tail)))))
      by (cbn [append]; rewrite append_assoc; reflexivity).
    rewrite !adjacent_cons, (evenly_spaced_before_space c Hc).
    pose proof (andb_prop _ _ Hw) as [Hd _].
    destruct (token_char_parts d Hd) as (_ & Hd1 & Hd2).
    assert (Hsd : evenly_spaced " " d = true).
    { unfold evenly_spaced. rewrite Hd2. apply Ascii.eqb_neq in Hd1. rewrite Hd1.
      reflexivity. }
    rewrite Hsd. cbn [andb].
    apply (token_run d w _ Hw). intros e He.
    apply (IH Qb tail e Ht). apply (token_char_parts e He).
  - cbn [append all_chars] in Q. rewrite !all_chars_app in Q.
    apply andb_prop in Q. destruct Q as [_ Q]. apply andb_prop in Q. destruct Q as [_ Q].
    apply andb_prop in Q. destruct Q as [Q Qb]. apply andb_prop in Q. destruct Q as [Qi _].
    replace (String c ((" " ++ ("<" ++ inner ++ " >") ++ b) ++ " >" ++ tail))
      with (String c (String " " (String "<" (inner ++ " >" ++ (b ++ " >" ++ tail)))))
      by (cbn [append]; rewrite !append_assoc; reflexivity).
    rewrite !adjacent_cons, (evenly_spaced_before_space c Hc).
    change (evenly_spaced " " "<") with true. cbn [andb].
    apply (IHi Qi); [|discriminate].
    rewrite adjacent_cons. change (evenly_spaced " " ">") with true. cbn [andb].
    apply (IH Qb tail ">"%char Ht). discriminate.
Qed.

Lemma rendering_evenly_spaced (b : string) :
  padded region_element b -> all_chars no_quote b = true ->
  adjacent evenly_spaced ("<" ++ b ++ " >") = true.
Proof.
  intros Hb Q. apply (padded_spacing b Hb Q "" "<"%char); [reflexivity | discriminate].
Qed.

(** So none of these texts is the rendering of a region: three spaces
    between two elements, nested regions without a space, and two spaces
    inside a nested region. *)
Example renderings_ruled_out :
  ~ padded region_element " a   b"
  /\ ~ padded region_element " a<b<c>> d"
  /\ ~ padded region_element " a <  b  > c".
Proof.
  repeat split; intros H; apply rendering_evenly_spaced in H; try reflexivity;
    discriminate H.
Qed.

(** Handed a nested list, which the grammar does not build because the
    parse action has already rendered the inner regions,
    [normalise_templates] puts no space before an inner region. *)
Example normalise_templates_of_nested_list :
  normalise_templates (PList [PStr "a"; PList [PStr "b"]; PStr "c"]) = "< a< b > c >".
Proof. reflexivity. Qed.


(** **** Parsing a rendering again *)

Lemma quotedString_none (skip : bool) (st : pstate) :
  (forall c, peek (rest (preParse skip st)) = Some c -> is_quote c = false) ->
  quotedString skip st = None.
Proof.
  intros H. unfold quotedString, Combine. cbn [MatchFirst].
  unfold And, Regex_quoted, token. cbn [preParse].
  destruct (rest (preParse skip st)) as [|c s]; [reflexivity|].
  specialize (H c eq_refl). unfold is_quote in H. apply orb_false_elim in H.
  destruct H as [-> ->]. reflexivity.
Qed.

Lemma plain_peek (s : string) (c : ascii) :
  all_chars plain s = true -> peek s = Some c -> is_quote c = false.
Proof.
  destruct s as [|d s]; [discriminate|]. simpl. intros H E. injection E as ->.
  apply andb_prop in H. destruct H as [H _]. unfold plain in H.
  apply andb_prop in H. destruct H as [H _]. apply negb_true_iff in H. exact H.
Qed.

(** No quoted string starts in a text without quotes. *)
Lemma quotedString_plain (skip : bool) (st : pstate) :
  all_chars plain (rest st) = true -> quotedString skip st = None.
Proof.
  intros H. apply quotedString_none. intros c E.
  apply (plain_peek _ _ (preParse_ok plain skip st H) E).
Qed.

Lemma word_char_parts (c : ascii) :
  word_char c = true ->
  content_ok c = true /\ is_quote c = false /\ not_space c = true.
Proof.
  unfold word_char, content_ok, not_space. intros H.
  apply andb_prop in H. destruct H as [H H3]. apply andb_prop in H. destruct H as [H1 H2].
  apply negb_true_iff in H2. auto.
Qed.

Lemma content_ok_parts (c : ascii) :
  content_ok c = true ->
  Ascii.eqb "<" c = false /\ Py.in_chars c DEFAULT_WHITE_CHARS = false.
Proof.
  unfold content_ok. cbn [append Py.in_chars]. intros H.
  rewrite (Ascii.eqb_sym "<" c).
  destruct (Ascii.eqb c "<"); [discriminate|].
  destruct (Ascii.eqb c ">"); [discriminate|].
  apply negb_true_iff in H. auto.
Qed.

Lemma content_char_step (p : option ascii) (c : ascii) (s : string) :
  content_ok c = true -> is_quote c = false ->
  content_char false (mkState p (String c s))
  = Some (([TStr (String c "")], []), mkState (Some c) s).
Proof.
  intros H Q. unfold content_char, And, NotAny.
  rewrite quotedString_none.
  - unfold CharsNotIn1, token. cbn [preParse rest]. unfold content_ok in H.
    apply negb_true_iff in H. rewrite H. reflexivity.
  - cbn. intros c' E. injection E as <-. exact Q.
Qed.

Lemma content_char_stop (p : option ascii) (s : string) :
  content_char false (mkState p (String " " s)) = None.
Proof. reflexivity. Qed.

Lemma repeat_content_word (w : string) :
  forall n p t,
    all_chars word_char w = true -> String.length w < n ->
    exists p',
      repeat (content_char false) n (mkState p (w ++ String " " t))
      = ((map (fun c => TStr (String c "")) (list_ascii_of_string w), []),
         mkState p' (String " " t)).
Proof.
  induction w as [|c w IH]; intros n p t H L.
  - destruct n; [inversion L|]. exists p. reflexivity.
  - destruct n; [inversion L|]. simpl in H. apply andb_prop in H. destruct H as [Hc Hw].
    destruct (word_char_parts c Hc) as (H1 & H2 & _).
    destruct (IH n (Some c) t Hw ltac:(simpl in L; lia)) as [p' E].
    exists p'. cbn [repeat append]. rewrite content_char_step by assumption.
    rewrite E. reflexivity.
Qed.

Lemma skip_white_stop (p : option ascii) (c : ascii) (s : string) :
  Py.in_chars c DEFAULT_WHITE_CHARS = false ->
  skip_white p (String c s) = mkState p (String c s).
Proof. intros H. cbn [skip_white]. rewrite H. reflexivity. Qed.

Lemma word_not_space (w : string) :
  all_chars word_char w = true -> all_chars not_space w = true.
Proof. apply all_chars_impl. intros c H. apply (word_char_parts c H). Qed.

(** A word before a space is one [content] token. *)
Lemma content_word (w : string) (p : option ascii) (t : string) :
  word w ->
  exists p',
    nested_content "<" ">" true (mkState p (String " " (w ++ String " " t)))
    = Some (([TStr w], []), mkState p' (String " " t)).
Proof.
  intros [Hne Hw]. destruct w as [|c w]; [congruence|].
  pose proof (word_not_space _ Hw) as Hs.
  simpl in Hw. apply andb_prop in Hw. destruct Hw as [Hc Hw].
  destruct (word_char_parts c Hc) as (H1 & H2 & _).
  destruct (content_ok_parts c H1) as [_ Hwhite].
  destruct (repeat_content_word w (S (String.length (w ++ String " " t))) (Some c) t Hw)
    as [p' E].
  { rewrite length_append. lia. }
  exists p'. unfold nested_content, setParseAction, Combine, OneOrMore.
  fold content_char. cbn [preParse prev rest append].
  change (skip_white p (String " " (String c (w ++ String " " t))))
    with (skip_white (Some " "%char) (String c (w ++ String " " t))).
  rewrite skip_white_stop by exact Hwhite.
  rewrite content_char_step by assumption. cbn [rest]. rewrite E.
  cbn [add fst snd app].
  change (TStr (String c "") :: map (fun c0 => TStr (String c0 "")) (list_ascii_of_string w))
    with (map (fun c0 => TStr (String c0 "")) (list_ascii_of_string (String c w))).
  rewrite join_chars. cbn [tok_str]. rewrite (strip_id _ Hs). reflexivity.
Qed.

Lemma nested_not_opening (f : nat) (p : option ascii) (c : ascii) (s : string) :
  Ascii.eqb "<" c = false -> Py.in_chars c DEFAULT_WHITE_CHARS = false ->
  nestedExpr_with turn_parseresults_to_list "<" ">" f true
                  (mkState p (String " " (String c s))) = None.
Proof.
  intros H W. destruct f; [reflexivity|]. rewrite nested_unfold.
  unfold Literal, token. cbn [preParse prev rest].
  change (skip_white p (String " " (String c s)))
    with (skip_white (Some " "%char) (String c s)).
  rewrite skip_white_stop by exact W. cbn [consume prev rest]. rewrite H. reflexivity.
Qed.

(** A word after a space, before a space, is one element of the region. *)
Lemma template_item_word (w : string) (f : nat) (p : option ascii) (t : string) :
  word w ->
  exists p',
    template_item f true (mkState p (String " " (w ++ String " " t)))
    = Some (([TStr w], []), mkState p' (String " " t)).
Proof.
  intros Hw. destruct (content_word w p t Hw) as [p' E]. exists p'.
  destruct Hw as [Hne Hw]. destruct w as [|c w]; [congruence|].
  simpl in Hw. apply andb_prop in Hw. destruct Hw as [Hc _].
  destruct (word_char_parts c Hc) as (H1 & H2 & _).
  destruct (content_ok_parts c H1) as [Hopen Hwhite].
  unfold template_item. cbn [MatchFirst].
  rewrite quotedString_none.
  - cbn [append] in *. rewrite nested_not_opening by assumption. rewrite E. reflexivity.
  - cbn [preParse prev rest append].
    change (skip_white p (String " " (String c (w ++ String " " t))))
      with (skip_white (Some " "%char) (String c (w ++ String " " t))).
    rewrite skip_white_stop by exact Hwhite. cbn. intros c' Ec. injection Ec as <-.
    exact H2.
Qed.

(** No element starts at the closing [" >"]. *)
Lemma template_item_close (f : nat) (p : option ascii) (t : string) :
  template_item f true (mkState p (String " " (String ">" t))) = None.
Proof. destruct f; reflexivity. Qed.

Lemma padded_starts (elem : string -> Prop) (b tail : string) :
  padded elem b -> exists t, b ++ " >" ++ tail = String " " t.
Proof. intros []; cbn [append]; eauto. Qed.


Lemma loops_nil : loop_at "" /\ body_at "".
Proof.
  split.
  - intros f n p tail _ L. destruct n; [inversion L|].
    exists [], p. cbn [append repeat]. rewrite template_item_close. auto.
  - intros f p tail _. exists [], (mkState (Some " "%char) (">" ++ tail)).
    cbn [append]. unfold ZeroOrMore, OneOrMore. rewrite template_item_close.
    auto.
Qed.

Lemma loops_cons (elem : string -> Prop) (e b : string) :
  step_at e -> padded elem b -> loop_at b ->
  loop_at (" " ++ e ++ b) /\ body_at (" " ++ e ++ b).
Proof.
  intros Hstep Hb Hloop.
  assert (Shape : forall tail, exists t,
             b ++ " >" ++ tail = String " " t
             /\ (" " ++ e ++ b) ++ " >" ++ tail = String " " (e ++ String " " t)).
  { intros tail. destruct (padded_starts elem b tail Hb) as [t Ht]. exists t.
    split; [exact Ht|]. rewrite <- Ht. cbn [append]. rewrite append_assoc. reflexivity. }
  assert (Len : String.length (" " ++ e ++ b) = S (String.length e + String.length b)).
  { cbn [append String.length]. rewrite length_append. reflexivity. }
  split.
  - intros f n p tail Hf Hn. rewrite Len in Hf, Hn.
    destruct n as [|n]; [inversion Hn|].
    destruct (Shape tail) as (t & Ht & ->).
    destruct (Hstep f p t ltac:(lia)) as [p1 E1].
    destruct (Hloop f n p1 tail ltac:(lia) ltac:(lia)) as (ws & p' & E & Hws).
    exists (e :: ws), p'. cbn [repeat]. rewrite E1, <- Ht, E.
    split; [reflexivity|]. cbn [pad]. rewrite Hws. reflexivity.
  - intros f p tail Hf. rewrite Len in Hf.
    destruct (Shape tail) as (t & Ht & ->).
    destruct (Hstep f p t ltac:(lia)) as [p1 E1].
    destruct (Hloop f (S (String.length (String " " t))) p1 tail ltac:(lia))
      as (ws & p' & E & Hws).
    { rewrite <- Ht, length_append. lia. }
    exists (e :: ws), (mkState p' (" >" ++ tail)).
    unfold ZeroOrMore, OneOrMore. rewrite E1. cbn [rest]. rewrite <- Ht at 2. rewrite E.
    split; [reflexivity|]. split; [cbn [pad]; rewrite Hws; reflexivity | reflexivity].
Qed.

(** A rendered region after a space, before a space, is one element. *)
Lemma step_nested (inner : string) :
  body_at inner -> step_at ("<" ++ inner ++ " >").
Proof.
  intros Hbody f p t Hf.
  assert (L : String.length ("<" ++ inner ++ " >") = String.length inner + 3).
  { cbn [append String.length]. rewrite length_append. simpl. lia. }
  rewrite L in Hf. destruct f as [|f]; [inversion Hf|].
  destruct (Hbody f (Some "<"%char) (String " " t) ltac:(lia))
    as (ws & st2 & Z & Hws & Lclose).
  exists (Some ">"%char). unfold template_item. cbn [MatchFirst].
  rewrite quotedString_none.
  - rewrite nested_unfold.
    replace (("<" ++ inner ++ " >") ++ String " " t)
      with (String "<" (inner ++ " >" ++ String " " t))
      by (cbn [append]; rewrite append_assoc; reflexivity).
    change (Literal "<" true (mkState p (String " " (String "<" (inner ++ " >" ++ String " " t)))))
      with (Some (([TStr "<"], []) : ParseResults,
                  mkState (Some "<"%char) (inner ++ " >" ++ String " " t))).
    cbv iota beta. rewrite Z, Lclose. cbn [fst].
    rewrite normalise_templates_strings, Hws. reflexivity.
  - cbn. intros c E. injection E as <-. reflexivity.
Qed.

Lemma step_word (w : string) : word w -> step_at w.
Proof. intros Hw f p t _. apply template_item_word. exact Hw. Qed.

Lemma loops (b : string) : padded word b -> loop_at b /\ body_at b.
Proof.
  induction 1 as [|w b Hw Hb [IHl _]|inner b Hi [_ IHi] Hb [IHl _]].
  - apply loops_nil.
  - apply (loops_cons word); [apply step_word; exact Hw | exact Hb | exact IHl].
  - apply (loops_cons word); [apply step_nested; exact IHi | exact Hb | exact IHl].
Qed.

Lemma expandtabs_no_tab (s : string) :
  all_chars no_tab s = true -> forall column, Py.expandtabs_from column s = s.
Proof.
  induction s as [|c s IH]; intros H column; [reflexivity|].
  simpl in H. apply andb_prop in H. destruct H as [Hc Hs].
  unfold no_tab in Hc. apply negb_true_iff in Hc.
  cbn [Py.expandtabs_from]. rewrite Hc.
  destruct (Ascii.eqb c "010" || Ascii.eqb c "013"); rewrite (IH Hs); reflexivity.
Qed.

Lemma word_char_no_tab (c : ascii) : word_char c = true -> no_tab c = true.
Proof.
  intros H. destruct (word_char_parts c H) as (H1 & _ & _).
  destruct (content_ok_parts c H1) as [_ W]. unfold no_tab.
  destruct (Ascii.eqb c "009") eqn:E; [|reflexivity].
  apply Ascii.eqb_eq in E. subst c. discriminate.
Qed.

Lemma padded_word_no_tab (b : string) :
  padded word b -> all_chars no_tab b = true.
Proof.
  induction 1 as [|w b [_ Hw] _ IH|inner b _ IHi _ IH]; [reflexivity| |].
  - cbn [append all_chars].
    rewrite all_chars_app, (all_chars_impl _ _ _ word_char_no_tab Hw), IH. reflexivity.
  - cbn [append all_chars]. rewrite !all_chars_app, IHi, IH. reflexivity.
Qed.

(** Parsing the rendering of a region of words gives the rendering. *)
Lemma rendering_roundtrip (b : string) :
  padded word b ->
  parseString angle_bracket_pair ("<" ++ b ++ " >") = Some ([TStr ("<" ++ b ++ " >")], []).
Proof.
  intros Hb. destruct (loops b Hb) as [_ Hbody].
  destruct (Hbody (S (String.length (b ++ " >"))) (Some "<"%char) "")
    as (ws & st2 & Z & Hws & Lclose).
  { rewrite length_append. lia. }
  unfold parseString, Py.expandtabs.
  rewrite expandtabs_no_tab
    by (cbn [append all_chars]; rewrite all_chars_app, (padded_word_no_tab b Hb);
        reflexivity).
  unfold angle_bracket_pair, nestedExpr_action, start.
  cbn [rest append String.length]. rewrite nested_unfold.
  change (Literal "<" true (mkState None (String "<" (b ++ " >"))))
    with (Some (([TStr "<"], []) : ParseResults, mkState (Some "<"%char) (b ++ " >"))).
  cbv iota beta. cbn [append] in Z. rewrite Z, Lclose. cbn [fst].
  rewrite normalise_templates_strings, Hws. reflexivity.
Qed.


Lemma plain_no_odd_space (c : ascii) : plain c = true -> no_odd_space c = true.
Proof. unfold plain, no_odd_space. intros H. apply andb_prop in H. tauto. Qed.

Lemma content_token_word (w : string) :
  w <> "" -> all_chars content_ok w = true -> all_chars plain w = true ->
  word (Py.strip w).
Proof.
  intros Hne H1 H2.
  pose proof (all_chars_impl _ _ _ plain_no_odd_space H2) as H3.
  pose proof (content_token_not_space w H1 H3) as H4.
  rewrite (strip_id w H4). split; [exact Hne|].
  apply (all_chars_impl (fun c => (content_ok c && plain c) && not_space c)).
  - intros c H. apply andb_prop in H. destruct H as [H Hs].
    apply andb_prop in H. destruct H as [Hc Hp].
    unfold plain in Hp. apply andb_prop in Hp. destruct Hp as [Hq _].
    unfold word_char. unfold content_ok in Hc. unfold not_space in Hs.
    rewrite Hc, Hq, Hs. reflexivity.
  - apply all_chars_and; [apply all_chars_and|]; assumption.
Qed.

Lemma quotedString_plain_elem (skip : bool) (st : pstate) r st' :
  quotedString skip st = Some (r, st') ->
  all_chars plain (rest st) = true ->
  (exists w, r = ([TStr w], []) /\ word w) /\ all_chars plain (rest st') = true.
Proof. intros E H. rewrite (quotedString_plain skip st H) in E. discriminate. Qed.

(** A region without quotes and without odd whitespace renders to a text
    that renders to itself. *)
Lemma rendering_idempotent_plain (skip : bool) (st : pstate) r st' :
  all_chars plain (rest st) = true ->
  angle_bracket_pair skip st = Some (r, st') ->
  exists rendering,
    r = ([TStr rendering], [])
    /\ parseString angle_bracket_pair rendering = Some ([TStr rendering], []).
Proof.
  intros H E.
  destruct (angle_bracket_pair_shape plain word quotedString_plain_elem
              content_token_word skip st r st' E H) as (b & Hb & ->).
  exists ("<" ++ b ++ " >"). split; [reflexivity|].
  apply rendering_roundtrip. exact Hb.
Qed.

(** *** The loops of the grammar never run out of fuel *)

Lemma consuming_steady (p : parser) : consuming p -> steady p.
Proof. intros H st r st' E. specialize (H st r st' E). lia. Qed.

Lemma consuming_e_steady (e : element) : consuming_e e -> steady_e e.
Proof. intros H skip. apply consuming_steady, H. Qed.

(** With a consuming body, a loop that is given more fuel than there are
    characters left ends because the body no longer matches: more fuel
    changes nothing. *)
Lemma repeat_fuel (p : parser) :
  consuming p ->
  forall n m st,
    String.length (rest st) < n -> String.length (rest st) < m ->
    repeat p n st = repeat p m st.
Proof.
  intros Hp. induction n as [|n IH]; intros m st Hn Hm; [inversion Hn|].
  destruct m as [|m]; [inversion Hm|]. cbn [repeat].
  destruct (p st) as [[r st1]|] eqn:E; [|reflexivity].
  pose proof (Hp _ _ _ E) as L.
  rewrite (IH m st1) by lia. reflexivity.
Qed.

Lemma repeat_steady (p : parser) (n : nat) (st : pstate) :
  steady p -> String.length (rest (snd (repeat p n st))) <= String.length (rest st).
Proof.
  intros Hp. revert st. induction n as [|n IH]; intros st; [simpl; lia|].
  cbn [repeat]. destruct (p st) as [[r st1]|] eqn:E; [|simpl; lia].
  pose proof (Hp _ _ _ E) as L. specialize (IH st1).
  destruct (repeat p n st1) as [rs st2]. simpl in *. lia.
Qed.

Lemma skip_white_le (p : option ascii) (s : string) :
  String.length (rest (skip_white p s)) <= String.length s.
Proof.
  revert p. induction s as [|c s IH]; intros p; [simpl; lia|].
  cbn [skip_white]. destruct (Py.in_chars c DEFAULT_WHITE_CHARS).
  - specialize (IH (Some c)). simpl. lia.
  - simpl. lia.
Qed.

Lemma preParse_le (skip : bool) (st : pstate) :
  String.length (rest (preParse skip st)) <= String.length (rest st).
Proof. destruct skip; [apply skip_white_le | simpl; lia]. Qed.

Lemma consume_length (m : string) (p : option ascii) (s : string) (st' : pstate) :
  consume m p s = Some st' ->
  String.length (rest st') + String.length m = String.length s.
Proof.
  revert p s. induction m as [|a m IH]; intros p s E.
  - injection E as <-. simpl. lia.
  - destruct s as [|b s]; [discriminate|]. cbn [consume] in E.
    destruct (Ascii.eqb a b); [|discriminate].
    specialize (IH _ _ E). simpl. lia.
Qed.

Lemma span_length (chars : string) (p : option ascii) (s : string) :
  String.length (rest (snd (span chars p s))) + String.length (fst (span chars p s))
  = String.length s.
Proof.
  revert p. induction s as [|c s IH]; intros p; [reflexivity|].
  cbn [span]. destruct (Py.in_chars c chars); [|simpl; lia].
  specialize (IH (Some c)). destruct (span chars (Some c) s) as [w st]. simpl in *. lia.
Qed.

Lemma quoted_star_le (q : ascii) (fuel : nat) (p : option ascii) (s : string) :
  String.length (rest (snd (quoted_star q fuel p s))) <= String.length s.
Proof.
  revert p s. induction fuel as [|f IH]; intros p s; [simpl; lia|].
  cbn [quoted_star]. destruct s as [|c s1]; [simpl; lia|].
  destruct (Ascii.eqb c q).
  - destruct s1 as [|c2 s2]; [simpl; lia|].
    destruct (Ascii.eqb c2 q); [|simpl; lia].
    specialize (IH (Some c2) s2). destruct (quoted_star q f (Some c2) s2).
    simpl in *. lia.
  - destruct (Ascii.eqb c "\").
    + destruct s1 as [|c2 s2]; [simpl; lia|].
      destruct (Ascii.eqb c2 "x").
      * pose proof (span_length hexnums (Some c2) s2) as Hs.
        destruct (span hexnums (Some c2) s2) as [h st1].
        destruct h; [simpl; lia|].
        specialize (IH (prev st1) (rest st1)).
        destruct (quoted_star q f (prev st1) (rest st1)). simpl in *. lia.
      * specialize (IH (Some c2) s2).
        destruct (quoted_star q f (Some c2) s2). simpl in *. lia.
    + destruct (Ascii.eqb c "010" || Ascii.eqb c "013"); [simpl; lia|].
      specialize (IH (Some c) s1).
      destruct (quoted_star q f (Some c) s1). simpl in *. lia.
Qed.

Lemma skip_until_le (e : parser) (p : option ascii) (s : string) t st' :
  skip_until e p s = Some (t, st') -> String.length (rest st') <= String.length s.
Proof.
  revert p t st'. induction s as [|c s IH]; intros p t st' E; cbn [skip_until] in E.
  - destruct (e (mkState p "")); [|discriminate]. injection E as <- <-. simpl. lia.
  - destruct (e (mkState p (String c s))).
    + injection E as <- <-. simpl. lia.
    + destruct (skip_until e (Some c) s) as [[t1 st1]|] eqn:E1; [|discriminate].
      injection E as <- <-. specialize (IH _ _ _ E1). simpl. lia.
Qed.

Lemma token_consuming (impl : pstate -> option (string * pstate)) :
  (forall st s st', impl st = Some (s, st') ->
                    String.length (rest st') < String.length (rest st)) ->
  consuming_e (token impl).
Proof.
  intros H skip st r st' E. unfold token in E.
  destruct (impl (preParse skip st)) as [[s st1]|] eqn:I; [|discriminate].
  injection E as <- <-. pose proof (H _ _ _ I). pose proof (preParse_le skip st). lia.
Qed.

Lemma token_steady (impl : pstate -> option (string * pstate)) :
  (forall st s st', impl st = Some (s, st') ->
                    String.length (rest st') <= String.length (rest st)) ->
  steady_e (token impl).
Proof.
  intros H skip st r st' E. unfold token in E.
  destruct (impl (preParse skip st)) as [[s st1]|] eqn:I; [|discriminate].
  injection E as <- <-. pose proof (H _ _ _ I). pose proof (preParse_le skip st). lia.
Qed.

Lemma Literal_consuming (m : string) : m <> "" -> consuming_e (Literal m).
Proof.
  intros Hm. apply token_consuming. intros st s st' E.
  destruct (consume m (prev st) (rest st)) as [st1|] eqn:C; [|discriminate].
  injection E as <- <-. pose proof (consume_length _ _ _ _ C).
  destruct m; [congruence|]. simpl in *. lia.
Qed.

Lemma Keyword_consuming (m : string) : m <> "" -> consuming_e (Keyword m).
Proof.
  intros Hm. apply token_consuming. intros st s st' E.
  destruct (consume m (prev st) (rest st)) as [st1|] eqn:C; [|discriminate].
  destruct (is_ident (peek (rest st1)) || is_ident (prev st)); [discriminate|].
  injection E as <- <-. pose proof (consume_length _ _ _ _ C).
  destruct m; [congruence|]. simpl in *. lia.
Qed.

Lemma Word_consuming (chars : string) : consuming_e (Word chars).
Proof.
  apply token_consuming. intros st s st' E.
  pose proof (span_length chars (prev st) (rest st)) as L.
  destruct (span chars (prev st) (rest st)) as [w st1].
  destruct w; [discriminate|]. injection E as <- <-. simpl in *. lia.
Qed.

Lemma CharsNotIn1_consuming (chars : string) : consuming_e (CharsNotIn1 chars).
Proof.
  apply token_consuming. intros st s st' E.
  destruct (rest st) as [|c s']; [discriminate|].
  destruct (Py.in_chars c chars); [discriminate|].
  injection E as <- <-. simpl. lia.
Qed.

Lemma Regex_quoted_consuming (q : ascii) : consuming_e (Regex_quoted q).
Proof.
  apply token_consuming. intros st s st' E.
  destruct (rest st) as [|c s']; [discriminate|].
  destruct (Ascii.eqb c q); [|discriminate].
  pose proof (quoted_star_le q (String.length s') (Some c) s') as L.
  destruct (quoted_star q (String.length s') (Some c) s') as [w st1].
  injection E as <- <-. simpl in *. lia.
Qed.

Lemma SkipTo_steady (e : element) : steady_e (SkipTo e).
Proof.
  apply token_steady. intros st s st' E. apply (skip_until_le _ _ _ _ _ E).
Qed.

Lemma And_consuming_l (a b : element) :
  consuming_e a -> steady_e b -> consuming_e (And a b).
Proof.
  intros Ha Hb skip st r st' E. unfold And in E.
  destruct (a skip st) as [[ra st1]|] eqn:A; [|discriminate].
  destruct (b skip st1) as [[rb st2]|] eqn:B; [|discriminate].
  injection E as <- <-. pose proof (Ha _ _ _ _ A). pose proof (Hb _ _ _ _ B). lia.
Qed.

Lemma And_consuming_r (a b : element) :
  steady_e a -> consuming_e b -> consuming_e (And a b).
Proof.
  intros Ha Hb skip st r st' E. unfold And in E.
  destruct (a skip st) as [[ra st1]|] eqn:A; [|discriminate].
  destruct (b skip st1) as [[rb st2]|] eqn:B; [|discriminate].
  injection E as <- <-. pose proof (Ha _ _ _ _ A). pose proof (Hb _ _ _ _ B). lia.
Qed.

Lemma And_steady (a b : element) : steady_e a -> steady_e b -> steady_e (And a b).
Proof.
  intros Ha Hb skip st r st' E. unfold And in E.
  destruct (a skip st) as [[ra st1]|] eqn:A; [|discriminate].
  destruct (b skip st1) as [[rb st2]|] eqn:B; [|discriminate].
  injection E as <- <-. pose proof (Ha _ _ _ _ A). pose proof (Hb _ _ _ _ B). lia.
Qed.

Lemma MatchFirst_consuming (es : list element) :
  Forall consuming_e es -> consuming_e (MatchFirst es).
Proof.
  induction 1 as [|e es He _ IH]; intros skip st r st' E; [discriminate|].
  cbn [MatchFirst] in E. destruct (e skip st) as [x|] eqn:A.
  - injection E as ->. apply (He _ _ _ _ A).
  - apply (IH _ _ _ _ E).
Qed.

Lemma longest_consuming (es : list element) (skip : bool) (st : pstate) best r st' :
  Forall consuming_e es ->
  (forall r0 st0, best = Some (r0, st0) ->
                  String.length (rest st0) < String.length (rest st)) ->
  longest es skip st best = Some (r, st') ->
  String.length (rest st') < String.length (rest st).
Proof.
  intros H. revert best. induction H as [|e es He _ IH]; intros best Hbest E.
  - apply (Hbest _ _ E).
  - cbn [longest] in E. refine (IH _ _ E). clear E.
    intros r0 st0 E0.
    destruct (e skip st) as [[r1 st1]|] eqn:A.
    + pose proof (He _ _ _ _ A) as L1.
      destruct best as [[rb stb]|].
      * destruct (Nat.ltb _ _); injection E0 as <- <-; [exact L1 | apply (Hbest _ _ eq_refl)].
      * injection E0 as <- <-. exact L1.
    + apply (Hbest _ _ E0).
Qed.

Lemma Or_consuming (es : list element) : Forall consuming_e es -> consuming_e (Or es).
Proof.
  intros H skip st r st' E. apply (longest_consuming es skip st None r st' H); [|exact E].
  discriminate.
Qed.

Lemma Optional_steady (e : element) : steady_e e -> steady_e (Optional e).
Proof.
  intros He skip st r st' E. unfold Optional in E.
  destruct (e skip st) as [x|] eqn:A.
  - injection E as ->. apply (He _ _ _ _ A).
  - injection E as <- <-. apply preParse_le.
Qed.

Lemma Optional_default_steady (e : element) (d : string) :
  steady_e e -> steady_e (Optional_default e d).
Proof.
  intros He skip st r st' E. unfold Optional_default in E.
  destruct (e skip st) as [x|] eqn:A.
  - injection E as ->. apply (He _ _ _ _ A).
  - injection E as <- <-. apply preParse_le.
Qed.

Lemma OneOrMore_consuming (e : element) : consuming_e e -> consuming_e (OneOrMore e).
Proof.
  intros He skip st r st' E. unfold OneOrMore in E.
  destruct (e skip st) as [[r1 st1]|] eqn:A; [|discriminate].
  pose proof (He _ _ _ _ A) as L.
  pose proof (repeat_steady (e skip) (S (String.length (rest st1))) st1
                (consuming_steady _ (He skip))) as L2.
  destruct (repeat (e skip) _ st1) as [rs st2]. injection E as <- <-. simpl in L2. lia.
Qed.

Lemma ZeroOrMore_steady (e : element) : consuming_e e -> steady_e (ZeroOrMore e).
Proof.
  intros He skip st r st' E. unfold ZeroOrMore in E.
  destruct (OneOrMore e skip st) as [x|] eqn:A.
  - injection E as ->. apply consuming_steady in A; [exact A|].
    apply OneOrMore_consuming, He.
  - injection E as <- <-. apply preParse_le.
Qed.

Lemma NotAny_steady (e : element) : steady_e (NotAny e).
Proof.
  intros skip st r st' E. unfold NotAny in E.
  destruct (e skip st); [discriminate|]. injection E as <- <-. lia.
Qed.

Lemma Suppress_consuming (e : element) : consuming_e e -> consuming_e (Suppress e).
Proof.
  intros He skip st r st' E. unfold Suppress in E.
  destruct (e skip st) as [[r1 st1]|] eqn:A; [|discriminate].
  injection E as <- <-. apply (He _ _ _ _ A).
Qed.

Lemma Group_consuming (e : element) : consuming_e e -> consuming_e (Group e).
Proof.
  intros He skip st r st' E. unfold Group in E.
  destruct (e skip st) as [[[ts d] st1]|] eqn:A; [|discriminate].
  injection E as <- <-. apply (He _ _ _ _ A).
Qed.

Lemma Combine_consuming (e : element) : consuming_e e -> consuming_e (Combine e).
Proof.
  intros He skip st r st' E. unfold Combine in E.
  destruct (e false (preParse skip st)) as [[[ts d] st1]|] eqn:A; [|discriminate].
  injection E as <- <-. pose proof (He _ _ _ _ A). pose proof (preParse_le skip st). lia.
Qed.

Lemma setParseAction_consuming fn (e : element) :
  consuming_e e -> consuming_e (setParseAction fn e).
Proof.
  intros He skip st r st' E. unfold setParseAction in E.
  destruct (e skip st) as [[r1 st1]|] eqn:A; [|discriminate].
  injection E as <- <-. apply (He _ _ _ _ A).
Qed.

Lemma setResultsName_consuming (name : string) (e : element) :
  consuming_e e -> consuming_e (setResultsName name e).
Proof.
  intros He skip st r st' E. unfold setResultsName in E.
  destruct (e skip st) as [[[ts d] st1]|] eqn:A; [|discriminate].
  destruct ts; injection E as <- <-; apply (He _ _ _ _ A).
Qed.

Lemma setResultsName_steady (name : string) (e : element) :
  steady_e e -> steady_e (setResultsName name e).
Proof.
  intros He skip st r st' E. unfold setResultsName in E.
  destruct (e skip st) as [[[ts d] st1]|] eqn:A; [|discriminate].
  destruct ts; injection E as <- <-; apply (He _ _ _ _ A).
Qed.

Lemma setResultsName_list_consuming (name : string) (e : element) :
  consuming_e e -> consuming_e (setResultsName_list name e).
Proof.
  intros He skip st r st' E. unfold setResultsName_list in E.
  destruct (e skip st) as [[[ts d] st1]|] eqn:A; [|discriminate].
  destruct ts; injection E as <- <-; apply (He _ _ _ _ A).
Qed.

Create HintDb progress.

#[local] Hint Resolve
  Literal_consuming Keyword_consuming Word_consuming CharsNotIn1_consuming
  Regex_quoted_consuming SkipTo_steady And_consuming_l And_steady
  MatchFirst_consuming Or_consuming Optional_steady Optional_default_steady
  OneOrMore_consuming ZeroOrMore_steady NotAny_steady Suppress_consuming
  Group_consuming Combine_consuming setParseAction_consuming
  setResultsName_consuming setResultsName_steady setResultsName_list_consuming
  consuming_e_steady : progress.
#[local] Hint Constructors Forall : progress.
#[local] Hint Extern 1 (_ <> _) => discriminate : progress.

Lemma quotedString_consuming : consuming_e quotedString.
Proof. unfold quotedString. auto 10 with progress. Qed.

Lemma content_char_consuming : consuming_e content_char.
Proof. unfold content_char. apply And_consuming_r; auto with progress. Qed.

Lemma nested_content_consuming : consuming_e (nested_content "<" ">").
Proof.
  unfold nested_content. apply setParseAction_consuming, Combine_consuming,
    OneOrMore_consuming, content_char_consuming.
Qed.

Lemma template_item_consuming (f : nat) :
  consuming_e (nestedExpr_with turn_parseresults_to_list "<" ">" f) ->
  consuming_e (template_item f).
Proof.
  intros H. unfold template_item. apply MatchFirst_consuming.
  repeat constructor;
    [apply quotedString_consuming | exact H | apply nested_content_consuming].
Qed.

Lemma nestedExpr_consuming (f : nat) :
  consuming_e (nestedExpr_with turn_parseresults_to_list "<" ">" f).
Proof.
  induction f as [|f IH]; intros skip st r st' E; [discriminate|].
  rewrite nested_unfold in E.
  destruct (Literal "<" skip st) as [[r1 st1]|] eqn:L1; [|discriminate].
  pose proof (Literal_consuming "<" ltac:(discriminate) _ _ _ _ L1) as H1.
  destruct (ZeroOrMore (template_item f) true st1) as [[rz st2]|] eqn:Z; [|discriminate].
  pose proof (ZeroOrMore_steady _ (template_item_consuming f IH) _ _ _ _ Z) as H2.
  destruct (Literal ">" true st2) as [[r3 st3]|] eqn:L3; [|discriminate].
  pose proof (Literal_consuming ">" ltac:(discriminate) _ _ _ _ L3) as H3.
  injection E as <- <-. lia.
Qed.

Lemma angle_bracket_pair_consuming : consuming_e angle_bracket_pair.
Proof. intros skip st r st' E. apply (nestedExpr_consuming _ _ _ _ _ E). Qed.

#[local] Hint Resolve quotedString_consuming angle_bracket_pair_consuming : progress.

Lemma parentheses_pair_consuming : consuming_e parentheses_pair.
Proof. unfold parentheses_pair, LPAR, RPAR. auto 10 with progress. Qed.

Lemma square_bracket_pair_consuming : consuming_e square_bracket_pair.
Proof. unfold square_bracket_pair, LBRACK, RBRACK. auto 10 with progress. Qed.

Lemma input_type_consuming : consuming_e input_type.
Proof.
  unfold input_type, fundamental_input_type, nonfundamental_input_type.
  apply Or_consuming. repeat constructor.
  - apply OneOrMore_consuming, Or_consuming. repeat constructor; auto with progress.
  - apply Combine_consuming, And_consuming_l; auto 10 with progress.
Qed.

#[local] Hint Resolve parentheses_pair_consuming square_bracket_pair_consuming
  input_type_consuming : progress.

Lemma argument_consuming : consuming_e argument.
Proof.
  unfold argument, argument_type, qualifier, pointer_or_reference, input_name,
    default_value, number, ungroup, oneOf.
  apply Group_consuming. apply And_consuming_l; [apply And_consuming_l|].
  - apply setResultsName_list_consuming.
    apply And_consuming_l; [apply And_consuming_l; [apply And_consuming_l|]|].
    + apply And_consuming_r.
      * apply setResultsName_steady, Optional_default_steady, consuming_e_steady.
        do 2 apply setParseAction_consuming. apply OneOrMore_consuming, Or_consuming.
        repeat constructor; auto with progress.
      * auto with progress.
    + apply setResultsName_steady, Optional_default_steady, consuming_e_steady.
      cbn [map]. auto 10 with progress.
    + auto with progress.
    + apply setResultsName_steady, Optional_default_steady, consuming_e_steady.
      cbn [map]. auto 10 with progress.
  - apply Optional_steady, consuming_e_steady, OneOrMore_consuming, MatchFirst_consuming.
    repeat constructor; auto with progress.
  - apply Optional_steady, consuming_e_steady, And_consuming_l; [auto with progress|].
    apply consuming_e_steady, OneOrMore_consuming, MatchFirst_consuming.
    repeat constructor; auto with progress.
Qed.

(** X9. Every loop of the grammar has a body that consumes input: with the
    fuel that [OneOrMore] and [ZeroOrMore] give, one more than the
    characters left, each loop ends because its body fails to match, as
    the loop of pyparsing does ([repeat_fuel]). *)
Theorem grammar_loops_consume :
  consuming_e (Or [Keyword "const"; Keyword "typename"; Keyword "struct"; Keyword "enum"])
  /\ consuming_e (Or [Keyword "bool"; Keyword "short"; Keyword "int"; Keyword "long";
                      Keyword "signed"; Keyword "unsigned"; Keyword "char";
                      Keyword "float"; Keyword "double"])
  /\ consuming_e (MatchFirst [Word (alphanums ++ "_"); angle_bracket_pair;
                              parentheses_pair; square_bracket_pair])
  /\ consuming_e (MatchFirst [number; quotedString; input_type; parentheses_pair;
                              angle_bracket_pair; square_bracket_pair; Word "|&^"])
  /\ consuming_e (And (Suppress (Literal ",")) argument)
  /\ consuming_e content_char
  /\ (forall f, consuming_e (template_item f)).
Proof.
  repeat split.
  - apply Or_consuming. repeat constructor; auto with progress.
  - apply Or_consuming. repeat constructor; auto with progress.
  - apply MatchFirst_consuming. repeat constructor; auto with progress.
  - unfold number. apply MatchFirst_consuming. repeat constructor; auto with progress.
  - apply And_consuming_l; [auto with progress|].
    apply consuming_e_steady, argument_consuming.
  - apply content_char_consuming.
  - intros f. apply template_item_consuming, nestedExpr_consuming.
Qed.

Lemma repeat_agree (p q : parser) (k : nat) :
  (forall st, String.length (rest st) < k -> p st = q st) ->
  steady p ->
  forall n st, String.length (rest st) < k -> repeat p n st = repeat q n st.
Proof.
  intros Hpq Hp. induction n as [|n IH]; intros st L; [reflexivity|].
  cbn [repeat]. rewrite <- (Hpq st L).
  destruct (p st) as [[r st1]|] eqn:E; [|reflexivity].
  pose proof (Hp _ _ _ E). rewrite IH by lia. reflexivity.
Qed.

(** A level of nesting consumes its opener: with more fuel than there are
    characters left, [angle_bracket_pair] does not run out of fuel. *)
Lemma nested_fuel (f : nat) :
  forall skip st,
    String.length (rest st) < f ->
    nestedExpr_with turn_parseresults_to_list "<" ">" f skip st
    = nestedExpr_with turn_parseresults_to_list "<" ">" (S f) skip st.
Proof.
  induction f as [|f IH]; intros skip st L; [inversion L|].
  rewrite (nested_unfold f), (nested_unfold (S f)).
  destruct (Literal "<" skip st) as [[r1 st1]|] eqn:L1; [|reflexivity].
  pose proof (Literal_consuming "<" ltac:(discriminate) _ _ _ _ L1) as H1.
  assert (Item : forall st0, String.length (rest st0) < f ->
                             template_item f true st0 = template_item (S f) true st0).
  { intros st0 L0. unfold template_item. cbn [MatchFirst].
    rewrite (IH true st0 L0). reflexivity. }
  assert (Z : ZeroOrMore (template_item f) true st1
              = ZeroOrMore (template_item (S f)) true st1).
  { unfold ZeroOrMore, OneOrMore. rewrite <- (Item st1) by lia.
    destruct (template_item f true st1) as [[r0 st0]|] eqn:T; [|reflexivity].
    pose proof (template_item_consuming f (nestedExpr_consuming f) _ _ _ _ T) as H0.
    rewrite (repeat_agree (template_item f true) (template_item (S f) true) f Item)
      by (try apply consuming_steady, template_item_consuming, nestedExpr_consuming; lia).
    reflexivity. }
  rewrite Z. reflexivity.
Qed.

(** *** Further properties of [normalise] *)

Lemma startswith_char (c : ascii) (s : string) :
  Py.startswith (String c "") s = true -> exists t, s = String c t.
Proof.
  destruct s as [|d s]; [discriminate|]. simpl.
  destruct (Ascii.eqb c d) eqn:E; [|discriminate].
  apply Ascii.eqb_eq in E. subst d. eauto.
Qed.

Lemma empty_arglist_case_value (name region : string) (r : string * string) :
  empty_arglist_case name region = Some r ->
  r = (name, "()") \/ r = (name, "() const").
Proof.
  unfold empty_arglist_case. destruct (Py.startswith "()" region); [|discriminate].
  destruct (existsb _ _); [intros E; injection E as <-; auto|].
  destruct (existsb _ _); [intros E; injection E as <-; auto | discriminate].
Qed.

(** X1. What [normalise] returns: the name is the input up to its first
    ["("], unchanged; for a bare name the argument list is empty, and
    otherwise it is a text in parentheses, followed by [" const"] or by
    nothing. *)
Theorem normalise_result_shape (symbol name args : string) :
  normalise symbol = Return (name, args) ->
  exists region,
    symbol = name ++ region
    /\ Py.find "(" name = None
    /\ ((region = "" /\ args = "")
        \/ (Py.startswith "(" region = true
            /\ exists inner, args = "(" ++ inner ++ ")"
                             \/ args = "(" ++ inner ++ ") const")).
Proof.
  unfold normalise, normalise_with.
  destruct (Py.find "(" symbol) as [i|] eqn:F.
  - destruct (find_char_split _ _ _ F) as (a & b & -> & Ha & <-).
    rewrite slice_to_app, slice_from_app.
    destruct (empty_arglist_case a (String "(" b)) as [r|] eqn:C.
    + intros E. injection E as ->.
      exists (String "(" b). split; [|split; [|right; split; [reflexivity|]]].
      * destruct (empty_arglist_case_value _ _ _ C) as [E|E]; injection E as <- _;
          reflexivity.
      * destruct (empty_arglist_case_value _ _ _ C) as [E|E]; injection E as <- _;
          exact Ha.
      * exists "". destruct (empty_arglist_case_value _ _ _ C) as [E|E];
          injection E as _ ->; auto.
    + unfold parse_arglist. destruct (Py.rfind ")" (String "(" b)) as [j|]; [|discriminate].
      destruct (parseString arglist _) as [result|]; [|discriminate].
      rewrite build_result_canonical. intros E. injection E as <- <-.
      exists (String "(" b). split; [reflexivity|]. split; [exact Ha|].
      right. split; [reflexivity|]. unfold canonical_args.
      exists (Py.join ", " (map normalise_argument (arg_list_of result)
                            ++ (if var_args_of result then ["..."] else []))%list).
      destruct (Py.contains "const" _); [right | left].
      * cbn [append]. rewrite ?append_assoc. reflexivity.
      * cbn [append]. rewrite ?append_assoc, ?append_nil_r. reflexivity.
  - intros E. injection E as <- <-. exists "".
    rewrite append_nil_r. auto.
Qed.

Lemma normalise_result_shape_witness :
  exists region,
    "Foo::bar(const QString & s) const" = "Foo::bar" ++ region
    /\ Py.find "(" "Foo::bar" = None
    /\ ((region = "" /\ "(const QString&) const" = "")
        \/ (Py.startswith "(" region = true
            /\ exists inner, "(const QString&) const" = "(" ++ inner ++ ")"
                             \/ "(const QString&) const" = "(" ++ inner ++ ") const")).
Proof.
  apply (normalise_result_shape "Foo::bar(const QString & s) const"). reflexivity.
Defined.

Lemma empty_arglist_case_not_taken (name body tail : string) :
  Py.startswith ")" (body ++ ")") = false ->
  empty_arglist_case name (String "(" (body ++ String ")" tail)) = None.
Proof.
  intros H. unfold empty_arglist_case.
  replace (Py.startswith "()" (String "(" (body ++ String ")" tail))) with false;
    [reflexivity|].
  destruct body as [|c body]; [simpl in H; discriminate|].
  cbn [append Py.startswith] in *. rewrite Ascii.eqb_refl.
  destruct (Ascii.eqb ")" c); [discriminate | reflexivity].
Qed.

(** X2. What follows the last [")"] of a non-empty argument list counts
    only through whether it contains ["const"]: two inputs with the same
    name and arguments whose suffixes agree on that have the same outcome,
    so that [=0], [override], [final] or [noexcept] change nothing. *)
Theorem suffix_counts_through_const (name body suffix1 suffix2 : string) :
  Py.find "(" name = None ->
  Py.startswith ")" (body ++ ")") = false ->
  Py.find ")" suffix1 = None ->
  Py.find ")" suffix2 = None ->
  Py.contains "const" suffix1 = Py.contains "const" suffix2 ->
  normalise (name ++ "(" ++ body ++ ")" ++ suffix1)
  = normalise (name ++ "(" ++ body ++ ")" ++ suffix2).
Proof.
  intros Hname Hbody H1 H2 Hc. cbn [append]. unfold normalise.
  rewrite !normalise_with_split by exact Hname.
  rewrite !empty_arglist_case_not_taken by exact Hbody.
  change (String "(" (body ++ String ")" suffix1))
    with ((String "(" body) ++ String ")" suffix1).
  change (String "(" (body ++ String ")" suffix2))
    with ((String "(" body) ++ String ")" suffix2).
  rewrite !parse_arglist_split by assumption.
  destruct (parseString arglist _) as [result|]; [|reflexivity].
  rewrite !build_result_canonical. unfold canonical_args. rewrite Hc. reflexivity.
Qed.

Lemma suffix_counts_through_const_witness :
  normalise "f(int a) const =0" = normalise "f(int a)const override".
Proof.
  apply (suffix_counts_through_const "f" "int a" " const =0" "const override");
    reflexivity.
Defined.

(** X3. The argument list is normalised without regard to the name: with
    another name before the same region, [normalise] raises the same
    exception or returns the same argument list. *)
Theorem normalise_name_independent (name1 name2 rest : string) :
  Py.find "(" name1 = None ->
  Py.find "(" name2 = None ->
  normalise (name2 ++ "(" ++ rest) = with_name name2 (normalise (name1 ++ "(" ++ rest)).
Proof.
  intros H1 H2. cbn [append]. unfold normalise.
  rewrite !normalise_with_split by assumption.
  unfold empty_arglist_case, parse_arglist.
  destruct (Py.startswith "()" (String "(" rest)).
  - destruct (existsb _ _); [reflexivity|].
    destruct (existsb _ _); [reflexivity|].
    destruct (Py.rfind ")" _); [|reflexivity].
    destruct (parseString arglist _); reflexivity.
  - destruct (Py.rfind ")" _); [|reflexivity].
    destruct (parseString arglist _); reflexivity.
Qed.

Lemma normalise_name_independent_witness :
  normalise "B::g(int a, ...)" = with_name "B::g" (normalise "A::f(int a, ...)").
Proof. apply (normalise_name_independent "A::f" "B::g" "int a, ...)"); reflexivity. Defined.

(** *** Further properties of the template flattener *)

Lemma all_chars_true (s : string) : all_chars (fun _ => true) s = true.
Proof. induction s; simpl; auto. Qed.

Lemma quotedString_one_token (skip : bool) (st : pstate) r st' :
  quotedString skip st = Some (r, st') ->
  all_chars (fun _ => true) (rest st) = true ->
  (exists w, r = ([TStr w], []) /\ True) /\ all_chars (fun _ => true) (rest st') = true.
Proof.
  intros E H. destruct (quotedString_tight _ _ _ _ _ E H) as [(w & -> & _) H1]. eauto.
Qed.

(** X4. Whatever the input, a template region that [angle_bracket_pair]
    matches comes back as exactly one string token without named results,
    which begins with ["<"] and ends with [" >"]; at least the two brackets
    are consumed. *)
Theorem angle_bracket_pair_one_token (skip : bool) (st : pstate) r st' :
  angle_bracket_pair skip st = Some (r, st') ->
  (exists b, r = ([TStr ("<" ++ b ++ " >")], []))
  /\ String.length (rest st') + 2 <= String.length (rest st).
Proof.
  intros E. split.
  - destruct (angle_bracket_pair_shape (fun _ => true) (fun _ => True)
                quotedString_one_token (fun _ _ _ _ => I) skip st r st' E
                (all_chars_true _)) as (b & _ & ->).
    eauto.
  - unfold angle_bracket_pair, nestedExpr_action in E. rewrite nested_unfold in E.
    destruct (Literal "<" skip st) as [[r1 st1]|] eqn:L1; [|discriminate].
    pose proof (Literal_consuming "<" ltac:(discriminate) _ _ _ _ L1) as H1.
    destruct (ZeroOrMore _ true st1) as [[rz st2]|] eqn:Z; [|discriminate].
    pose proof (ZeroOrMore_steady _
                  (template_item_consuming _ (nestedExpr_consuming _)) _ _ _ _ Z) as H2.
    destruct (Literal ">" true st2) as [[r3 st3]|] eqn:L3; [|discriminate].
    pose proof (Literal_consuming ">" ltac:(discriminate) _ _ _ _ L3) as H3.
    injection E as <- <-. lia.
Qed.

Lemma angle_bracket_pair_one_token_witness :
  (exists b, (([TStr "< K, V >"], []) : ParseResults) = ([TStr ("<" ++ b ++ " >")], []))
  /\ String.length "::iterator" + 2 <= String.length "<K, V>::iterator".
Proof.
  apply (angle_bracket_pair_one_token true (start "<K, V>::iterator") _
           (mkState (Some ">"%char) "::iterator")).
  reflexivity.
Defined.

Lemma append_cancel_r (a b c : string) : a ++ c = b ++ c -> a = b.
Proof.
  revert b. induction a as [|x a IH]; intros b E.
  - destruct b as [|y b]; [reflexivity|].
    apply (f_equal String.length) in E. simpl in E. rewrite length_append in E. lia.
  - destruct b as [|y b].
    + apply (f_equal String.length) in E. simpl in E. rewrite length_append in E. lia.
    + simpl in E. injection E as -> E. rewrite (IH b E). reflexivity.
Qed.

Lemma pad_head (ws : list string) : pad ws = "" \/ exists t, pad ws = String " " t.
Proof. destruct ws; [left | right]; cbn [pad append]; eauto. Qed.

Lemma token_split (w1 w2 x y : string) :
  all_chars no_blank w1 = true -> all_chars no_blank w2 = true ->
  (x = "" \/ exists t, x = String " " t) ->
  (y = "" \/ exists t, y = String " " t) ->
  w1 ++ x = w2 ++ y -> w1 = w2 /\ x = y.
Proof.
  revert w2. induction w1 as [|c w1 IH]; intros w2 H1 H2 Hx Hy E.
  - destruct w2 as [|d w2]; [auto|]. exfalso.
    simpl in H2. apply andb_prop in H2. destruct H2 as [Hd _].
    simpl in E. destruct Hx as [->|[t ->]]; [discriminate|].
    injection E as <- _. discriminate.
  - simpl in H1. apply andb_prop in H1. destruct H1 as [Hc H1].
    destruct w2 as [|d w2].
    + exfalso. simpl in E. destruct Hy as [->|[t ->]]; [discriminate|].
      injection E as -> _. discriminate.
    + simpl in H2. apply andb_prop in H2. destruct H2 as [_ H2].
      simpl in E. injection E as -> E.
      destruct (IH w2 H1 H2 Hx Hy E) as [-> ->]. auto.
Qed.

Lemma pad_injective (ws1 ws2 : list string) :
  Forall (fun w => all_chars no_blank w = true) ws1 ->
  Forall (fun w => all_chars no_blank w = true) ws2 ->
  pad ws1 = pad ws2 -> ws1 = ws2.
Proof.
  intros H1. revert ws2. induction H1 as [|w1 r1 Hw1 _ IH]; intros ws2 H2 E.
  - destruct ws2; [reflexivity | discriminate].
  - destruct H2 as [|w2 r2 Hw2 H2]; [discriminate|].
    cbn [pad append] in E. injection E as E.
    destruct (token_split w1 w2 (pad r1) (pad r2) Hw1 Hw2 (pad_head _) (pad_head _) E)
      as [-> E'].
    rewrite (IH r2 H2 E'). reflexivity.
Qed.

(** X5. The rendering keeps the tokens apart: two lists of tokens without
    spaces that [normalise_templates] renders alike are the same list. *)
Theorem normalise_templates_injective (ws1 ws2 : list string) :
  Forall (fun w => all_chars no_blank w = true) ws1 ->
  Forall (fun w => all_chars no_blank w = true) ws2 ->
  normalise_templates (PList (map PStr ws1)) = normalise_templates (PList (map PStr ws2)) ->
  ws1 = ws2.
Proof.
  intros H1 H2 E.
  assert (R : forall ws, map PStr ws = map asList (map TStr ws)).
  { intros ws. rewrite map_map. reflexivity. }
  rewrite !R, !normalise_templates_strings in E.
  cbn [append] in E. injection E as E.
  apply append_cancel_r in E. apply (pad_injective _ _ H1 H2 E).
Qed.

Lemma normalise_templates_injective_witness :
  ["K,"; "V"] = ["K,"; "V"].
Proof.
  apply (normalise_templates_injective ["K,"; "V"] ["K,"; "V"]);
    repeat constructor.
Defined.

(** *** Whitespace after the opening parenthesis *)

Lemma token_skips_first impl : skips_first (token impl).
Proof. intros st st' E. unfold token. rewrite E. reflexivity. Qed.

Lemma And_skips_first (a b : element) : skips_first a -> skips_first (And a b).
Proof. intros Ha st st' E. unfold And. rewrite (Ha st st' E). reflexivity. Qed.

Lemma MatchFirst_skips_first (es : list element) :
  Forall skips_first es -> skips_first (MatchFirst es).
Proof.
  induction 1 as [|e es He _ IH]; intros st st' E; [reflexivity|].
  cbn [MatchFirst]. rewrite (He st st' E), (IH st st' E). reflexivity.
Qed.

Lemma Or_skips_first (es : list element) : Forall skips_first es -> skips_first (Or es).
Proof.
  intros H st st' E. unfold Or. generalize (@None (ParseResults * pstate)).
  induction H as [|e es He _ IH]; intros best; [reflexivity|].
  cbn [longest]. rewrite (He st st' E). apply IH.
Qed.

Lemma Optional_skips_first (e : element) : skips_first e -> skips_first (Optional e).
Proof. intros He st st' E. unfold Optional. rewrite (He st st' E), E. reflexivity. Qed.

Lemma Optional_default_skips_first (e : element) (d : string) :
  skips_first e -> skips_first (Optional_default e d).
Proof.
  intros He st st' E. unfold Optional_default. rewrite (He st st' E), E. reflexivity.
Qed.

Lemma OneOrMore_skips_first (e : element) : skips_first e -> skips_first (OneOrMore e).
Proof. intros He st st' E. unfold OneOrMore. rewrite (He st st' E). reflexivity. Qed.

Lemma ZeroOrMore_skips_first (e : element) : skips_first e -> skips_first (ZeroOrMore e).
Proof.
  intros He st st' E. unfold ZeroOrMore.
  rewrite (OneOrMore_skips_first e He st st' E), E. reflexivity.
Qed.

Lemma Suppress_skips_first (e : element) : skips_first e -> skips_first (Suppress e).
Proof. intros He st st' E. unfold Suppress. rewrite (He st st' E). reflexivity. Qed.

Lemma Group_skips_first (e : element) : skips_first e -> skips_first (Group e).
Proof. intros He st st' E. unfold Group. rewrite (He st st' E). reflexivity. Qed.

Lemma Combine_skips_first (e : element) : skips_first (Combine e).
Proof. intros st st' E. unfold Combine. rewrite E. reflexivity. Qed.

Lemma setParseAction_skips_first fn (e : element) :
  skips_first e -> skips_first (setParseAction fn e).
Proof. intros He st st' E. unfold setParseAction. rewrite (He st st' E). reflexivity. Qed.

Lemma setResultsName_skips_first (name : string) (e : element) :
  skips_first e -> skips_first (setResultsName name e).
Proof. intros He st st' E. unfold setResultsName. rewrite (He st st' E). reflexivity. Qed.

Lemma setResultsName_list_skips_first (name : string) (e : element) :
  skips_first e -> skips_first (setResultsName_list name e).
Proof.
  intros He st st' E. unfold setResultsName_list. rewrite (He st st' E). reflexivity.
Qed.

Lemma Literal_consumes_after_skip (m : string) (skip : bool) (st : pstate) r st' :
  m <> "" -> Literal m skip st = Some (r, st') ->
  String.length (rest st') < String.length (rest (preParse skip st)).
Proof.
  intros Hm E. unfold Literal, token in E.
  destruct (consume m _ _) as [st1|] eqn:C; [|discriminate].
  injection E as <- <-. pose proof (consume_length _ _ _ _ C).
  destruct m; [congruence|]. simpl in *. lia.
Qed.

(** The fuel of [angle_bracket_pair] counts from the opener. *)
Lemma nested_fuel_after_skip (f : nat) (skip : bool) (st : pstate) :
  String.length (rest (preParse skip st)) < f ->
  nestedExpr_with turn_parseresults_to_list "<" ">" f skip st
  = nestedExpr_with turn_parseresults_to_list "<" ">" (S f) skip st.
Proof.
  intros L. destruct f as [|f]; [inversion L|].
  rewrite (nested_unfold f), (nested_unfold (S f)).
  destruct (Literal "<" skip st) as [[r1 st1]|] eqn:L1; [|reflexivity].
  pose proof (Literal_consumes_after_skip "<" _ _ _ _ ltac:(discriminate) L1) as H1.
  assert (Item : forall st0, String.length (rest st0) < f ->
                             template_item f true st0 = template_item (S f) true st0).
  { intros st0 L0. unfold template_item. cbn [MatchFirst].
    rewrite (nested_fuel f true st0 L0). reflexivity. }
  unfold ZeroOrMore, OneOrMore. rewrite <- (Item st1) by lia.
  destruct (template_item f true st1) as [[r0 st0]|] eqn:T; [|reflexivity].
  pose proof (template_item_consuming f (nestedExpr_consuming f) _ _ _ _ T) as H0.
  rewrite (repeat_agree (template_item f true) (template_item (S f) true) f Item)
    by (try apply consuming_steady, template_item_consuming, nestedExpr_consuming; lia).
  reflexivity.
Qed.

Lemma nested_any_fuel (skip : bool) (st : pstate) (f g : nat) :
  String.length (rest (preParse skip st)) < f -> f <= g ->
  nestedExpr_with turn_parseresults_to_list "<" ">" f skip st
  = nestedExpr_with turn_parseresults_to_list "<" ">" g skip st.
Proof.
  intros L. induction 1 as [|g Hle IH]; [reflexivity|].
  rewrite IH. apply nested_fuel_after_skip. lia.
Qed.

Lemma angle_bracket_pair_skips_first : skips_first angle_bracket_pair.
Proof.
  intros st st' E. unfold angle_bracket_pair, nestedExpr_action.
  set (n := S (String.length (rest st))). set (n' := S (String.length (rest st'))).
  assert (Same : forall f, nestedExpr_with turn_parseresults_to_list "<" ">" f true st
                           = nestedExpr_with turn_parseresults_to_list "<" ">" f true st').
  { intros [|f]; [reflexivity|]. rewrite !nested_unfold.
    unfold Literal at 1 3. unfold token. rewrite E. reflexivity. }
  pose proof (preParse_le true st) as L. pose proof (preParse_le true st') as L'.
  rewrite (nested_any_fuel true st n (Nat.max n n')) by (subst n n'; lia).
  rewrite (nested_any_fuel true st' n' (Nat.max n n')) by (subst n n'; lia).
  apply Same.
Qed.

Create HintDb skipping.
#[local] Hint Resolve token_skips_first And_skips_first MatchFirst_skips_first
  Or_skips_first Optional_skips_first Optional_default_skips_first
  OneOrMore_skips_first ZeroOrMore_skips_first Suppress_skips_first
  Group_skips_first Combine_skips_first setParseAction_skips_first
  setResultsName_skips_first setResultsName_list_skips_first
  angle_bracket_pair_skips_first : skipping.
#[local] Hint Constructors Forall : skipping.

(** The list of arguments looks at its input from the first character
    that is not whitespace. *)
Lemma arguments_skip_first :
  skips_first (setResultsName_list "arg_list" (delimitedList argument)).
Proof.
  unfold delimitedList, argument, argument_type, qualifier, ungroup.
  apply setResultsName_list_skips_first, And_skips_first, Group_skips_first.
  do 2 apply And_skips_first. apply setResultsName_list_skips_first.
  do 4 apply And_skips_first.
  apply setResultsName_skips_first, Optional_default_skips_first.
  do 2 apply setParseAction_skips_first. apply OneOrMore_skips_first, Or_skips_first.
  repeat constructor; apply token_skips_first.
Qed.

Lemma skip_white_spaces (n : nat) (p : option ascii) (s : string) :
  skip_white p (spaces (S n) ++ s) = skip_white (Some " "%char) s.
Proof.
  revert p. induction n as [|n IH]; intros p; [reflexivity|].
  change (spaces (S (S n)) ++ s) with (String " " (spaces (S n) ++ s)).
  cbn [skip_white]. change (Py.in_chars " " DEFAULT_WHITE_CHARS) with true.
  cbv iota. apply IH.
Qed.

Lemma spaces_no_tab (n : nat) : all_chars no_tab (spaces n) = true.
Proof. induction n; simpl; auto. Qed.

Lemma And_congr (a b : element) (skip : bool) (st st' : pstate) :
  a skip st = a skip st' -> And a b skip st = And a b skip st'.
Proof. intros E. unfold And. rewrite E. reflexivity. Qed.

Lemma LPAR_open (p : option ascii) (x : string) :
  LPAR true (mkState p (String "(" x)) = Some (([TStr "("], []), mkState (Some "("%char) x).
Proof. reflexivity. Qed.

(** After the opening parenthesis, any number of spaces is as good as
    one. *)
Lemma arglist_spaces (n : nat) (s : string) :
  all_chars no_tab s = true ->
  parseString arglist ("(" ++ spaces (S n) ++ s) = parseString arglist ("( " ++ s).
Proof.
  intros H. unfold parseString, Py.expandtabs.
  rewrite !expandtabs_no_tab
    by (cbn [append all_chars]; rewrite ?all_chars_app, ?spaces_no_tab, H; reflexivity).
  replace (arglist true (start ("(" ++ spaces (S n) ++ s)))
    with (arglist true (start ("( " ++ s))); [reflexivity|].
  unfold arglist, start. do 2 apply And_congr. unfold And.
  cbn [append]. rewrite !LPAR_open.
  rewrite (arguments_skip_first (mkState (Some "("%char) (String " " s))
             (mkState (Some "("%char) (String " " (spaces n ++ s)))); [reflexivity|].
  cbn [preParse prev rest].
  change (String " " (spaces n ++ s)) with (spaces (S n) ++ s).
  rewrite skip_white_spaces. reflexivity.
Qed.

Lemma find_spaces (c : ascii) (n : nat) :
  Ascii.eqb c " " = false -> Py.find (String c "") (spaces n) = None.
Proof.
  intros H. induction n as [|n IH]; [reflexivity|].
  cbn [spaces]. rewrite find_char_cons, H, IH. reflexivity.
Qed.

Lemma rfind_char_prefix (c : ascii) (pre s : string) :
  Py.find (String c "") pre = None ->
  Py.rfind (String c "") (pre ++ s)
  = option_map (Nat.add (String.length pre)) (Py.rfind (String c "") s).
Proof.
  induction pre as [|d pre IH]; intros H.
  - cbn [append]. destruct (Py.rfind (String c "") s); reflexivity.
  - rewrite find_char_cons in H. destruct (Ascii.eqb c d) eqn:E; [discriminate|].
    destruct (Py.find (String c "") pre); [discriminate|].
    cbn [append]. rewrite rfind_char_cons, (IH eq_refl), E.
    destruct (Py.rfind (String c "") s); reflexivity.
Qed.

Lemma slice_to_app_plus (pre s : string) (k : nat) :
  Py.slice_to (String.length pre + k) (pre ++ s) = pre ++ Py.slice_to k s.
Proof.
  induction pre as [|d pre IH]; [destruct k, s; reflexivity|].
  simpl. rewrite IH. reflexivity.
Qed.

Lemma slice_from_app_plus (pre s : string) (k : nat) :
  Py.slice_from (String.length pre + k) (pre ++ s) = Py.slice_from k s.
Proof. induction pre as [|d pre IH]; [reflexivity|]. simpl. exact IH. Qed.

Lemma all_chars_slice_to (P : ascii -> bool) (k : nat) (s : string) :
  all_chars P s = true -> all_chars P (Py.slice_to k s) = true.
Proof.
  revert s. induction k as [|k IH]; intros s H; [destruct s; reflexivity|].
  destruct s as [|c s]; [reflexivity|]. simpl in *.
  apply andb_prop in H. destruct H as [-> H]. rewrite (IH s H). reflexivity.
Qed.

(** Step 4 for a region that begins with a text without [")"]. *)
Lemma parse_arglist_prefix parse (name pre rest : string) :
  Py.find ")" pre = None ->
  parse_arglist parse name (pre ++ rest) =
  match Py.rfind ")" rest with
  | None => Some (Raise ValueError)
  | Some j =>
      match parse (pre ++ Py.slice_to (j + 1) rest) with
      | None => Some (Raise ParseException)
      | Some result =>
          Some (Return (build_result name (Py.slice_from (j + 1) rest) result))
      end
  end.
Proof.
  intros H. unfold parse_arglist. rewrite (rfind_char_prefix _ _ _ H).
  destruct (Py.rfind ")" rest) as [j|]; [|reflexivity]. cbn [option_map].
  rewrite <- Nat.add_assoc, slice_to_app_plus, slice_from_app_plus. reflexivity.
Qed.

(** X6. Between the opening parenthesis and the first argument, any
    number of spaces is as good as one: the outcome of [normalise] is the
    same. *)
Theorem spaces_after_opening_parenthesis (name : string) (n : nat) (rest : string) :
  Py.find "(" name = None ->
  all_chars no_tab rest = true ->
  normalise (name ++ "(" ++ spaces (S n) ++ rest) = normalise (name ++ "( " ++ rest).
Proof.
  intros Hname Hrest. cbn [append]. unfold normalise.
  rewrite !normalise_with_split by exact Hname.
  change (empty_arglist_case name (String "(" (spaces (S n) ++ rest))) with (@None (string * string)).
  change (empty_arglist_case name (String "(" (String " " rest))) with (@None (string * string)).
  change (String "(" (spaces (S n) ++ rest)) with (("(" ++ spaces (S n)) ++ rest).
  change (String "(" (String " " rest)) with ("( " ++ rest).
  rewrite !parse_arglist_prefix
    by (try reflexivity; cbn [append]; rewrite find_char_cons;
        change (Ascii.eqb ")" "(") with false; cbv iota;
        rewrite find_spaces; reflexivity).
  destruct (Py.rfind ")" rest) as [j|]; [|reflexivity].
  rewrite append_assoc.
  rewrite (arglist_spaces n _ (all_chars_slice_to _ _ _ Hrest)). reflexivity.
Qed.

Lemma spaces_after_opening_parenthesis_witness :
  normalise "f(    const QString & s, int n = 4)" = normalise "f( const QString & s, int n = 4)".
Proof.
  apply (spaces_after_opening_parenthesis "f" 3 "const QString & s, int n = 4)");
    reflexivity.
Defined.

(** X7. An argument list that holds spaces only is not taken for the
    empty argument list: the special case wants ["()"] at the very
    beginning and the grammar wants an argument, so [normalise] raises
    [ParseException]. *)
Theorem blank_arglist_raises (name : string) (n : nat) (suffix : string) :
  Py.find "(" name = None ->
  Py.find ")" suffix = None ->
  normalise (name ++ "(" ++ spaces (S n) ++ ")" ++ suffix) = Raise ParseException.
Proof.
  intros Hname Hsuffix. cbn [append]. unfold normalise.
  rewrite normalise_with_split by exact Hname.
  replace (empty_arglist_case name (String "(" (spaces (S n) ++ String ")" suffix)))
    with (@None (string * string)) by reflexivity.
  replace (String "(" (spaces (S n) ++ String ")" suffix))
    with (("(" ++ spaces (S n)) ++ String ")" suffix) by reflexivity.
  rewrite parse_arglist_split by exact Hsuffix.
  rewrite append_assoc, (arglist_spaces n ")" eq_refl).
  change (parseString arglist ("( " ++ ")")) with (@None ParseResults). reflexivity.
Qed.

Lemma blank_arglist_raises_witness :
  normalise "Volume::printAll(  ) const" = Raise ParseException.
Proof. apply (blank_arglist_raises "Volume::printAll" 1 " const"); reflexivity. Defined.

(** *** The name of an argument *)

Lemma in_chars_app (c : ascii) (a b : string) :
  Py.in_chars c (a ++ b) = Py.in_chars c a || Py.in_chars c b.
Proof.
  induction a as [|d a IH]; [reflexivity|]. cbn [append Py.in_chars].
  destruct (Ascii.eqb c d); [reflexivity | exact IH].
Qed.

Lemma name_char_ident (c : ascii) :
  name_char c = true -> Py.in_chars c DEFAULT_KEYWORD_CHARS = true.
Proof.
  unfold name_char, DEFAULT_KEYWORD_CHARS. rewrite !in_chars_app. intros H.
  apply orb_prop in H. destruct H as [->|H]; [reflexivity|].
  cbn [Py.in_chars] in *. destruct (Ascii.eqb c "_"); [|discriminate].
  apply orb_true_r.
Qed.

Lemma name_char_differs (c d : ascii) :
  name_char c = true -> name_char d = false -> Ascii.eqb d c = false.
Proof.
  intros Hc Hd. destruct (Ascii.eqb d c) eqn:E; [|reflexivity].
  apply Ascii.eqb_eq in E. subst d. congruence.
Qed.

Lemma name_char_not_white (c : ascii) :
  name_char c = true -> Py.in_chars c DEFAULT_WHITE_CHARS = false.
Proof.
  intros H. cbn [DEFAULT_WHITE_CHARS Py.in_chars].
  rewrite (Ascii.eqb_sym c " "), (Ascii.eqb_sym c "010"), (Ascii.eqb_sym c "009"),
    (Ascii.eqb_sym c "013").
  rewrite !(name_char_differs c _ H) by reflexivity. reflexivity.
Qed.

Lemma span_name (n : string) (p : option ascii) (x : string) :
  all_chars name_char n = true ->
  exists p', span (alphanums ++ "_") p (n ++ String ")" x) = (n, mkState p' (String ")" x)).
Proof.
  revert p. induction n as [|c n IH]; intros p H.
  - exists p. reflexivity.
  - simpl in H. apply andb_prop in H. destruct H as [Hc Hn].
    destruct (IH (Some c) Hn) as [p' E]. exists p'.
    cbn [append span]. unfold name_char in Hc. rewrite Hc, E. reflexivity.
Qed.

Lemma consume_name (k : string) :
  all_chars name_char k = true ->
  forall n p x st',
    consume k p (n ++ String ")" x) = Some st' ->
    exists n', n = k ++ n' /\ rest st' = n' ++ String ")" x.
Proof.
  induction k as [|a k IH]; intros Hk n p x st' E.
  - injection E as <-. exists n. auto.
  - simpl in Hk. apply andb_prop in Hk. destruct Hk as [Ha Hk].
    destruct n as [|b n]; cbn [append consume] in E.
    + rewrite (Ascii.eqb_sym a ")"), (name_char_differs a ")" Ha eq_refl) in E.
      discriminate.
    + destruct (Ascii.eqb a b) eqn:Eab; [|discriminate].
      apply Ascii.eqb_eq in Eab. subst b.
      destruct (IH Hk n _ _ _ E) as (n' & -> & R). exists n'. auto.
Qed.

(** A keyword does not match a name that is another word. *)
Lemma Keyword_other_name (k : string) (c : ascii) (n : string) (p : option ascii)
      (x : string) :
  all_chars name_char k = true ->
  all_chars name_char (String c n) = true ->
  k <> String c n ->
  Keyword k true (mkState p (String " " (String c n ++ String ")" x))) = None.
Proof.
  intros Hk Hn Hne. unfold Keyword, token. cbn [preParse prev rest].
  change (skip_white p (String " " (String c n ++ String ")" x)))
    with (skip_white (Some " "%char) (String c (n ++ String ")" x))).
  assert (Hc : name_char c = true) by (simpl in Hn; apply andb_prop in Hn; tauto).
  rewrite skip_white_stop by (apply name_char_not_white; exact Hc).
  cbn [prev rest].
  change (String c (n ++ String ")" x)) with (String c n ++ String ")" x).
  destruct (consume k (Some " "%char) (String c n ++ String ")" x)) as [st'|] eqn:E;
    [|reflexivity].
  destruct (consume_name k Hk _ _ _ _ E) as (n' & En & R).
  rewrite R. destruct n' as [|d n'].
  - rewrite append_nil_r in En. congruence.
  - assert (Hd : name_char d = true).
    { rewrite En, all_chars_app in Hn. apply andb_prop in Hn. destruct Hn as [_ Hn].
      simpl in Hn. apply andb_prop in Hn. tauto. }
    cbn [append peek is_ident]. rewrite (name_char_ident d Hd). reflexivity.
Qed.

Lemma fundamental_keywords_fail (c : ascii) (n : string) (p : option ascii) (x : string) :
  all_chars name_char (String c n) = true ->
  ~ In (String c n) fundamental_keywords ->
  Or [Keyword "bool"; Keyword "short"; Keyword "int"; Keyword "long";
      Keyword "signed"; Keyword "unsigned"; Keyword "char";
      Keyword "float"; Keyword "double"] true
     (mkState p (String " " (String c n ++ String ")" x))) = None.
Proof.
  intros Hn Hnot. unfold Or. cbn [longest].
  rewrite !Keyword_other_name;
    try reflexivity; try exact Hn;
    intros E; apply Hnot; rewrite <- E; simpl; tauto.
Qed.

Lemma And_eval (a b : element) (skip : bool) (st st1 st2 : pstate) ra rb :
  a skip st = Some (ra, st1) -> b skip st1 = Some (rb, st2) ->
  And a b skip st = Some (add ra rb, st2).
Proof. intros Ea Eb. unfold And. rewrite Ea, Eb. reflexivity. Qed.

Lemma pointer_or_reference_fails (p : option ascii) (c : ascii) (s : string) :
  name_char c = true ->
  pointer_or_reference true (mkState p (String c s)) = None
  /\ pointer_or_reference true (mkState p (String " " (String c s))) = None.
Proof.
  intros Hc.
  assert (F : forall q, And (oneOf ["*"; "&"]) (Optional (Literal "...")) false
                            (mkState q (String c s)) = None).
  { intros q. unfold And, oneOf. cbn [map MatchFirst]. unfold Literal, token.
    cbn [preParse prev rest consume].
    rewrite (name_char_differs c "*" Hc eq_refl), (name_char_differs c "&" Hc eq_refl).
    reflexivity. }
  unfold pointer_or_reference, Combine. cbn [preParse prev rest].
  change (skip_white p (String " " (String c s)))
    with (skip_white (Some " "%char) (String c s)).
  rewrite !skip_white_stop by (apply name_char_not_white; exact Hc).
  rewrite !F. auto.
Qed.

Lemma startswith_before_closing (m n x : string) :
  all_chars name_char m = true ->
  Py.startswith m n = false -> Py.startswith m (n ++ String ")" x) = false.
Proof.
  revert n. induction m as [|a m IH]; intros n Hm H; [discriminate|].
  simpl in Hm. apply andb_prop in Hm. destruct Hm as [Ha Hm].
  destruct n as [|b n]; cbn [append Py.startswith] in *.
  - rewrite (Ascii.eqb_sym a ")"), (name_char_differs a ")" Ha eq_refl). reflexivity.
  - destruct (Ascii.eqb a b); [apply IH; assumption | reflexivity].
Qed.

Lemma consume_not_startswith (m : string) (p : option ascii) (s : string) :
  Py.startswith m s = false -> consume m p s = None.
Proof.
  revert p s. induction m as [|a m IH]; intros p s H; [discriminate|].
  destruct s as [|b s]; [reflexivity|]. cbn [consume Py.startswith] in *.
  destruct (Ascii.eqb a b); [apply IH; exact H | reflexivity].
Qed.

Section IntName.

(** The argument [int name]: [c] and [n] are the first character and the
    rest of the name. *)
Variables (c : ascii) (n : string).
Hypothesis name_chars : all_chars name_char (String c n) = true.
Hypothesis not_keyword : ~ In (String c n) fundamental_keywords.
Hypothesis not_const : Py.startswith "const" (String c n) = false.


Lemma first_char_name : name_char c = true.
Proof. pose proof name_chars as H. simpl in H. apply andb_prop in H. tauto. Qed.

Lemma skip_to_name : preParse true (after_int c n) = (at_name c n) /\ preParse true (at_name c n) = (at_name c n).
Proof.
  unfold after_int, at_name. cbn [preParse prev rest append].
  change (skip_white (Some "t"%char) (String " " (String c (n ++ ")"))))
    with (skip_white (Some " "%char) (String c (n ++ ")"))).
  rewrite !skip_white_stop by (apply name_char_not_white, first_char_name). auto.
Qed.

Lemma int_name_input_type :
  setResultsName "input_type" (setParseAction (join_action " ") input_type) true (at_int c n)
  = Some (([TStr "int"], [("input_type", TStr "int")]), (after_int c n)).
Proof.
  assert (F : fundamental_input_type true (at_int c n) = Some (([TStr "int"], []), (after_int c n))).
  { unfold fundamental_input_type, OneOrMore.
    replace (Or [Keyword "bool"; Keyword "short"; Keyword "int"; Keyword "long";
                 Keyword "signed"; Keyword "unsigned"; Keyword "char";
                 Keyword "float"; Keyword "double"] true (at_int c n))
      with (Some (([TStr "int"], []) : ParseResults, (after_int c n))) by reflexivity.
    unfold after_int at 1 2. cbn [rest String.length repeat].
    rewrite (fundamental_keywords_fail c n _ "" name_chars not_keyword). reflexivity. }
  assert (N : nonfundamental_input_type true (at_int c n) = Some (([TStr "int"], []), (after_int c n)))
    by reflexivity.
  unfold setResultsName, setParseAction, input_type, Or. cbn [longest].
  rewrite F, N, Nat.ltb_irrefl. reflexivity.
Qed.

Lemma int_name_marker (name : string) :
  setResultsName name (Optional_default pointer_or_reference "") true (after_int c n)
  = Some (([TStr ""], [(name, TStr "")]), (at_name c n))
  /\ setResultsName name (Optional_default pointer_or_reference "") true (at_name c n)
     = Some (([TStr ""], [(name, TStr "")]), (at_name c n)).
Proof.
  destruct (pointer_or_reference_fails (Some " "%char) c (n ++ ")") first_char_name)
    as [F2 _].
  destruct (pointer_or_reference_fails (Some "t"%char) c (n ++ ")") first_char_name)
    as [_ F1].
  destruct skip_to_name as [S1 S2].
  unfold setResultsName, Optional_default.
  change (pointer_or_reference true (after_int c n)) with
    (pointer_or_reference true (mkState (Some "t"%char) (String " " (String c (n ++ ")"))))).
  change (pointer_or_reference true (at_name c n)) with
    (pointer_or_reference true (mkState (Some " "%char) (String c (n ++ ")")))).
  rewrite F1, F2, S1, S2. auto.
Qed.

Lemma int_name_const :
  setResultsName "const_pointer_or_reference" (Optional (Literal "const")) true (at_name c n)
  = Some (no_tokens, (at_name c n)).
Proof.
  destruct skip_to_name as [_ S2].
  unfold setResultsName, Optional, Literal, token. rewrite S2.
  unfold at_name at 1 2. cbn [prev rest].
  rewrite consume_not_startswith
    by (apply startswith_before_closing; [reflexivity | exact not_const]).
  reflexivity.
Qed.

Lemma int_name_argument_type :
  argument_type true (at_int c n)
  = Some (([TStr ""; TStr "int"; TStr ""; TStr ""],
           [("qualifier", TStr ""); ("input_type", TStr "int");
            ("pointer_or_reference1", TStr ""); ("pointer_or_reference2", TStr "")]),
          (at_name c n)).
Proof.
  unfold argument_type.
  change (Some (([TStr ""; TStr "int"; TStr ""; TStr ""],
                 [("qualifier", TStr ""); ("input_type", TStr "int");
                  ("pointer_or_reference1", TStr ""); ("pointer_or_reference2", TStr "")]),
                (at_name c n)))
    with (Some (add (add (add (add ([TStr ""], [("qualifier", TStr "")])
                                   ([TStr "int"], [("input_type", TStr "int")]))
                              ([TStr ""], [("pointer_or_reference1", TStr "")]))
                         no_tokens)
                    ([TStr ""], [("pointer_or_reference2", TStr "")]), (at_name c n))).
  apply (And_eval _ _ _ _ (at_name c n)); [|apply int_name_marker].
  apply (And_eval _ _ _ _ (at_name c n)); [|apply int_name_const].
  apply (And_eval _ _ _ _ (after_int c n)); [|apply int_name_marker].
  apply (And_eval _ _ _ _ (at_int c n)); [reflexivity | apply int_name_input_type].
Qed.

Lemma int_name_input_name :
  exists p', Optional input_name true (at_name c n)
             = Some (([TStr (String c n)], []), mkState p' ")").
Proof.
  destruct (span_name (String c n) (Some " "%char) "" name_chars) as [p' E].
  exists p'. destruct skip_to_name as [_ S2].
  unfold Optional, input_name, OneOrMore. cbn [MatchFirst].
  unfold Word at 1, token at 1. rewrite S2. unfold at_name at 1 2. cbn [prev rest].
  rewrite E. reflexivity.
Qed.

Lemma int_name_argument :
  exists p',
    argument true (at_int c n) = Some (([int_argument (String c n)], []), mkState p' ")").
Proof.
  destruct int_name_input_name as [p' E]. exists p'.
  unfold argument, Group.
  rewrite (And_eval _ _ true (at_int c n) (mkState p' ")") (mkState p' ")")
             (([TStr ""; TStr "int"; TStr ""; TStr ""; TStr (String c n)],
               [("qualifier", TStr ""); ("input_type", TStr "int");
                ("pointer_or_reference1", TStr ""); ("pointer_or_reference2", TStr "");
                ("argument_type", TRes [TStr ""; TStr "int"; TStr ""; TStr ""] [])]))
             no_tokens); [reflexivity | | reflexivity].
  change ([TStr ""; TStr "int"; TStr ""; TStr ""; TStr (String c n)],
          [("qualifier", TStr ""); ("input_type", TStr "int");
           ("pointer_or_reference1", TStr ""); ("pointer_or_reference2", TStr "");
           ("argument_type", TRes [TStr ""; TStr "int"; TStr ""; TStr ""] [])])
    with (add ([TStr ""; TStr "int"; TStr ""; TStr ""],
               [("qualifier", TStr ""); ("input_type", TStr "int");
                ("pointer_or_reference1", TStr ""); ("pointer_or_reference2", TStr "");
                ("argument_type", TRes [TStr ""; TStr "int"; TStr ""; TStr ""] [])])
              ([TStr (String c n)], [])).
  apply (And_eval _ _ _ _ (at_name c n)); [|exact E].
  unfold setResultsName_list. rewrite int_name_argument_type. reflexivity.
Qed.

(** The grammar on [(int name)]. *)
Lemma int_name_arglist :
  exists result,
    parseString arglist ("(int " ++ String c n ++ ")") = Some result
    /\ map normalise_argument (arg_list_of result) = ["int"]
    /\ var_args_of result = false.
Proof.
  destruct int_name_argument as [p' E].
  assert (T : all_chars no_tab ("(int " ++ String c n ++ ")") = true).
  { cbn [append all_chars]. rewrite all_chars_app.
    pose proof name_chars as H. simpl in H. apply andb_prop in H. destruct H as [Hc Hn].
    assert (NT : forall d, name_char d = true -> no_tab d = true).
    { intros d Hd. unfold no_tab. rewrite (Ascii.eqb_sym d "009"),
        (name_char_differs d "009" Hd eq_refl). reflexivity. }
    rewrite (NT c Hc), (all_chars_impl _ _ _ NT Hn). reflexivity. }
  unfold parseString, Py.expandtabs. rewrite (expandtabs_no_tab _ T).
  assert (L : setResultsName_list "arg_list" (delimitedList argument) true (at_int c n)
              = Some (([int_argument (String c n)],
                       [("arg_list", TRes [int_argument (String c n)] [])]),
                      mkState p' ")")).
  { unfold setResultsName_list, delimitedList.
    rewrite (And_eval _ _ true (at_int c n) (mkState p' ")") (mkState p' ")") _ no_tokens E);
      reflexivity. }
  assert (A : arglist true (start ("(int " ++ String c n ++ ")"))
              = Some (add (add (add ([TStr "("], [])
                                    ([int_argument (String c n)],
                                     [("arg_list", TRes [int_argument (String c n)] [])]))
                               no_tokens)
                          ([TStr ")"], []), mkState (Some ")"%char) "")).
  { unfold arglist.
    apply (And_eval _ _ _ _ (mkState p' ")")); [|reflexivity].
    apply (And_eval _ _ _ _ (mkState p' ")")); [|reflexivity].
    apply (And_eval _ _ _ _ (at_int c n)); [reflexivity | exact L]. }
  rewrite A. eexists. split; [reflexivity|]. split; reflexivity.
Qed.

End IntName.

(** X8. The name of an argument is ignored when it is made of letters,
    digits and underscores, is none of the keywords of the fundamental
    types and does not begin with [const]: [(int name)] is normalised to
    [(int)], whatever the name. *)
Theorem argument_name_ignored (fname : string) (c : ascii) (n suffix : string) :
  Py.find "(" fname = None ->
  all_chars name_char (String c n) = true ->
  ~ In (String c n) fundamental_keywords ->
  Py.startswith "const" (String c n) = false ->
  Py.find ")" suffix = None ->
  normalise (fname ++ "(int " ++ String c n ++ ")" ++ suffix)
  = Return (fname, "(int)" ++ (if Py.contains "const" suffix then " const" else "")).
Proof.
  intros Hname Hchars Hkw Hconst Hsuffix.
  destruct (int_name_arglist c n Hchars Hkw Hconst) as (result & P & Hargs & Hvar).
  cbn [append]. unfold normalise. rewrite normalise_with_split by exact Hname.
  replace (empty_arglist_case fname
             (String "(" (String "i" (String "n" (String "t" (String " "
                (String c (n ++ String ")" suffix))))))))
    with (@None (string * string)) by reflexivity.
  replace (String "(" (String "i" (String "n" (String "t" (String " "
             (String c (n ++ String ")" suffix)))))))
    with (("(int " ++ String c n) ++ String ")" suffix)
    by (cbn [append]; reflexivity).
  rewrite parse_arglist_split by exact Hsuffix.
  rewrite append_assoc, P, build_result_canonical. unfold canonical_args.
  rewrite Hargs, Hvar. reflexivity.
Qed.

Lemma argument_name_ignored_witness :
  normalise "Foo::bar(int lowerThreshold) const"
  = Return ("Foo::bar", "(int)" ++ " const").
Proof.
  apply (argument_name_ignored "Foo::bar" "l" "owerThreshold" " const");
    try reflexivity.
  simpl. intros H. repeat (destruct H as [H|H]; [discriminate|]). exact H.
Defined.

(** *** Rendering a region twice *)

(** **** Quoted strings that stay open *)

Lemma step_compatible (q : ascii) (m m' : mode) (c : ascii) :
  step q m c = Go m' -> compatible q c m'.
Proof.
  destruct m; cbn [step].
  - destruct (Ascii.eqb_spec c q) as [-> | _]; [intros E; injection E as <-; reflexivity|].
    destruct (Ascii.eqb_spec c "\") as [-> | _]; [intros E; injection E as <-; reflexivity|].
    destruct (is_break c); [discriminate | intros E; injection E as <-; exact I].
  - destruct (Ascii.eqb_spec c "x") as [-> | _]; intros E; injection E as <-;
      [reflexivity | exact I].
  - destruct (Py.in_chars c hexnums); [intros E; injection E as <-; exact I | discriminate].
  - destruct (Ascii.eqb c q); [intros E; injection E as <-; exact I | discriminate].
Qed.

Lemma feed_compatible (q : ascii) (a : string) (d : ascii) :
  last_char a = Some d ->
  forall m m', feed q m a = Go m' -> compatible q d m'.
Proof.
  induction a as [|c a IH]; [discriminate|]. intros L m m' F. cbn [feed] in F.
  destruct (step q m c) as [m1| |] eqn:S; try discriminate.
  destruct a as [|c2 a].
  - injection L as <-. injection F as <-. apply (step_compatible q m m1 c S).
  - apply (IH L m1 m' F).
Qed.

Lemma step_space (q : ascii) (m : mode) :
  is_quote q = true ->
  step q m " " = match m with
                 | Normal | Escape => Go Normal
                 | Pending => Closed
                 | Hex => Blocked
                 end.
Proof. intros H. destruct (is_quote_cases q H) as [-> | ->]; destruct m; reflexivity. Qed.

Lemma step_bracket (q : ascii) (m : mode) (c : ascii) :
  is_quote q = true -> is_bracket c = true ->
  step q m c = match m with
               | Normal | Escape => Go Normal
               | Pending => Closed
               | Hex => Blocked
               end.
Proof.
  intros H B. unfold is_bracket in B. apply orb_prop in B.
  destruct B as [B|B]; apply Ascii.eqb_eq in B; subst c;
    destruct (is_quote_cases q H) as [-> | ->]; destruct m; reflexivity.
Qed.

Lemma step_other_quote (q q' : ascii) :
  is_quote q = true -> is_quote q' = true -> q' <> q ->
  step q Normal q' = Go Normal /\ step q Escape q' = Go Normal.
Proof.
  intros H H' N.
  destruct (is_quote_cases q H) as [-> | ->]; destruct (is_quote_cases q' H') as [-> | ->];
    try congruence; split; reflexivity.
Qed.

Lemma closes_cons (q : ascii) (m : mode) (c : ascii) (s : string) :
  closes q m (String c s) = match step q m c with
                            | Go m' => closes q m' s
                            | Closed => true
                            | Blocked => false
                            end.
Proof. unfold closes. cbn [feed]. destruct (step q m c); reflexivity. Qed.

Lemma closes_spaces (q : ascii) (k : nat) (s : string) :
  is_quote q = true -> closes q Normal (spaces k ++ s) = closes q Normal s.
Proof.
  intros H. induction k as [|k IH]; [reflexivity|].
  cbn [spaces append]. rewrite closes_cons, (step_space q Normal H). exact IH.
Qed.

(** Any number of spaces, but not none, read like one. *)
Lemma closes_run_of_spaces (q : ascii) (m : mode) (k : nat) (s : string) :
  is_quote q = true ->
  closes q m (spaces (S k) ++ s) = closes q m (String " " s).
Proof.
  intros H. cbn [spaces append]. rewrite !closes_cons, (step_space q m H).
  destruct m; try reflexivity; apply (closes_spaces q k s H).
Qed.

(** A quote that is not doubled closes the string. *)
Lemma closes_at_quote (q : ascii) (w t : string) :
  feed q Normal w = Go Normal -> peek t <> Some q ->
  closes q Normal (w ++ String q t) = true.
Proof.
  intros F Ht. rewrite closes_app, F, closes_cons, step_quote.
  destruct t as [|c t]; [reflexivity|].
  rewrite closes_cons, step_lone; [reflexivity | cbn in Ht; congruence].
Qed.

(** Reading on through a text that ends in [d']. *)
Lemma carries_through (d' : ascii) (a R R' : string) :
  last_char a = Some d' -> carries d' R R' ->
  forall q m, is_quote q = true ->
              closes q m (a ++ R) = false -> closes q m (a ++ R') = false.
Proof.
  intros L C q m Hq. rewrite !closes_app.
  destruct (feed q m a) as [m'| |] eqn:F; try trivial.
  apply (C q m' Hq). apply (feed_compatible q a d' L m m' F).
Qed.

Lemma carries_scan (d : ascii) (a R R' : string) :
  carries d R R' -> a = "" \/ last_char a = Some d ->
  forall q, is_quote q = true ->
            closes q Normal (a ++ R) = false -> closes q Normal (a ++ R') = false.
Proof.
  intros C [-> | L] q Hq.
  - apply (C q Normal Hq I).
  - apply (carries_through d a R R' L C q Normal Hq).
Qed.

(** Behind the last closing bracket nothing is left of the rendering. *)
Lemma carries_end (after : string) : carries ">" after "".
Proof.
  intros q m Hq Hm _. destruct m; try reflexivity. cbn in Hm. subst q. discriminate Hq.
Qed.

(** One element more: in the original it comes after any number of
    spaces, in the rendering after one. *)
Lemma carries_atom (d : ascii) (k : nat) (e : string) (d' : ascii) (R R' : string) :
  last_char e = Some d' -> carries d' R R' ->
  (k = 0 -> joint d e R) ->
  carries d (spaces k ++ e ++ R) (" " ++ e ++ R').
Proof.
  intros L C J q m Hq Hm Hc.
  pose proof (carries_through d' e R R' L C q) as T.
  change (" " ++ e ++ R') with (String " " (e ++ R')).
  rewrite closes_cons, (step_space q m Hq).
  destruct k as [|k].
  2:{ rewrite closes_run_of_spaces, closes_cons, (step_space q m Hq) in Hc by exact Hq.
      destruct m; try (exact Hc || reflexivity); apply (T Normal Hq Hc). }
  cbn [spaces append] in Hc. specialize (J eq_refl).
  destruct m; [apply (T Normal Hq Hc) | | reflexivity | ].
  - (* after a backslash *)
    cbn in Hm. subst d.
    destruct J as [(c & -> & B) | [(q' & w & Hq' & -> & F & P) | [N _]]]; [| |congruence].
    + cbn [append] in *. rewrite closes_cons, (step_bracket q Escape c Hq B) in Hc.
      rewrite closes_cons, (step_bracket q Normal c Hq B).
      injection L as <-. apply (C q Normal Hq I Hc).
    + cbn [append] in Hc |- *. rewrite closes_cons in Hc |- *.
      destruct (Ascii.eqb_spec q' q) as [-> | Nq].
      * destruct (quote_not_special q Hq) as (_ & _ & X & _).
        rewrite (step_escaped q q X), append_assoc in Hc. cbn [append] in Hc.
        rewrite (closes_at_quote q w R F P) in Hc. discriminate.
      * destruct (step_other_quote q q' Hq Hq' Nq) as [S1 S2].
        rewrite S1. rewrite S2 in Hc.
        change (String q' (w ++ String q' "")) with (String q' w ++ String q' "") in L.
        rewrite last_char_app in L. injection L as <-.
        apply (carries_through q' (w ++ String q' "") R R'); try assumption.
        apply last_char_app.
  - (* after a quote *)
    cbn in Hm. subst d. exfalso.
    destruct e as [|c e1]; [discriminate|]. cbn [append] in Hc. rewrite closes_cons in Hc.
    destruct (Ascii.eqb_spec c q) as [-> | N];
      [|rewrite (step_lone q c N) in Hc; discriminate].
    rewrite step_doubled in Hc.
    destruct J as [(c & E & B) | [(q' & w & Hq' & E & F & P) | [_ N]]].
    + injection E as <- _. destruct (quote_not_special q Hq) as (_ & _ & _ & _ & _ & X & Y).
      unfold is_bracket in B. rewrite X, Y in B. discriminate.
    + injection E as <- ->. rewrite append_assoc in Hc. cbn [append] in Hc.
      rewrite (closes_at_quote q w R F P) in Hc. discriminate.
    + cbn in N. congruence.
Qed.

(** **** From the original to the rendering *)

Lemma laid_carries (d : ascii) (original body after : string) :
  laid d original body after ->
  forall tail, carries ">" after tail -> carries d original (body ++ " >" ++ tail).
Proof.
  induction 1 as [d k after
                 |d k e d' following body after He Hu Hl Hj Hb IH
                 |d k q w following body after Hq Hf Hp Hb IH
                 |d k inside inner following body after Hi IHi Hb IH]; intros tail C.
  - apply (carries_atom d k ">" ">"%char after tail eq_refl C).
    intros _. left. exists ">"%char. split; reflexivity.
  - replace ((" " ++ e ++ body) ++ " >" ++ tail) with (" " ++ e ++ (body ++ " >" ++ tail))
      by (cbn [append]; rewrite append_assoc; reflexivity).
    apply (carries_atom d k e d' _ _ Hl (IH tail C)).
    intros K. right. right. exact (Hj K).
  - replace ((" " ++ String q (w ++ String q "") ++ body) ++ " >" ++ tail)
      with (" " ++ String q (w ++ String q "") ++ (body ++ " >" ++ tail))
      by (cbn [append]; rewrite !append_assoc; reflexivity).
    apply (carries_atom d k _ q _ _); [|exact (IH tail C)|].
    + change (String q (w ++ String q "")) with (String q w ++ String q "").
      apply last_char_app.
    + intros _. right. left. exists q, w. auto.
  - replace ((" " ++ ("<" ++ inner ++ " >") ++ body) ++ " >" ++ tail)
      with (" " ++ "<" ++ (inner ++ " >" ++ (body ++ " >" ++ tail)))
      by (cbn [append]; rewrite !append_assoc; reflexivity).
    apply (carries_atom d k "<" "<"%char _ _ eq_refl (IHi _ (IH tail C))).
    intros _. left. exists "<"%char. split; reflexivity.
Qed.

Lemma laid_body_starts (d : ascii) (original body after tail : string) :
  laid d original body after -> exists t, body ++ " >" ++ tail = String " " t.
Proof. intros []; cbn [append]; eauto. Qed.

Lemma unclosed_carried (d' : ascii) (R R' : string) :
  carries d' R R' ->
  forall e, last_char e = Some d' -> unclosed e R -> unclosed e R'.
Proof.
  intros C. induction e as [|c v IH]; [trivial|]. intros L [H U]. split.
  - intros Hc. apply (carries_scan d' v R R' C); [|exact Hc | exact (H Hc)].
    destruct v; [left; reflexivity | right; exact L].
  - destruct v as [|c2 v]; [exact I|]. apply IH; assumption.
Qed.

(** **** Parsing the rendering *)

Lemma token_char_content (c : ascii) :
  token_char c = true ->
  content_ok c = true /\ Ascii.eqb "<" c = false
  /\ Py.in_chars c DEFAULT_WHITE_CHARS = false.
Proof.
  intros H. unfold token_char in H. apply andb_prop in H. destruct H as [H _].
  split; [exact H | apply (content_ok_parts c H)].
Qed.

Lemma token_not_space (w : string) :
  all_chars token_char w = true -> all_chars not_space w = true.
Proof. apply all_chars_impl. intros c H. apply (token_char_parts c H). Qed.

Lemma quotedString_unclosed (skip : bool) (p : option ascii) (c : ascii) (s : string) :
  Py.in_chars c DEFAULT_WHITE_CHARS = false ->
  (is_quote c = true -> closes c Normal s = false) ->
  quotedString skip (mkState p (String c s)) = None.
Proof.
  intros W H. apply quotedString_fails. intros q s' Hq E.
  replace (preParse skip (mkState p (String c s))) with (mkState p (String c s)) in E
    by (destruct skip; [cbn [preParse prev rest]; rewrite skip_white_stop by exact W|];
        reflexivity).
  injection E as <- <-. exact (H Hq).
Qed.

Lemma content_char_unclosed (p : option ascii) (c : ascii) (s : string) :
  token_char c = true -> (is_quote c = true -> closes c Normal s = false) ->
  content_char false (mkState p (String c s))
  = Some (([TStr (String c "")], []), mkState (Some c) s).
Proof.
  intros T H. destruct (token_char_content c T) as (H1 & _ & W).
  unfold content_char, And, NotAny. rewrite (quotedString_unclosed false p c s W H).
  unfold CharsNotIn1, token. cbn [preParse rest]. unfold content_ok in H1.
  apply negb_true_iff in H1. rewrite H1. reflexivity.
Qed.

Lemma repeat_content_token (t : string) (v : string) :
  forall n p,
    all_chars token_char v = true -> unclosed v (String " " t) -> String.length v < n ->
    exists p',
      repeat (content_char false) n (mkState p (v ++ String " " t))
      = ((map (fun c => TStr (String c "")) (list_ascii_of_string v), []),
         mkState p' (String " " t)).
Proof.
  induction v as [|c v IH]; intros n p H U L.
  - destruct n; [inversion L|]. exists p. reflexivity.
  - destruct n; [inversion L|]. simpl in H. apply andb_prop in H. destruct H as [Hc Hv].
    destruct U as [Uc Uv].
    destruct (IH n (Some c) Hv Uv ltac:(simpl in L; lia)) as [p' E].
    exists p'. cbn [repeat append]. rewrite (content_char_unclosed p c _ Hc Uc).
    rewrite E. reflexivity.
Qed.

(** A token of [content] after a space, before a space, is one element. *)
Lemma template_item_token (e : string) (f : nat) (p : option ascii) (t : string) :
  content_token e -> unclosed e (String " " t) ->
  exists p',
    template_item f true (mkState p (String " " (e ++ String " " t)))
    = Some (([TStr e], []), mkState p' (String " " t)).
Proof.
  intros [Hne He] U. destruct e as [|c v]; [congruence|].
  pose proof (token_not_space _ He) as Hs.
  simpl in He. apply andb_prop in He. destruct He as [Hc Hv]. destruct U as [Uc Uv].
  destruct (token_char_content c Hc) as (_ & Hopen & Hwhite).
  destruct (repeat_content_token t v (S (String.length (v ++ String " " t))) (Some c) Hv Uv)
    as [p' E].
  { rewrite length_append. lia. }
  exists p'. unfold template_item. cbn [MatchFirst append].
  assert (Skip : preParse true (mkState p (String " " (String c (v ++ String " " t))))
                 = mkState (Some " "%char) (String c (v ++ String " " t))).
  { cbn [preParse prev rest].
    change (skip_white p (String " " (String c (v ++ String " " t))))
      with (skip_white (Some " "%char) (String c (v ++ String " " t))).
    apply skip_white_stop. exact Hwhite. }
  replace (quotedString true (mkState p (String " " (String c (v ++ String " " t)))))
    with (quotedString false (mkState (Some " "%char) (String c (v ++ String " " t))))
    by (unfold quotedString, Combine; rewrite Skip; reflexivity).
  rewrite (quotedString_unclosed false _ c _ Hwhite Uc).
  rewrite nested_not_opening by assumption.
  unfold nested_content, setParseAction, Combine, OneOrMore. fold content_char.
  rewrite Skip. rewrite (content_char_unclosed _ c _ Hc Uc). cbn [rest]. rewrite E.
  cbn [add fst snd app].
  change (TStr (String c "") :: map (fun c0 => TStr (String c0 "")) (list_ascii_of_string v))
    with (map (fun c0 => TStr (String c0 "")) (list_ascii_of_string (String c v))).
  rewrite join_chars. cbn [tok_str]. rewrite (strip_id _ Hs). reflexivity.
Qed.

(** A quoted string after a space, before a space, is one element. *)
Lemma template_item_quoted (q : ascii) (w : string) (f : nat) (p : option ascii)
      (t : string) :
  is_quote q = true -> feed q Normal w = Go Normal ->
  exists p',
    template_item f true
      (mkState p (String " " (String q (w ++ String q "") ++ String " " t)))
    = Some (([TStr (String q (w ++ String q ""))], []), mkState p' (String " " t)).
Proof.
  intros Hq F.
  destruct (quotedString_matches q w (String " " t) (Some " "%char) Hq F) as [p' E].
  { destruct (quote_not_special q Hq) as (_ & _ & _ & _ & X & _).
    cbn. intros N. injection N as <-. discriminate X. }
  exists p'. unfold template_item. cbn [MatchFirst].
  replace (quotedString true
             (mkState p (String " " (String q (w ++ String q "") ++ String " " t))))
    with (quotedString false
            (mkState (Some " "%char) (String q (w ++ String q (String " " t))))).
  - rewrite E. reflexivity.
  - unfold quotedString, Combine. cbn [preParse prev rest append].
    change (skip_white p (String " " (String q ((w ++ String q "") ++ String " " t))))
      with (skip_white (Some " "%char) (String q ((w ++ String q "") ++ String " " t))).
    rewrite skip_white_stop.
    + rewrite append_assoc. reflexivity.
    + destruct (is_quote_cases q Hq) as [-> | ->]; reflexivity.
Qed.

(** A rendered region after a space is one element. *)
Lemma template_item_region (inner tail : string) (f : nat) (p : option ascii) :
  body_before inner tail -> String.length ("<" ++ inner ++ " >") < f ->
  template_item f true (mkState p (String " " (("<" ++ inner ++ " >") ++ tail)))
  = Some (([TStr ("<" ++ inner ++ " >")], []), mkState (Some ">"%char) tail).
Proof.
  intros Hbody Hf.
  assert (L : String.length ("<" ++ inner ++ " >") = String.length inner + 3).
  { cbn [append String.length]. rewrite length_append. simpl. lia. }
  rewrite L in Hf. destruct f as [|f]; [inversion Hf|].
  destruct (Hbody f (Some "<"%char) ltac:(lia)) as (ws & st2 & Z & Hws & Lclose).
  unfold template_item. cbn [MatchFirst].
  rewrite quotedString_none.
  - rewrite nested_unfold.
    replace (("<" ++ inner ++ " >") ++ tail) with (String "<" (inner ++ " >" ++ tail))
      by (cbn [append]; rewrite append_assoc; reflexivity).
    change (Literal "<" true (mkState p (String " " (String "<" (inner ++ " >" ++ tail)))))
      with (Some (([TStr "<"], []) : ParseResults,
                  mkState (Some "<"%char) (inner ++ " >" ++ tail))).
    cbv iota beta. rewrite Z, Lclose. cbn [fst].
    rewrite normalise_templates_strings, Hws. reflexivity.
  - cbn. intros c E. injection E as <-. reflexivity.
Qed.

Lemma loops_empty (tail : string) : loop_before "" tail /\ body_before "" tail.
Proof.
  destruct loops_nil as [L B]. split.
  - intros f n p Hf Hn. apply (L f n p tail Hf Hn).
  - intros f p Hf. apply (B f p tail Hf).
Qed.

Lemma loops_more (e body tail t : string) :
  body ++ " >" ++ tail = String " " t ->
  (forall f p, String.length e < f ->
     exists p', template_item f true (mkState p (String " " (e ++ String " " t)))
                = Some (([TStr e], []), mkState p' (String " " t))) ->
  loop_before body tail ->
  loop_before (" " ++ e ++ body) tail /\ body_before (" " ++ e ++ body) tail.
Proof.
  intros Ht Hstep Hloop.
  assert (Shape : (" " ++ e ++ body) ++ " >" ++ tail = String " " (e ++ String " " t)).
  { rewrite <- Ht. cbn [append]. rewrite append_assoc. reflexivity. }
  assert (Len : String.length (" " ++ e ++ body) = S (String.length e + String.length body)).
  { cbn [append String.length]. rewrite length_append. reflexivity. }
  split.
  - intros f n p Hf Hn. rewrite Len in Hf, Hn.
    destruct n as [|n]; [inversion Hn|]. rewrite Shape.
    destruct (Hstep f p ltac:(lia)) as [p1 E1].
    destruct (Hloop f n p1 ltac:(lia) ltac:(lia)) as (ws & p' & E & Hws).
    exists (e :: ws), p'. cbn [repeat]. rewrite E1, <- Ht, E.
    split; [reflexivity|]. cbn [pad]. rewrite Hws. reflexivity.
  - intros f p Hf. rewrite Len in Hf. rewrite Shape.
    destruct (Hstep f p ltac:(lia)) as [p1 E1].
    destruct (Hloop f (S (String.length (String " " t))) p1 ltac:(lia))
      as (ws & p' & E & Hws).
    { rewrite <- Ht, length_append. lia. }
    exists (e :: ws), (mkState p' (" >" ++ tail)).
    unfold ZeroOrMore, OneOrMore. rewrite E1. cbn [rest]. rewrite <- Ht at 2. rewrite E.
    split; [reflexivity|]. split; [cbn [pad]; rewrite Hws; reflexivity | reflexivity].
Qed.

(** The rendering of the elements is parsed into these elements again. *)
Lemma laid_loops (d : ascii) (original body after : string) :
  laid d original body after ->
  forall tail, carries ">" after tail -> loop_before body tail /\ body_before body tail.
Proof.
  induction 1 as [d k after
                 |d k e d' following body after He Hu Hl Hj Hb IH
                 |d k q w following body after Hq Hf Hp Hb IH
                 |d k inside inner following body after Hi IHi Hb IH]; intros tail C.
  - apply loops_empty.
  - destruct (laid_body_starts _ _ _ _ tail Hb) as [t Ht].
    apply (loops_more e body tail t Ht); [|apply (IH tail C)].
    intros f p _. apply template_item_token; [exact He|].
    rewrite <- Ht. apply (unclosed_carried d' following _ (laid_carries _ _ _ _ Hb tail C));
      assumption.
  - destruct (laid_body_starts _ _ _ _ tail Hb) as [t Ht].
    apply (loops_more _ body tail t Ht); [|apply (IH tail C)].
    intros f p _. apply template_item_quoted; assumption.
  - destruct (laid_body_starts _ _ _ _ tail Hb) as [t Ht].
    apply (loops_more _ body tail t Ht); [|apply (IH tail C)].
    intros f p Lf. exists (Some ">"%char). rewrite <- Ht.
    apply template_item_region; [|exact Lf].
    apply (IHi _ (laid_carries _ _ _ _ Hb tail C)).
Qed.

Lemma laid_no_tab (d : ascii) (original body after : string) :
  laid d original body after ->
  all_chars no_tab original = true -> all_chars no_tab body = true.
Proof.
  induction 1 as [d k after
                 |d k e d' following body after He Hu Hl Hj Hb IH
                 |d k q w following body after Hq Hf Hp Hb IH
                 |d k inside inner following body after Hi IHi Hb IH]; intros T.
  - reflexivity.
  - rewrite !all_chars_app in T. apply andb_prop in T. destruct T as [_ T].
    apply andb_prop in T. destruct T as [Te T].
    cbn [append all_chars]. rewrite all_chars_app, Te, (IH T). reflexivity.
  - rewrite !all_chars_app in T. apply andb_prop in T. destruct T as [_ T].
    apply andb_prop in T. destruct T as [Te T].
    change (" " ++ String q (w ++ String q "") ++ body)
      with (String " " (String q (w ++ String q "") ++ body)).
    cbn [all_chars]. rewrite all_chars_app, Te, (IH T). reflexivity.
  - rewrite all_chars_app in T. apply andb_prop in T. destruct T as [_ T].
    cbn [append all_chars] in T. apply andb_prop in T. destruct T as [_ T].
    assert (Tf : all_chars no_tab following = true).
    { clear - Hi T. induction Hi as [d k after
                 |d k e d' following body after He Hu Hl Hj Hb IH
                 |d k q w following body after Hq Hf Hp Hb IH
                 |d k inside inner following body after Hi IHi Hb IH].
      - rewrite !all_chars_app in T. apply andb_prop in T. destruct T as [_ T].
        apply andb_prop in T. tauto.
      - rewrite !all_chars_app in T. apply andb_prop in T. destruct T as [_ T].
        apply andb_prop in T. destruct T as [_ T]. exact (IH T).
      - rewrite !all_chars_app in T. apply andb_prop in T. destruct T as [_ T].
        apply andb_prop in T. destruct T as [_ T]. exact (IH T).
      - rewrite all_chars_app in T. apply andb_prop in T. destruct T as [_ T].
        cbn [append all_chars] in T. apply andb_prop in T. destruct T as [_ T].
        exact (IH (IHi T)). }
    cbn [append all_chars]. rewrite !all_chars_app, (IHi T), (IH Tf). reflexivity.
Qed.

(** Parsing the rendering of a region that is laid out like this gives
    the rendering. *)
Lemma laid_roundtrip (inside body after : string) :
  laid "<" inside body after -> all_chars no_tab inside = true ->
  parseString angle_bracket_pair ("<" ++ body ++ " >")
  = Some ([TStr ("<" ++ body ++ " >")], []).
Proof.
  intros H T. destruct (laid_loops _ _ _ _ H "" (carries_end after)) as [_ Hbody].
  destruct (Hbody (S (String.length (body ++ " >"))) (Some "<"%char))
    as (ws & st2 & Z & Hws & Lclose).
  { rewrite length_append. lia. }
  unfold parseString, Py.expandtabs.
  rewrite expandtabs_no_tab
    by (cbn [append all_chars]; rewrite all_chars_app, (laid_no_tab _ _ _ _ H T);
        reflexivity).
  unfold angle_bracket_pair, nestedExpr_action, start.
  cbn [rest append String.length]. rewrite nested_unfold.
  change (Literal "<" true (mkState None (String "<" (body ++ " >"))))
    with (Some (([TStr "<"], []) : ParseResults, mkState (Some "<"%char) (body ++ " >"))).
  cbv iota beta. cbn [append] in Z. rewrite Z, Lclose. cbn [fst].
  rewrite normalise_templates_strings, Hws. reflexivity.
Qed.

(** **** How the grammar reads a region *)

Lemma calm_white (c : ascii) :
  calm c = true -> Py.in_chars c DEFAULT_WHITE_CHARS = true -> c = " "%char.
Proof.
  intros C W. cbn [DEFAULT_WHITE_CHARS Py.in_chars] in W.
  destruct (Ascii.eqb_spec c " ") as [E|_]; [exact E|].
  destruct (Ascii.eqb_spec c "010") as [-> | _]; [discriminate C|].
  destruct (Ascii.eqb_spec c "009") as [-> | _]; [discriminate C|].
  destruct (Ascii.eqb_spec c "013") as [-> | _]; [discriminate C | discriminate W].
Qed.

Lemma calm_not_space (c : ascii) :
  calm c = true -> content_ok c = true -> token_char c = true.
Proof.
  intros C H. unfold token_char. rewrite H. unfold not_space, calm in *.
  destruct (Py.isspace c); [|reflexivity]. cbn [negb orb] in C.
  apply Ascii.eqb_eq in C. subst c. discriminate H.
Qed.

Lemma skip_white_calm (s : string) :
  all_chars calm s = true ->
  forall p, exists k, s = spaces k ++ rest (skip_white p s).
Proof.
  induction s as [|c s IH]; intros H p; [exists 0; reflexivity|].
  simpl in H. apply andb_prop in H. destruct H as [Hc Hs].
  cbn [skip_white]. destruct (Py.in_chars c DEFAULT_WHITE_CHARS) eqn:W.
  - rewrite (calm_white c Hc W). destruct (IH Hs (Some " "%char)) as [k E].
    exists (S k). cbn [spaces append]. rewrite <- E. reflexivity.
  - exists 0. reflexivity.
Qed.

Lemma preParse_calm (skip : bool) (st : pstate) :
  all_chars calm (rest st) = true ->
  exists k, rest st = spaces k ++ rest (preParse skip st).
Proof.
  intros H. destruct skip; [apply (skip_white_calm _ H) | exists 0; reflexivity].
Qed.

Lemma skip_white_again (s : string) :
  forall p, skip_white (prev (skip_white p s)) (rest (skip_white p s)) = skip_white p s.
Proof.
  induction s as [|c s IH]; intros p; [reflexivity|].
  cbn [skip_white]. destruct (Py.in_chars c DEFAULT_WHITE_CHARS) eqn:W; [apply IH|].
  cbn [prev rest skip_white]. rewrite W. reflexivity.
Qed.

Lemma Literal_after_skip (m : string) (st : pstate) :
  Literal m true (preParse true st) = Literal m true st.
Proof.
  unfold Literal, token. cbn [preParse]. rewrite skip_white_again. reflexivity.
Qed.

Lemma consume_char (c : ascii) (p : option ascii) (s : string) (st' : pstate) :
  consume (String c "") p s = Some st' -> s = String c (rest st').
Proof.
  destruct s as [|b s]; [discriminate|]. cbn [consume].
  destruct (Ascii.eqb_spec c b) as [-> | _]; [|discriminate].
  intros E. injection E as <-. reflexivity.
Qed.

Lemma Literal_char_calm (c : ascii) (skip : bool) (st : pstate) r st' :
  Literal (String c "") skip st = Some (r, st') ->
  all_chars calm (rest st) = true ->
  exists k, rest st = spaces k ++ String c (rest st').
Proof.
  intros E H. destruct (preParse_calm skip st H) as [k Ek]. exists k.
  unfold Literal, token in E.
  destruct (consume _ _ _) as [st1|] eqn:C; [|discriminate].
  injection E as _ <-. rewrite Ek at 1. rewrite (consume_char _ _ _ _ C). reflexivity.
Qed.

(** A loop with enough fuel ends where its body no longer matches. *)
Lemma repeat_stops (p : parser) :
  consuming p ->
  forall n st, String.length (rest st) < n -> p (snd (repeat p n st)) = None.
Proof.
  intros Hp. induction n as [|n IH]; intros st L; [inversion L|].
  cbn [repeat]. destruct (p st) as [[r st1]|] eqn:E; [|exact E].
  pose proof (Hp _ _ _ E) as L1. specialize (IH st1 ltac:(lia)).
  destruct (repeat p n st1). exact IH.
Qed.

Lemma content_char_inv_unquoted (st : pstate) r st' :
  content_char false st = Some (r, st') ->
  exists c, rest st = String c (rest st') /\ content_ok c = true
            /\ r = ([TStr (String c "")], [])
            /\ (is_quote c = true -> closes c Normal (rest st') = false).
Proof.
  intros E. destruct (content_char_inv _ _ _ E) as (c & R & Hc & ->).
  exists c. repeat split; try assumption. intros Hq.
  unfold content_char, And, NotAny in E.
  destruct (quotedString false st) eqn:Q; [discriminate|].
  apply (proj1 (quotedString_fails false st) Q c (rest st') Hq). exact R.
Qed.

Lemma unclosed_cons (c : ascii) (v following : string) :
  (is_quote c = true -> closes c Normal (v ++ following) = false) ->
  unclosed v following -> unclosed (String c v) following.
Proof. intros H U. split; assumption. Qed.

Lemma repeat_content_unquoted (n : nat) (st : pstate) rs st' :
  repeat (content_char false) n st = (rs, st') ->
  exists w, rest st = w ++ rest st' /\ all_chars content_ok w = true
            /\ rs = (map (fun c => TStr (String c "")) (list_ascii_of_string w), [])
            /\ unclosed w (rest st').
Proof.
  revert st rs st'. induction n as [|n IH]; intros st rs st' E.
  - injection E as <- <-. exists "". repeat split.
  - cbn [repeat] in E.
    destruct (content_char false st) as [[r st1]|] eqn:C.
    + destruct (content_char_inv_unquoted _ _ _ C) as (c & R & Hc & -> & Q).
      destruct (repeat (content_char false) n st1) as [rs1 st2] eqn:E1.
      injection E as <- <-.
      destruct (IH _ _ _ E1) as (w & R1 & Hw & -> & U).
      exists (String c w). rewrite R, R1. simpl. rewrite Hc, Hw.
      repeat split; [|exact U]. intros Hq. rewrite <- R1. exact (Q Hq).
    + injection E as <- <-. exists "". repeat split.
Qed.

(** What [content] yields in a calm text: a token, none of whose quotes
    opens a quoted string, up to a place where no token goes on. *)
Lemma content_yields (skip : bool) (st : pstate) r st' :
  nested_content "<" ">" skip st = Some (r, st') ->
  all_chars calm (rest st) = true ->
  exists e d',
    r = ([TStr e], []) /\ content_token e /\ unclosed e (rest st')
    /\ last_char e = Some d'
    /\ rest (preParse skip st) = e ++ rest st'
    /\ content_char false st' = None.
Proof.
  unfold nested_content, setParseAction, Combine, OneOrMore.
  fold content_char. intros E H.
  pose proof (preParse_ok calm skip st H) as H0.
  destruct (content_char false (preParse skip st)) as [[r1 st1]|] eqn:C; [|discriminate].
  destruct (content_char_inv_unquoted _ _ _ C) as (c & R & Hc & -> & Q).
  pose proof (repeat_stops (content_char false) (content_char_consuming false)
                (S (String.length (rest st1))) st1 (Nat.lt_succ_diag_r _)) as Stop.
  destruct (repeat (content_char false) _ st1) as [rs st2] eqn:E1.
  destruct (repeat_content_unquoted _ _ _ _ E1) as (w & R1 & Hw & -> & U).
  injection E as <- <-. cbn [snd] in Stop.
  assert (T : all_chars token_char (String c w) = true).
  { rewrite R, R1 in H0. change (String c (w ++ rest st2)) with (String c w ++ rest st2) in H0.
    rewrite all_chars_app in H0. apply andb_prop in H0. destruct H0 as [H0 _].
    assert (K : all_chars (fun x => calm x && content_ok x) (String c w) = true).
    { apply all_chars_and; [exact H0|]. simpl. rewrite Hc, Hw. reflexivity. }
    revert K. apply all_chars_impl. intros x Hx. apply andb_prop in Hx.
    apply calm_not_space; tauto. }
  destruct (all_chars_last _ (String c w) ltac:(discriminate) T) as (d' & L & _).
  exists (String c w), d'. repeat split.
  - rewrite <- (strip_id _ (token_not_space _ T)).
    rewrite <- (join_chars (String c w)). reflexivity.
  - discriminate.
  - exact T.
  - intros Hq. rewrite <- R1. exact (Q Hq).
  - exact U.
  - exact L.
  - rewrite R, R1. reflexivity.
  - exact Stop.
Qed.

Lemma quotedString_calm (skip : bool) (st : pstate) r st' :
  quotedString skip st = Some (r, st') ->
  all_chars calm (rest st) = true ->
  (exists w, r = ([TStr w], []) /\ True) /\ all_chars calm (rest st') = true.
Proof.
  intros E H. destruct (quotedString_tight calm skip st r st' E H) as [(w & -> & _) H1].
  split; [exists w; split; [reflexivity | exact I] | exact H1].
Qed.

Lemma template_item_calm (f : nat) (st : pstate) r st' :
  template_item f true st = Some (r, st') ->
  all_chars calm (rest st) = true -> all_chars calm (rest st') = true.
Proof.
  intros E H.
  apply (template_item_shape calm (fun _ => True) quotedString_calm (fun _ _ _ _ => I)
           f st r st'
           (nested_shape_holds calm (fun _ => True) quotedString_calm (fun _ _ _ _ => I) f)
           E H).
Qed.

(** One element of the original region. *)
Lemma item_laid (f : nat) (st : pstate) r st1 :
  reads_region f ->
  template_item f true st = Some (r, st1) ->
  all_chars calm (rest st) = true ->
  exists e,
    r = ([TStr e], [])
    /\ forall d body after,
         gap d (rest st) ->
         (forall d1, gap d1 (rest st1) -> laid d1 (rest st1) body after) ->
         laid d (rest st) (" " ++ e ++ body) after.
Proof.
  intros IH E H. unfold template_item in E. cbn [MatchFirst] in E.
  destruct (preParse_calm true st H) as [k Ek].
  destruct (quotedString true st) as [[r1 st2]|] eqn:Q.
  { injection E as <- <-.
    destruct (quotedString_yields _ _ _ _ Q) as (q & w & Hq & R & F & P & ->).
    eexists. split; [reflexivity|]. intros d body after _ K.
    rewrite Ek, R.
    replace (String q (w ++ String q (rest st2)))
      with (String q (w ++ String q "") ++ rest st2)
      by (cbn [append]; rewrite append_assoc; reflexivity).
    apply (laid_quoted d k q w (rest st2) body after Hq F P). apply K. right. left. auto. }
  destruct (nestedExpr_with _ "<" ">" f true st) as [[r1 st2]|] eqn:N.
  { injection E as <- <-.
    destruct (IH _ _ _ _ N H) as (k' & inside & inner & R & L & ->).
    eexists. split; [reflexivity|]. intros d body after _ K.
    rewrite R. apply (laid_nested d k' inside inner (rest st2) body after L).
    apply K. left. reflexivity. }
  destruct (nested_content "<" ">" true st) as [[r1 st2]|] eqn:C; [|discriminate].
  injection E as <- <-.
  destruct (content_yields _ _ _ _ C H) as (e & d' & -> & He & U & L & R & Stop).
  exists e. split; [reflexivity|]. intros d body after G K.
  rewrite Ek, R. apply (laid_content d k e d' (rest st2) body after He U L).
  - intros ->. cbn [spaces append] in Ek. rewrite R in Ek.
    destruct e as [|c v]; [discriminate|]. destruct He as [_ He]. destruct U as [Uc _].
    simpl in He. apply andb_prop in He. destruct He as [Hc _].
    destruct (token_char_parts c Hc) as (_ & _ & B).
    destruct G as [G | [[G P] | [p G]]].
    + split; [intros ->; discriminate G|]. cbn. intros X. injection X as ->. congruence.
    + split.
      * intros ->. discriminate G.
      * rewrite Ek in P. exact P.
    + rewrite Ek in G. cbn [append] in G.
      rewrite (content_char_unclosed p c _ Hc Uc) in G. discriminate.
  - apply K. right. right. exists (prev st2). destruct st2. exact Stop.
Qed.

(** The elements of the original region, up to its closing bracket. *)
Lemma items_laid (f : nat) :
  reads_region f ->
  forall n st rs st2 r3 st3,
    repeat (template_item f true) n st = (rs, st2) ->
    all_chars calm (rest st) = true ->
    Literal ">" true st2 = Some (r3, st3) ->
    exists ws,
      rs = (map TStr ws, [])
      /\ forall d, gap d (rest st) -> laid d (rest st) (pad ws) (rest st3).
Proof.
  intros IH.
  assert (Close : forall st r3 st3,
             all_chars calm (rest st) = true -> Literal ">" true st = Some (r3, st3) ->
             forall d, laid d (rest st) "" (rest st3)).
  { intros st r3 st3 H E d. destruct (Literal_char_calm _ _ _ _ _ E H) as [k ->].
    apply laid_close. }
  induction n as [|n IHn]; intros st rs st2 r3 st3 E H Lc.
  - injection E as <- <-. exists []. split; [reflexivity|]. intros d _.
    apply (Close _ _ _ H Lc).
  - cbn [repeat] in E. destruct (template_item f true st) as [[r st1]|] eqn:T.
    + destruct (repeat (template_item f true) n st1) as [rs1 st2'] eqn:E1.
      injection E as <- <-.
      pose proof (template_item_calm _ _ _ _ T H) as H1.
      destruct (IHn _ _ _ _ _ E1 H1 Lc) as (ws & -> & K).
      destruct (item_laid f st r st1 IH T H) as (e & -> & J).
      exists (e :: ws). split; [reflexivity|]. intros d G. cbn [pad].
      apply (J d _ _ G K).
    + injection E as <- <-. exists []. split; [reflexivity|]. intros d _.
      apply (Close _ _ _ H Lc).
Qed.

Lemma reads_region_holds (f : nat) : reads_region f.
Proof.
  induction f as [|f IH]; intros skip st r st' E H; [discriminate|].
  rewrite nested_unfold in E.
  destruct (Literal "<" skip st) as [[r1 st1]|] eqn:L1; [|discriminate].
  destruct (Literal_char_calm _ _ _ _ _ L1 H) as [k R].
  destruct (Literal_ok calm _ _ _ _ _ L1 H) as [_ H1].
  destruct (ZeroOrMore (template_item f) true st1) as [[rz st2]|] eqn:Z; [|discriminate].
  destruct (Literal ">" true st2) as [[r3 st3]|] eqn:L3; [|discriminate].
  injection E as <- <-.
  assert (Loop : exists n st2',
             repeat (template_item f true) n st1 = (rz, st2')
             /\ Literal ">" true st2' = Some (r3, st3)).
  { unfold ZeroOrMore, OneOrMore in Z.
    destruct (template_item f true st1) as [[r st1']|] eqn:T.
    - destruct (repeat (template_item f true) (S (String.length (rest st1'))) st1')
        as [rs st2'] eqn:E1.
      injection Z as <- <-. exists (S (S (String.length (rest st1')))), st2'.
      split; [|exact L3]. cbn [repeat]. rewrite T.
      cbn [repeat] in E1. rewrite E1. reflexivity.
    - injection Z as <- <-. exists 0, st1. split; [reflexivity|].
      rewrite <- Literal_after_skip. exact L3. }
  destruct Loop as (n & st2' & E1 & L3').
  destruct (items_laid f IH n st1 rz st2' r3 st3 E1 H1 L3') as (ws & -> & K).
  exists k, (rest st1), (pad ws). split; [exact R|]. split.
  - apply K. left. reflexivity.
  - rewrite <- (normalise_templates_strings ws). reflexivity.
Qed.

Lemma calm_no_tab (c : ascii) : calm c = true -> no_tab c = true.
Proof.
  unfold no_tab. destruct (Ascii.eqb_spec c "009") as [-> | _]; [discriminate | reflexivity].
Qed.

(** A region of a text whose only whitespace is the space renders to a
    text that renders to itself. *)
Lemma rendering_idempotent_calm (skip : bool) (st : pstate) r st' :
  all_chars calm (rest st) = true ->
  angle_bracket_pair skip st = Some (r, st') ->
  exists rendering,
    r = ([TStr rendering], [])
    /\ parseString angle_bracket_pair rendering = Some ([TStr rendering], []).
Proof.
  intros H E. unfold angle_bracket_pair, nestedExpr_action in E.
  destruct (reads_region_holds _ _ _ _ _ E H) as (k & inside & body & R & L & ->).
  exists ("<" ++ body ++ " >"). split; [reflexivity|].
  apply (laid_roundtrip inside body (rest st') L).
  pose proof (all_chars_impl _ _ _ calm_no_tab H) as T.
  rewrite R, all_chars_app in T. apply andb_prop in T. destruct T as [_ T].
  cbn [append all_chars] in T. apply andb_prop in T. tauto.
Qed.

(** **** The tabs that [parseString] expands *)

Lemma all_chars_blanks (Q : ascii -> bool) (n : nat) :
  Q " "%char = true -> all_chars Q (String.concat "" (List.repeat " " n)) = true.
Proof.
  intros H. induction n as [|n IH]; [reflexivity|].
  cbn [List.repeat String.concat]. destruct (List.repeat " " n) eqn:E.
  - cbn. rewrite H. reflexivity.
  - cbn [append all_chars]. rewrite H, IH. reflexivity.
Qed.

Lemma expandtabs_chars (P Q : ascii -> bool) :
  Q " "%char = true ->
  (forall c, P c = true -> Ascii.eqb c "009" = false -> Q c = true) ->
  forall s column, all_chars P s = true ->
                   all_chars Q (Py.expandtabs_from column s) = true.
Proof.
  intros Hb I. induction s as [|c s IH]; intros column H; [reflexivity|].
  simpl in H. apply andb_prop in H. destruct H as [Hc Hs]. cbn [Py.expandtabs_from].
  destruct (Ascii.eqb c "009") eqn:T.
  - rewrite all_chars_app, (all_chars_blanks Q _ Hb), (IH _ Hs). reflexivity.
  - destruct (Ascii.eqb c "010" || Ascii.eqb c "013");
      cbn [all_chars]; rewrite (I c Hc T), (IH _ Hs); reflexivity.
Qed.

Lemma calm_after_expandtabs (c : ascii) :
  no_odd_space c && no_line_break c = true -> Ascii.eqb c "009" = false -> calm c = true.
Proof.
  unfold no_odd_space, odd_space, no_line_break, is_break, calm. intros H T.
  apply andb_prop in H. destruct H as [H1 H2].
  destruct (Py.isspace c); [|reflexivity]. cbn [negb orb andb] in *.
  cbn [DEFAULT_WHITE_CHARS Py.in_chars] in H1. rewrite T in H1.
  destruct (Ascii.eqb c " "); [reflexivity|].
  destruct (Ascii.eqb c "010"); [discriminate|].
  destruct (Ascii.eqb c "013"); discriminate.
Qed.

(** **** Idempotence *)

Lemma region_text_plain (column : nat) (text : string) :
  all_chars no_odd_space text = true -> all_chars no_quote text = true ->
  all_chars plain (Py.expandtabs_from column text) = true.
Proof.
  intros Ho Hq. apply (expandtabs_chars plain plain eq_refl (fun c H _ => H)).
  exact (all_chars_and no_quote no_odd_space text Hq Ho).
Qed.

Lemma region_text_calm (column : nat) (text : string) :
  all_chars no_odd_space text = true -> all_chars no_line_break text = true ->
  all_chars calm (Py.expandtabs_from column text) = true.
Proof.
  intros Ho Hb.
  apply (expandtabs_chars (fun c => no_odd_space c && no_line_break c) calm eq_refl
           calm_after_expandtabs).
  apply all_chars_and; assumption.
Qed.



(** The same for a region that is parsed on its own. *)
Lemma parsed_region_renders_to_itself (text : string) (r : ParseResults) :
  all_chars no_odd_space text = true ->
  all_chars no_quote text = true \/ all_chars no_line_break text = true ->
  parseString angle_bracket_pair text = Some r ->
  exists rendering,
    r = ([TStr rendering], [])
    /\ parseString angle_bracket_pair rendering = Some ([TStr rendering], []).
Proof.
  intros Ho Hqb E. unfold parseString in E.
  destruct (angle_bracket_pair true (start (Py.expandtabs text))) as [[r0 st']|] eqn:A;
    [|discriminate].
  injection E as <-. unfold start, Py.expandtabs in A. destruct Hqb as [Hq | Hb].
  - apply (rendering_idempotent_plain true (mkState None (Py.expandtabs_from 0 text))
             r0 st'); [|exact A].
    apply region_text_plain; assumption.
  - apply (rendering_idempotent_calm true (mkState None (Py.expandtabs_from 0 text))
             r0 st'); [|exact A].
    apply region_text_calm; assumption.
Qed.

(** Regions with character and string literals, a quote that is not
    closed, and a tab inside a string literal. *)
Example regions_with_quotes :
  let twice text rendering :=
    parseString angle_bracket_pair text = Some ([TStr rendering], [])
    /\ parseString angle_bracket_pair rendering = Some ([TStr rendering], []) in
  twice "<'a'>" "< 'a' >"
  /\ twice ("<char," ++ String dquote ("a b" ++ String dquote ">"))
           ("< char, " ++ String dquote ("a b" ++ String dquote " >"))
  /\ twice "<std::integral_constant<char,'x'>,int>"
           "< std::integral_constant < char, 'x' > ,int >"
  /\ twice ("<ab" ++ String dquote ("cd " ++ String dquote ">"))
           ("< ab " ++ String dquote ("cd " ++ String dquote " >"))
  /\ twice "<it's>" "< it's >"
  /\ twice ("<'a" ++ String "009" "b'>") "< 'a     b' >".
Proof. vm_compute. repeat split. Qed.


End Props.
